(** * Google Drive extension: server handlers

    A shallow embedding of the server-side request handlers of the
    Google Drive extension (connect, oauth-callback, status, sync,
    disconnect) and of the exclusion-pattern matcher of the sync handler,
    together with the properties of the OAuth state token, of the
    connection flag, of the sync dispatch and of the disconnect clean-up.

    Conventions of the embedding.
    - The host's key-value [storage] and [secrets] stores are finite maps
      with string keys; their operations are total (the host treats them
      as atomic key-value operations).
    - JavaScript numbers are integers ([Z]): every number the handlers
      compute is an epoch-millisecond timestamp or a counter.
    - A JavaScript string is a [string] of 8-bit code units (Latin-1).
    - Everything the host runtime provides from outside (the clock, the HTTP
      client, the random generator, URL encoding) is read from an
      environment [Env]; an HTTP call may throw, answer with a non-ok
      status, or answer with a body that fails to parse.

    Two parts of the client are embedded as well: the pattern list of
    the settings form ([Settings]) and the sync command with its
    [isSyncing] guard ([Client]).

    Two of the conventions are lifted where a property depends on them:
    [Faulty] is the sync handler with calls on the stores that may
    reject, and [Overlap] lets callbacks interleave between the lookup
    and the removal of the state record. *)

From Stdlib Require Import ZArith NArith String Ascii List Bool Lia.
From stdpp Require Import gmap strings list fin_maps.

Local Open Scope Z_scope.

(** ** Exclusion patterns (sync handler: [globToRegex], [shouldExclude]) *)

Module Glob.

(** The character class [[.+^${}()|[\]\\]] of the first [replace]. *)
Definition is_escaped (c : ascii) : bool :=
  match c with
  | "." | "+" | "^" | "$" | "{" | "}" | "(" | ")" | "|" | "[" | "]" | "\" => true
  | _ => false
  end%char.

(** [s.replace(/re/g, f)] for a [re] that matches single characters:
    every character [c] is replaced by [f c]. *)
Fixpoint replace_each (f : ascii → string) (s : string) : string :=
  match s with
  | EmptyString => EmptyString
  | String c s' => f c +:+ replace_each f s'
  end.

Definition char_str (c : ascii) : string := String c EmptyString.

(** [.replace(/[.+^${}()|[\]\\]/g, '\\$&')] *)
Definition escape_step (c : ascii) : string :=
  if is_escaped c then String "\"%char (char_str c) else char_str c.

(** [.replace(/\*/g, '.*')] *)
Definition star_step (c : ascii) : string :=
  if Ascii.eqb c "*" then ".*" else char_str c.

(** [.replace(/\?/g, '.')] *)
Definition qmark_step (c : ascii) : string :=
  if Ascii.eqb c "?" then "." else char_str c.

Definition escaped (glob : string) : string :=
  replace_each qmark_step (replace_each star_step (replace_each escape_step glob)).

(** A [RegExp] object: its pattern text and its [i] flag. *)
Record RegExp := { source : string; ignoreCase : bool }.

(** [new RegExp(`^${escaped}$`, 'i')] *)
Definition globToRegex (glob : string) : RegExp :=
  {| source := "^" +:+ escaped glob +:+ "$"; ignoreCase := true |}.

(** *** The regular-expression engine, for the patterns [globToRegex] builds

    The engine belongs to the JavaScript runtime.  It is modelled for
    the pattern language that is needed here: a pattern [^ t1 ... tn $]
    whose terms are atoms, optionally followed by [*]; an atom is [.], an
    escaped syntax character or an ordinary character.  Any other pattern
    is outside the modelled fragment and [parse] answers [None]. *)

Inductive Atom := Lit (c : ascii) | Dot.
Inductive Term := One (a : Atom) | Many (a : Atom).

(** SyntaxCharacter of the pattern grammar. *)
Definition is_syntax (c : ascii) : bool :=
  match c with
  | "^" | "$" | "\" | "." | "*" | "+" | "?" | "(" | ")" | "[" | "]" | "{" | "}" | "|" => true
  | _ => false
  end%char.

(** The pattern text is first cut into tokens. *)
Inductive Token := TStart | TEnd | TStar | TAtom (a : Atom).

Fixpoint lex (s : string) : option (list Token) :=
  match s with
  | EmptyString => Some []
  | String c rest =>
      if Ascii.eqb c "\" then
        match rest with
        | String e rest' =>
            if is_syntax e then cons (TAtom (Lit e)) <$> lex rest' else None
        | EmptyString => None
        end
      else if Ascii.eqb c "." then cons (TAtom Dot) <$> lex rest
      else if Ascii.eqb c "*" then cons TStar <$> lex rest
      else if Ascii.eqb c "^" then cons TStart <$> lex rest
      else if Ascii.eqb c "$" then cons TEnd <$> lex rest
      else if is_syntax c then None
      else cons (TAtom (Lit c)) <$> lex rest
  end.

(** The terms up to the closing [$]: an atom takes the [*] that follows it. *)
Fixpoint parse_terms (ts : list Token) : option (list Term) :=
  match ts with
  | [TEnd] => Some []
  | TAtom a :: TStar :: ts' => cons (Many a) <$> parse_terms ts'
  | TAtom a :: ts' => cons (One a) <$> parse_terms ts'
  | _ => None
  end.

Definition parse (pattern : string) : option (list Term) :=
  match lex pattern with
  | Some (TStart :: body) => parse_terms body
  | _ => None
  end.

(** Canonicalize of a case-insensitive match: the upper-case mapping of a
    single code unit (Latin-1 range). *)
Definition canonicalize (c : ascii) : ascii :=
  let n := N_of_ascii c in
  if ((97 <=? n) && (n <=? 122))%N then ascii_of_N (n - 32)
  else if ((224 <=? n) && (n <=? 254) && negb (n =? 247))%N then ascii_of_N (n - 32)
  else c.

(** LineTerminator: [.] matches no line feed and no carriage return. *)
Definition is_line_terminator (c : ascii) : bool :=
  let n := N_of_ascii c in ((n =? 10) || (n =? 13))%N.

Definition char_matches (ci : bool) (p x : ascii) : bool :=
  if ci then Ascii.eqb (canonicalize p) (canonicalize x) else Ascii.eqb p x.

Definition atom_matches (ci : bool) (a : Atom) (x : ascii) : bool :=
  match a with
  | Lit c => char_matches ci c x
  | Dot => negb (is_line_terminator x)
  end.

(** Backtracking match of the terms against the whole of [s] (the
    pattern is anchored at both ends). *)
Fixpoint match_terms (ci : bool) (ts : list Term) (s : string) {struct ts} : bool :=
  match ts with
  | [] => match s with EmptyString => true | _ => false end
  | One a :: ts' =>
      match s with
      | String x s' => atom_matches ci a x && match_terms ci ts' s'
      | EmptyString => false
      end
  | Many a :: ts' =>
      (fix many (s : string) : bool :=
         match s with
         | String x s' => (atom_matches ci a x && many s') || match_terms ci ts' s
         | EmptyString => match_terms ci ts' s
         end) s
  end.

(** [regex.test(s)] *)
Definition test (re : RegExp) (s : string) : bool :=
  match parse (source re) with
  | Some ts => match_terms (ignoreCase re) ts s
  | None => false
  end.

(** [shouldExclude(filename, patterns)] *)
Fixpoint shouldExclude (filename : string) (patterns : list string) : bool :=
  match patterns with
  | [] => false
  | pattern :: rest =>
      if test (globToRegex pattern) filename then true
      else shouldExclude filename rest
  end.

(** *** The matching relation in the words of the specification

    [glob_spec wild pattern name]: the whole of [name] matches [pattern],
    where [*] stands for any sequence of characters accepted by [wild],
    [?] for any single character accepted by [wild], and every other
    character of the pattern stands for itself, letter case ignored. *)
Inductive glob_spec (wild : ascii → bool) : string → string → Prop :=
  | glob_end : glob_spec wild EmptyString EmptyString
  | glob_star_none g f :
      glob_spec wild g f → glob_spec wild (String "*" g) f
  | glob_star_more g x f :
      wild x = true → glob_spec wild (String "*" g) f →
      glob_spec wild (String "*" g) (String x f)
  | glob_qmark g x f :
      wild x = true → glob_spec wild g f →
      glob_spec wild (String "?" g) (String x f)
  | glob_literal c g x f :
      c ≠ "*"%char → c ≠ "?"%char → canonicalize c = canonicalize x →
      glob_spec wild g f → glob_spec wild (String c g) (String x f).

(** The wildcards as the regular expression has them: any character but
    a line terminator. *)
Definition no_line_terminator (c : ascii) : bool := negb (is_line_terminator c).

(** The wildcards read literally as "any character". *)
Definition any_character (c : ascii) : bool := true.

(** The terms a glob pattern stands for, character by character. *)
Definition term_of (c : ascii) : Term :=
  if Ascii.eqb c "*" then Many Dot
  else if Ascii.eqb c "?" then One Dot
  else One (Lit c).

Fixpoint terms_of (glob : string) : list Term :=
  match glob with
  | EmptyString => []
  | String c g => term_of c :: terms_of g
  end.

(** What the three replacements together do to one character of the
    glob, and the tokens that the result is cut into. *)
Definition translated (c : ascii) : string :=
  if is_escaped c then String "\"%char (char_str c)
  else if Ascii.eqb c "*" then ".*"
  else if Ascii.eqb c "?" then "."
  else char_str c.

Definition tokens_of (c : ascii) : list Token :=
  if Ascii.eqb c "*" then [TAtom Dot; TStar]
  else if Ascii.eqb c "?" then [TAtom Dot]
  else [TAtom (Lit c)].

Fixpoint body_tokens (glob : string) : list Token :=
  match glob with
  | EmptyString => [TEnd]
  | String c g => tokens_of c ++ body_tokens g
  end.

(** A name without line terminators. *)
Fixpoint single_line (f : string) : bool :=
  match f with
  | EmptyString => true
  | String x f' => no_line_terminator x && single_line f'
  end.

(** The name [a], line feed, [b]. *)
Definition two_lines : string := String "a" (String "010" (String "b" EmptyString)).

End Glob.

(** ** The host runtime: stored values, stores, environment *)

Module Runtime.

(** JavaScript numbers, as far as the handlers need them. *)
Inductive Number := NaN | Int (z : Z).

(** [SyncResult] of the sync handler. *)
Record SyncResult := {
  success : bool;
  synced : Z;
  uploaded : Z;
  downloaded : Z;
  errors : Z;
  errorMessages : list string
}.

(** The part of the stored configuration that the server reads. *)
Record SyncConfig := {
  syncDirection : option string;
  excludePatterns : option (list string)
}.

(** Values kept in [storage]: the shapes that the extension writes. *)
Inductive Val :=
  | VBool (b : bool)
  | VNum (n : Z)
  | VStr (s : string)
  | VState (createdAt : Z) (userId : option string)
  | VConfig (c : SyncConfig)
  | VResult (r : SyncResult).

(** ToBoolean *)
Definition truthy (v : Val) : bool :=
  match v with
  | VBool b => b
  | VNum n => negb (n =? 0)
  | VStr s => negb (String.eqb s "")
  | VState _ _ | VConfig _ | VResult _ => true
  end.

Definition truthy_val (o : option Val) : bool :=
  match o with Some v => truthy v | None => false end.

Definition truthy_str (o : option string) : bool :=
  match o with Some s => negb (String.eqb s "") | None => false end.

(** [a || b] on optional strings *)
Definition or_else (a b : option string) : option string :=
  if truthy_str a then a else b.

(** A value inside a template literal *)
Definition interpolate (o : option string) : string :=
  match o with Some s => s | None => "undefined" end.

(** [storedState.createdAt]: only a state record has the property. *)
Definition createdAt_of (v : Val) : Number :=
  match v with
  | VState c _ => Int c
  | _ => NaN
  end.

(** [a - b], [a > b], [a >= b], [a < b] with a possibly-NaN operand *)
Definition num_sub (a b : Number) : Number :=
  match a, b with Int x, Int y => Int (x - y) | _, _ => NaN end.
Definition num_gt (a b : Number) : bool :=
  match a, b with Int x, Int y => y <? x | _, _ => false end.
Definition num_ge (a b : Number) : bool :=
  match a, b with Int x, Int y => y <=? x | _, _ => false end.
Definition num_lt (a b : Number) : bool :=
  match a, b with Int x, Int y => x <? y | _, _ => false end.

(** An HTTP request as the handlers build it. *)
Record HttpRequest := {
  url : string;
  method : string;
  authorization : option string;
  content_type : option string;
  form : list (string * string)
}.

(** What a [fetch] can come back with: the call throws, or a response
    arrives with its [ok] flag and a body that parses ([Some]) or does
    not ([None], then [response.json()] throws). *)
Inductive Outcome (A : Type) :=
  | NetworkError (message : string)
  | Reply (ok : bool) (body : option A).
Arguments NetworkError {A} message.
Arguments Reply {A} ok body.

Record TokenBody := {
  access_token : string;
  refresh_token : option string;
  expires_in : Z
}.

Record UserInfo := {
  email : string;
  name : string;
  picture : option string
}.

Record DriveFile := {
  file_id : string;
  file_name : string;
  mimeType : string;
  modifiedTime : string;
  size : option string
}.

(** The parsed body of the file listing, as far as the download stage
    looks at it: [data.files] is an array of files, or evaluating
    [data.files.filter(...)] throws a TypeError with the given message
    (no [files] member, or one that is no array of files). *)
Inductive Listing :=
  | Files (files : list DriveFile)
  | NoFiles (message : string).

Record StorageQuota := {
  usage : option string;
  limit : option string
}.

(** [data.storageQuota] is optional. *)
Record AboutBody := { storageQuota : option StorageQuota }.

(** The outside world of one handler run.  The clock and the endpoints
    are indexed by the number of earlier interactions of the run, so two
    readings of the clock, or two calls of one endpoint, may differ. *)
Record Env := {
  clock : nat → Z;
  toISOString : Z → string;
  getRandomValues : nat → nat → N;
  encodeURIComponent : string → string;
  urlToString : string → list (string * string) → string;
  stringToNumber : string → Number;
  parseInt : string → Number;
  tokenEndpoint : nat → HttpRequest → Outcome TokenBody;
  userinfoEndpoint : nat → HttpRequest → Outcome UserInfo;
  filesEndpoint : nat → HttpRequest → Outcome Listing;
  aboutEndpoint : nat → HttpRequest → Outcome AboutBody;
  revokeEndpoint : nat → HttpRequest → Outcome unit
}.

(** What a run leaves behind for an observer: the HTTP calls made and
    the stages entered. *)
Inductive Event :=
  | Fetched (req : HttpRequest)
  | Entered (fn : string).

(** State of a run: the two stores, the events so far (latest first)
    and the number of interactions with the environment so far. *)
Record State := {
  storage : gmap string Val;
  secrets : gmap string string;
  log : list Event;
  steps : nat
}.

Definition with_storage (f : gmap string Val → gmap string Val) (s : State) : State :=
  {| storage := f (storage s); secrets := secrets s; log := log s; steps := steps s |}.
Definition with_secrets (f : gmap string string → gmap string string) (s : State) : State :=
  {| storage := storage s; secrets := f (secrets s); log := log s; steps := steps s |}.
Definition logged (e : Event) (s : State) : State :=
  {| storage := storage s; secrets := secrets s; log := e :: log s; steps := steps s |}.
Definition stepped (s : State) : State :=
  {| storage := storage s; secrets := secrets s; log := log s; steps := S (steps s) |}.

(** A fresh run over the given stores. *)
Definition start (st : gmap string Val) (sec : gmap string string) : State :=
  {| storage := st; secrets := sec; log := []; steps := 0 |}.

(** ToNumber of a stored value *)
Definition to_number (env : Env) (v : Val) : Number :=
  match v with
  | VNum n => Int n
  | VBool b => Int (if b then 1 else 0)
  | VStr s => stringToNumber env s
  | VState _ _ | VConfig _ | VResult _ => NaN
  end.

(** *** Computations that may throw *)

Inductive Result (A : Type) :=
  | Ok (a : A)
  | Thrown (message : string).
Arguments Ok {A} a.
Arguments Thrown {A} message.

Definition M (A : Type) : Type := State → Result A * State.

Definition ret {A} (a : A) : M A := fun s => (Ok a, s).
Definition throw {A} (msg : string) : M A := fun s => (Thrown msg, s).
Definition bind {A B} (m : M A) (k : A → M B) : M B :=
  fun s => match m s with
           | (Ok a, s') => k a s'
           | (Thrown e, s') => (Thrown e, s')
           end.
(** [try { m } catch (e) { h e }] *)
Definition try_catch {A} (m : M A) (h : string → M A) : M A :=
  fun s => match m s with
           | (Ok a, s') => (Ok a, s')
           | (Thrown e, s') => h e s'
           end.

Declare Scope js_scope.
Delimit Scope js_scope with js.
Notation "'let!' x ':=' m 'in' k" := (bind m (fun x => k))
  (at level 10, x name, m at level 100, k at level 200) : js_scope.
Notation "'do!' m 'in' k" := (bind m (fun _ => k))
  (at level 10, m at level 100, k at level 200) : js_scope.
Local Open Scope js_scope.

(** [for (const x of xs) { await body(x) }] *)
Fixpoint for_each {A} (xs : list A) (body : A → M unit) : M unit :=
  match xs with
  | [] => ret tt
  | x :: rest => do! body x in for_each rest body
  end.

(** *** The server API ([ExtensionServerAPI]) *)

Definition storage_get (key : string) : M (option Val) :=
  fun s => (Ok (storage s !! key), s).
Definition storage_set (key : string) (v : Val) : M unit :=
  fun s => (Ok tt, with_storage (insert key v) s).
Definition storage_delete (key : string) : M unit :=
  fun s => (Ok tt, with_storage (delete key) s).
(** [api.storage.list(prefix)]: the stored keys that start with [prefix]. *)
Definition keys_with_prefix {V} (prefix : string) (m : gmap string V) : list string :=
  List.filter (String.prefix prefix) (fst <$> map_to_list m).
Definition storage_list (prefix : string) : M (list string) :=
  fun s => (Ok (keys_with_prefix prefix (storage s)), s).

Definition secrets_get (name : string) : M (option string) :=
  fun s => (Ok (secrets s !! name), s).
Definition secrets_set (name value : string) : M unit :=
  fun s => (Ok tt, with_secrets (insert name value) s).
Definition secrets_delete (name : string) : M unit :=
  fun s => (Ok tt, with_secrets (delete name) s).

(** [Date.now()] *)
Definition date_now (env : Env) : M Z :=
  fun s => (Ok (clock env (steps s)), stepped s).
(** [new Date().toISOString()] *)
Definition date_iso (env : Env) : M string :=
  fun s => (Ok (toISOString env (clock env (steps s))), stepped s).

(** [await api.http.fetch(url, options)] against one endpoint: the call
    is recorded, then throws or yields the response. *)
Definition fetch {A} (endpoint : nat → HttpRequest → Outcome A) (req : HttpRequest)
  : M (bool * option A) :=
  fun s =>
    let s' := stepped (logged (Fetched req) s) in
    match endpoint (steps s) req with
    | NetworkError msg => (Thrown msg, s')
    | Reply ok body => (Ok (ok, body), s')
    end.

(** [await response.json()] *)
Definition json {A} (body : option A) : M A :=
  match body with
  | Some a => ret a
  | None => throw "Unexpected end of JSON input"
  end.

(** Entry into a named stage (observation only). *)
Definition enter (fn : string) : M unit :=
  fun s => (Ok tt, logged (Entered fn) s).

(** *** Relations between the state before and after a computation *)

(** [m] only moves the state along the relation [R]. *)
Definition respects {A} (R : State → State → Prop) (m : M A) : Prop :=
  ∀ s, R s (m s).2.

Definition on_storage (Q : gmap string Val → gmap string Val → Prop) : State → State → Prop :=
  λ s s', Q (storage s) (storage s').
(** Every event that was added satisfies [P]. *)
Definition logs_only (P : Event → Prop) : State → State → Prop :=
  λ s s', ∀ e, e ∈ log s' → e ∈ log s ∨ P e.

(** No entry under [k] before, no entry under [k] after. *)
Definition stays_absent {V} (k : string) : gmap string V → gmap string V → Prop :=
  λ st st', st !! k = None → st' !! k = None.

(** The entry under [k] is the same before and after. *)
Definition same_at {V} (k : string) : gmap string V → gmap string V → Prop :=
  λ st st', st' !! k = st !! k.

(** *** Requests and responses *)

Record Request := {
  q_code : option string;
  q_state : option string;
  q_error : option string;
  q_error_description : option string;
  h_origin : option string;
  h_host : option string;
  user_id : option string
}.

(** [ConnectionStatus] of the status handler *)
Record ConnectionStatus := {
  connected : bool;
  userEmail : option Val;
  userName : option Val;
  userPicture : option Val;
  connectedAt : option Val;
  lastSyncAt : option Val;
  quotaUsed : option Number;
  quotaTotal : option Number
}.

Inductive Payload :=
  | ConnectData (authUrl state : string)
  | StatusData (status : ConnectionStatus)
  | SyncData (result : SyncResult)
  | DisconnectData (ok : bool) (message : string).

(** [api.response.json(data)], [api.response.error(message, status)],
    [api.response.redirect(url)] *)
Inductive Response :=
  | Json (data : Payload)
  | Error (message : string) (status : Z)
  | Redirect (url : string).

End Runtime.

(** ** The handlers *)

Module Handlers.
Import Runtime.
Local Open Scope js_scope.

Definition GOOGLE_AUTH_URL : string := "https://accounts.google.com/o/oauth2/v2/auth".
Definition GOOGLE_TOKEN_URL : string := "https://oauth2.googleapis.com/token".
Definition GOOGLE_USERINFO_URL : string := "https://www.googleapis.com/oauth2/v2/userinfo".
Definition GOOGLE_DRIVE_API : string := "https://www.googleapis.com/drive/v3".
Definition GOOGLE_REVOKE_URL : string := "https://oauth2.googleapis.com/revoke?token=".
Definition ABOUT_URL : string := "https://www.googleapis.com/drive/v3/about?fields=storageQuota".
Definition FILES_URL : string :=
  GOOGLE_DRIVE_API +:+ "/files?fields=files(id,name,mimeType,modifiedTime,size)&pageSize=100".
Definition SCOPES : string :=
  "https://www.googleapis.com/auth/drive.file https://www.googleapis.com/auth/drive.metadata.readonly https://www.googleapis.com/auth/userinfo.email https://www.googleapis.com/auth/userinfo.profile".
Definition SETTINGS_URL : string := "/settings/extensions/google-drive".
Definition CALLBACK_PATH : string := "/extensions/blueplm.google-drive/oauth-callback".
Definition FORM_URLENCODED : string := "application/x-www-form-urlencoded".

(** The storage key of a state token: [`oauth_state_${state}`] *)
Definition state_key (state : string) : string := "oauth_state_" +:+ state.

(** [origin.startsWith('http') ? `${origin}${callbackPath}` : `https://${origin}${callbackPath}`] *)
Definition redirect_uri (req : Request) : string :=
  let origin := interpolate (or_else (or_else (h_origin req) (h_host req)) (Some "")) in
  if String.prefix "http" origin then origin +:+ CALLBACK_PATH
  else "https://" +:+ origin +:+ CALLBACK_PATH.

(** [byte.toString(16).padStart(2, '0')] *)
Definition hex_digit (n : N) : ascii :=
  ascii_of_N (if (n <? 10)%N then 48 + n else 87 + n)%N.
Definition byte_hex (b : N) : string :=
  String (hex_digit (b / 16)) (String (hex_digit (b mod 16)) EmptyString).

Definition bearer (token : option string) : string := "Bearer " +:+ interpolate token.

Definition get_request (u : string) (auth : string) : HttpRequest :=
  {| url := u; method := "GET"; authorization := Some auth;
     content_type := None; form := [] |}.

Definition post_form (u : string) (fields : list (string * string)) : HttpRequest :=
  {| url := u; method := "POST"; authorization := None;
     content_type := Some FORM_URLENCODED; form := fields |}.

Section WithEnv.
Variable env : Env.

(** *** connect *)

(** [generateStateToken]: 32 random bytes, two hexadecimal digits each. *)
Definition generateStateToken : M string :=
  fun s =>
    let array := (fun i => (getRandomValues env (steps s) i mod 256)%N) <$> seq 0 32 in
    (Ok (fold_right String.app EmptyString (byte_hex <$> array)), stepped s).

Definition connect_handler (req : Request) : M Response :=
  try_catch
    (let! clientId := secrets_get "GOOGLE_CLIENT_ID" in
     if negb (truthy_str clientId) then
       ret (Error "Google Drive is not configured. Please set up OAuth credentials in the organization settings." 400)
     else
       let redirectUri := redirect_uri req in
       let! state := generateStateToken in
       let! now := date_now env in
       do! storage_set (state_key state) (VState now (user_id req)) in
       let authUrl := urlToString env GOOGLE_AUTH_URL
         [("client_id", interpolate clientId); ("redirect_uri", redirectUri);
          ("response_type", "code"); ("scope", SCOPES); ("access_type", "offline");
          ("prompt", "consent"); ("state", state)] in
       ret (Json (ConnectData authUrl state)))
    (fun _ => ret (Error "Failed to initiate Google sign-in. Please try again." 500)).

(** *** oauth-callback *)

(** A callback request that presents [state] for verification: no
    provider error, an authorization code, and the state itself. *)
Definition presents (req : Request) (state : string) : Prop :=
  truthy_str (q_error req) = false ∧ truthy_str (q_code req) = true
  ∧ q_state req = Some state ∧ state ≠ "".

(** The keys of [storage] that the callback handler writes. *)
Definition callback_keys : list string :=
  ["token_expires_at"; "user_email"; "user_name"; "user_picture"; "connected"; "connected_at"].

(** The handler up to and including the check of the state token: either
    the response of a rejected request, or the authorization code of a
    request whose state was accepted. *)
Definition callback_verify (req : Request) : M (Response + string) :=
  if truthy_str (q_error req) then
    ret (inl (Redirect (SETTINGS_URL +:+ "?error=" +:+
      encodeURIComponent env (interpolate (or_else (q_error_description req) (q_error req))))))
  else if negb (truthy_str (q_code req)) then
    ret (inl (Error "Missing authorization code" 400))
  else if negb (truthy_str (q_state req)) then
    ret (inl (Error "Missing state parameter" 400))
  else
    let key := state_key (interpolate (q_state req)) in
    let! storedState := storage_get key in
    match storedState with
    | None => ret (inl (Error "Invalid or expired state token" 400))
    | Some stored =>
        if negb (truthy stored) then
          ret (inl (Error "Invalid or expired state token" 400))
        else
          let! now := date_now env in
          let stateAge := num_sub (Int now) (createdAt_of stored) in
          if num_gt stateAge (Int (10 * 60 * 1000)) then
            do! storage_delete key in
            ret (inl (Error "State token expired. Please try again." 400))
          else
            do! storage_delete key in
            ret (inr (interpolate (q_code req)))
    end.

(** The rest of the handler: the code is exchanged for tokens. *)
Definition callback_exchange (req : Request) (code : string) : M Response :=
  let! clientId := secrets_get "GOOGLE_CLIENT_ID" in
  let! clientSecret := secrets_get "GOOGLE_CLIENT_SECRET" in
  if negb (truthy_str clientId) || negb (truthy_str clientSecret) then
    ret (Error "OAuth credentials not configured" 500)
  else
    let redirectUri := redirect_uri req in
    let! tokenResponse := fetch (tokenEndpoint env)
      (post_form GOOGLE_TOKEN_URL
         [("code", code); ("client_id", interpolate clientId);
          ("client_secret", interpolate clientSecret);
          ("redirect_uri", redirectUri); ("grant_type", "authorization_code")]) in
    if negb (fst tokenResponse) then
      ret (Redirect (SETTINGS_URL +:+ "?error=" +:+
        encodeURIComponent env "Failed to exchange authorization code"))
    else
      let! tokens := json (snd tokenResponse) in
      do! secrets_set "access_token" (access_token tokens) in
      do! (if truthy_str (refresh_token tokens)
           then secrets_set "refresh_token" (interpolate (refresh_token tokens))
           else ret tt) in
      let! now := date_now env in
      do! storage_set "token_expires_at" (VNum (now + expires_in tokens * 1000)) in
      let! userInfoResponse := fetch (userinfoEndpoint env)
        (get_request GOOGLE_USERINFO_URL (bearer (Some (access_token tokens)))) in
      do! (if fst userInfoResponse then
             let! userInfo := json (snd userInfoResponse) in
             do! storage_set "user_email" (VStr (email userInfo)) in
             do! storage_set "user_name" (VStr (name userInfo)) in
             if truthy_str (picture userInfo)
             then storage_set "user_picture" (VStr (interpolate (picture userInfo)))
             else ret tt
           else ret tt) in
      do! storage_set "connected" (VBool true) in
      let! iso := date_iso env in
      do! storage_set "connected_at" (VStr iso) in
      ret (Redirect (SETTINGS_URL +:+ "?connected=true")).

Definition callback_handler (req : Request) : M Response :=
  try_catch
    (let! verified := callback_verify req in
     match verified with
     | inl rejected => ret rejected
     | inr code => callback_exchange req code
     end)
    (fun _ => ret (Redirect (SETTINGS_URL +:+ "?error=" +:+
       encodeURIComponent env "An unexpected error occurred"))).

(** *** status *)

Definition refresh_request (clientId clientSecret refreshToken : option string) : HttpRequest :=
  post_form GOOGLE_TOKEN_URL
    [("client_id", interpolate clientId); ("client_secret", interpolate clientSecret);
     ("refresh_token", interpolate refreshToken); ("grant_type", "refresh_token")].

(** [refreshAccessToken] of the status handler *)
Definition refreshAccessToken : M bool :=
  let! refreshToken := secrets_get "refresh_token" in
  if negb (truthy_str refreshToken) then ret false
  else
    let! clientId := secrets_get "GOOGLE_CLIENT_ID" in
    let! clientSecret := secrets_get "GOOGLE_CLIENT_SECRET" in
    if negb (truthy_str clientId) || negb (truthy_str clientSecret) then ret false
    else
      try_catch
        (let! response := fetch (tokenEndpoint env)
           (refresh_request clientId clientSecret refreshToken) in
         if negb (fst response) then ret false
         else
           let! data := json (snd response) in
           do! secrets_set "access_token" (access_token data) in
           let! now := date_now env in
           do! storage_set "token_expires_at" (VNum (now + expires_in data * 1000)) in
           ret true)
        (fun _ => ret false).

(** The answer of the token endpoint to the refresh request that a run
    in state [s] would send. *)
Definition refresh_attempt (s : State) : Outcome TokenBody :=
  tokenEndpoint env (steps s)
    (refresh_request (secrets s !! "GOOGLE_CLIENT_ID") (secrets s !! "GOOGLE_CLIENT_SECRET")
       (secrets s !! "refresh_token")).

(** The ways a refresh can fail: a credential is missing, the request
    throws, the response is not ok, or its body does not parse. *)
Definition refresh_fails (s : State) : Prop :=
  truthy_str (secrets s !! "refresh_token") = false
  ∨ truthy_str (secrets s !! "GOOGLE_CLIENT_ID") = false
  ∨ truthy_str (secrets s !! "GOOGLE_CLIENT_SECRET") = false
  ∨ (∃ msg, refresh_attempt s = NetworkError msg)
  ∨ (∃ body, refresh_attempt s = Reply false body)
  ∨ refresh_attempt s = Reply true None.

(** The refresh goes through and yields [data]. *)
Definition refresh_yields (s : State) (data : TokenBody) : Prop :=
  truthy_str (secrets s !! "refresh_token") = true
  ∧ truthy_str (secrets s !! "GOOGLE_CLIENT_ID") = true
  ∧ truthy_str (secrets s !! "GOOGLE_CLIENT_SECRET") = true
  ∧ refresh_attempt s = Reply true (Some data).

(** [x ? parseInt(x) : undefined] *)
Definition parse_quota (field : option string) : option Number :=
  if truthy_str field then Some (parseInt env (interpolate field)) else None.

(** [getQuotaInfo(api, accessToken)]: the pair [(used, total)]. *)
Definition getQuotaInfo (accessToken : option string) : M (option Number * option Number) :=
  let! response := fetch (aboutEndpoint env) (get_request ABOUT_URL (bearer accessToken)) in
  if negb (fst response) then ret (None, None)
  else
    let! data := json (snd response) in
    ret (parse_quota (storageQuota data ≫= usage),
         parse_quota (storageQuota data ≫= limit)).

Definition disconnected_status : ConnectionStatus :=
  {| connected := false; userEmail := None; userName := None; userPicture := None;
     connectedAt := None; lastSyncAt := None; quotaUsed := None; quotaTotal := None |}.

(** The common tail of the status handler: the quota is fetched with
    the access token read at the start, and the connected shape returned. *)
Definition status_report (userEmail userName userPicture connectedAt lastSyncAt : option Val)
    (accessToken : option string) : M Response :=
  let! quotaInfo := try_catch (getQuotaInfo accessToken) (fun _ => ret (None, None)) in
  ret (Json (StatusData
    {| connected := true; userEmail := userEmail; userName := userName;
       userPicture := userPicture; connectedAt := connectedAt;
       lastSyncAt := lastSyncAt;
       quotaUsed := fst quotaInfo; quotaTotal := snd quotaInfo |})).

Definition status_handler : M Response :=
  try_catch
    (let! isConnected := storage_get "connected" in
     if negb (truthy_val isConnected) then ret (Json (StatusData disconnected_status))
     else
       let! userEmail := storage_get "user_email" in
       let! userName := storage_get "user_name" in
       let! userPicture := storage_get "user_picture" in
       let! connectedAt := storage_get "connected_at" in
       let! lastSyncAt := storage_get "last_sync_at" in
       let! accessToken := secrets_get "access_token" in
       let! expiresAt := storage_get "token_expires_at" in
       let report :=
         status_report userEmail userName userPicture connectedAt lastSyncAt accessToken in
       match expiresAt with
       | Some expires =>
           if truthy_str accessToken && truthy expires then
             let! now := date_now env in
             if num_ge (Int now) (num_sub (to_number env expires) (Int 60000)) then
               let! refreshed := refreshAccessToken in
               if negb refreshed then
                 do! storage_set "connected" (VBool false) in
                 ret (Json (StatusData disconnected_status))
               else report
             else report
           else report
       | None => report
       end)
    (fun _ => ret (Error "Failed to check connection status" 500)).

(** *** sync *)

(** The second half of [getValidAccessToken]: the token is refreshed. *)
Definition refreshed_token : M (option string) :=
  let! refreshToken := secrets_get "refresh_token" in
  if negb (truthy_str refreshToken) then ret None
  else
    let! clientId := secrets_get "GOOGLE_CLIENT_ID" in
    let! clientSecret := secrets_get "GOOGLE_CLIENT_SECRET" in
    if negb (truthy_str clientId) || negb (truthy_str clientSecret) then ret None
    else
      try_catch
        (let! response := fetch (tokenEndpoint env)
           (refresh_request clientId clientSecret refreshToken) in
         if negb (fst response) then ret None
         else
           let! data := json (snd response) in
           do! secrets_set "access_token" (access_token data) in
           let! now := date_now env in
           do! storage_set "token_expires_at" (VNum (now + expires_in data * 1000)) in
           ret (Some (access_token data)))
        (fun _ => ret None).

(** [getValidAccessToken] of the sync handler: [None] is [null]. *)
Definition getValidAccessToken : M (option string) :=
  let! accessToken := secrets_get "access_token" in
  let! expiresAt := storage_get "token_expires_at" in
  match expiresAt with
  | Some expires =>
      if truthy_str accessToken && truthy expires then
        let! now := date_now env in
        if num_lt (Int now) (num_sub (to_number env expires) (Int (5 * 60 * 1000)))
        then ret accessToken
        else refreshed_token
      else refreshed_token
  | None => refreshed_token
  end.

(** What a stage reports: [{ count, errors, errorMessages }] *)
Record StageResult := {
  count : Z;
  stage_errors : Z;
  stage_messages : list string
}.

(** [syncUpload]: a placeholder. *)
Definition syncUpload (accessToken : string) (excludePatterns : list string) : M StageResult :=
  do! enter "syncUpload" in
  ret {| count := 0; stage_errors := 0; stage_messages := [] |}.

(** [syncDownload]: lists the remote files and filters them. *)
Definition syncDownload (accessToken : string) (excludePatterns : list string) : M StageResult :=
  do! enter "syncDownload" in
  try_catch
    (let! response := fetch (filesEndpoint env) (get_request FILES_URL (bearer (Some accessToken))) in
     if negb (fst response) then
       ret {| count := 0; stage_errors := 1;
              stage_messages := ["Failed to list files from Google Drive"] |}
     else
       let! data := json (snd response) in
       match data with
       | Files files =>
           let filesToSync :=
             List.filter
               (fun file => negb (Glob.shouldExclude (file_name file) excludePatterns)) files in
           ret {| count := 0; stage_errors := 0; stage_messages := [] |}
       | NoFiles message => throw message
       end)
    (fun message =>
       ret {| count := 0; stage_errors := 1; stage_messages := [message] |}).

(** [config.syncDirection || 'bidirectional'] and [config.excludePatterns || []]
    for [config = (await api.storage.get('config')) || {}] *)
Definition config_of (stored : option Val) : SyncConfig :=
  match stored with
  | Some (VConfig c) => c
  | _ => {| syncDirection := None; excludePatterns := None |}
  end.
Definition direction_of (config : SyncConfig) : string :=
  interpolate (or_else (syncDirection config) (Some "bidirectional")).
Definition patterns_of (config : SyncConfig) : list string :=
  match excludePatterns config with Some ps => ps | None => [] end.

Definition initial_result : SyncResult :=
  {| success := true; synced := 0; uploaded := 0; downloaded := 0;
     errors := 0; errorMessages := [] |}.

(** [result.x = r.count; result.errors += r.errors; result.errorMessages.push(...r.errorMessages)] *)
Definition add_upload (result : SyncResult) (r : StageResult) : SyncResult :=
  {| success := success result; synced := synced result;
     uploaded := count r; downloaded := downloaded result;
     errors := errors result + stage_errors r;
     errorMessages := errorMessages result ++ stage_messages r |}.
Definition add_download (result : SyncResult) (r : StageResult) : SyncResult :=
  {| success := success result; synced := synced result;
     uploaded := uploaded result; downloaded := count r;
     errors := errors result + stage_errors r;
     errorMessages := errorMessages result ++ stage_messages r |}.
(** [result.synced = result.uploaded + result.downloaded; result.success = result.errors === 0] *)
Definition totalled (result : SyncResult) : SyncResult :=
  {| success := errors result =? 0; synced := uploaded result + downloaded result;
     uploaded := uploaded result; downloaded := downloaded result;
     errors := errors result; errorMessages := errorMessages result |}.

(** The two conditions of the dispatch. *)
Definition wants_upload (direction : string) : bool :=
  String.eqb direction "bidirectional" || String.eqb direction "upload-only".
Definition wants_download (direction : string) : bool :=
  String.eqb direction "bidirectional" || String.eqb direction "download-only".

(** The sync handler from the dispatch on the direction onwards. *)
Definition sync_dispatch (accessToken : string) : M Response :=
  let! stored := storage_get "config" in
  let config := config_of stored in
  let syncDirection := direction_of config in
  let excludePatterns := patterns_of config in
  let result := initial_result in
  let! result :=
    (if wants_upload syncDirection then
       let! uploadResult := syncUpload accessToken excludePatterns in
       ret (add_upload result uploadResult)
     else ret result) in
  let! result :=
    (if wants_download syncDirection then
       let! downloadResult := syncDownload accessToken excludePatterns in
       ret (add_download result downloadResult)
     else ret result) in
  let result := totalled result in
  let! iso := date_iso env in
  do! storage_set "last_sync_at" (VStr iso) in
  do! storage_set "last_sync_result" (VResult result) in
  ret (Json (SyncData result)).

Definition sync_handler : M Response :=
  try_catch
    (let! isConnected := storage_get "connected" in
     if negb (truthy_val isConnected) then
       ret (Error "Not connected to Google Drive" 401)
     else
       let! accessToken := getValidAccessToken in
       if negb (truthy_str accessToken) then
         ret (Error "Failed to get access token. Please reconnect." 401)
       else sync_dispatch (interpolate accessToken))
    (fun _ => ret (Error "Sync failed unexpectedly. Please try again." 500)).

(** A run of the sync handler that gets as far as the dispatch on the
    direction: the connection flag is set and [getValidAccessToken]
    yields the token [token], leaving the state [s]. *)
Definition reaches_dispatch (st : gmap string Val) (sec : gmap string string)
    (token : string) (s : State) : Prop :=
  truthy_val (st !! "connected") = true
  ∧ getValidAccessToken (start st sec) = (Ok (Some token), s)
  ∧ token ≠ "".

(** A request to the token endpoint, as an event of the log. *)
Definition token_fetch (e : Event) : Prop :=
  ∃ req, e = Fetched req ∧ url req = GOOGLE_TOKEN_URL.

(** The events that the dispatch adds, by direction (latest first). *)
Definition upload_events (direction : string) : list Event :=
  if wants_upload direction then [Entered "syncUpload"] else [].
Definition download_events (direction token : string) : list Event :=
  if wants_download direction
  then [Fetched (get_request FILES_URL (bearer (Some token))); Entered "syncDownload"]
  else [].

(** *** disconnect *)

Definition keysToDelete : list string :=
  ["connected"; "connected_at"; "token_expires_at"; "user_email"; "user_name";
   "user_picture"; "last_sync_at"; "last_sync_result"; "sync_cursor"].

Definition disconnect_handler : M Response :=
  try_catch
    (let! accessToken := secrets_get "access_token" in
     do! (if truthy_str accessToken then
            try_catch
              (let! revoked := fetch (revokeEndpoint env)
                 (post_form (GOOGLE_REVOKE_URL +:+ encodeURIComponent env (interpolate accessToken)) []) in
               ret tt)
              (fun _ => ret tt)
          else ret tt) in
     do! secrets_delete "access_token" in
     do! secrets_delete "refresh_token" in
     do! for_each keysToDelete storage_delete in
     let! allKeys := storage_list "oauth_state_" in
     do! for_each allKeys storage_delete in
     ret (Json (DisconnectData true "Successfully disconnected from Google Drive")))
    (fun _ =>
       do! try_catch (storage_set "connected" (VBool false)) (fun _ => ret tt) in
       ret (Error "Failed to fully disconnect. Please try again." 500)).

End WithEnv.

(** *** Sequences of callbacks *)

(** The callback passes the check of the state token. *)
Definition accepts (env : Env) (req : Request)
    (st : gmap string Val) (sec : gmap string string) : bool :=
  match (callback_verify env req (start st sec)).1 with
  | Ok (inr _) => true
  | _ => false
  end.

(** The number of callbacks, among [runs] handled one after the other
    from the given stores, that present [state] and are accepted. *)
Fixpoint accepted_uses (state : string) (runs : list (Env * Request))
    (st : gmap string Val) (sec : gmap string string) : nat :=
  match runs with
  | [] => 0%nat
  | (env, req) :: rest =>
      let after := (callback_handler env req (start st sec)).2 in
      ((if bool_decide (q_state req = Some state) && accepts env req st sec
        then 1 else 0)
       + accepted_uses state rest (storage after) (secrets after))%nat
  end.

(** *** Sample environments and stores *)

(** No network: every request throws. *)
Definition offline : Env :=
  {| clock := λ n, 1700000000000 + Z.of_nat n;
     toISOString := λ _, "2023-11-14T22:13:20.000Z";
     getRandomValues := λ _ i, N.of_nat (7 * i + 3);
     encodeURIComponent := λ s, s;
     urlToString := λ base _, base;
     stringToNumber := λ _, NaN;
     parseInt := λ _, NaN;
     tokenEndpoint := λ _ _, NetworkError "fetch failed";
     userinfoEndpoint := λ _ _, NetworkError "fetch failed";
     filesEndpoint := λ _ _, NetworkError "fetch failed";
     aboutEndpoint := λ _ _, NetworkError "fetch failed";
     revokeEndpoint := λ _ _, NetworkError "fetch failed" |}.

(** The token endpoint answers 401; the other endpoints answer. *)
Definition unauthorized : Env :=
  {| clock := clock offline;
     toISOString := toISOString offline;
     getRandomValues := getRandomValues offline;
     encodeURIComponent := encodeURIComponent offline;
     urlToString := urlToString offline;
     stringToNumber := stringToNumber offline;
     parseInt := parseInt offline;
     tokenEndpoint := λ _ _, Reply false None;
     userinfoEndpoint := λ _ _, Reply false None;
     filesEndpoint := λ _ _, Reply true (Some (Files []));
     aboutEndpoint := λ _ _, Reply true (Some {| storageQuota := None |});
     revokeEndpoint := λ _ _, Reply false None |}.

(** Every endpoint answers; the token endpoint hands out [fresh-token]. *)
Definition online : Env :=
  {| clock := clock offline;
     toISOString := toISOString offline;
     getRandomValues := getRandomValues offline;
     encodeURIComponent := encodeURIComponent offline;
     urlToString := urlToString offline;
     stringToNumber := stringToNumber offline;
     parseInt := parseInt offline;
     tokenEndpoint := λ _ _,
       Reply true (Some {| access_token := "fresh-token"; refresh_token := None;
                           expires_in := 3600 |});
     userinfoEndpoint := λ _ _,
       Reply true (Some {| email := "ada@example.org"; name := "Ada"; picture := None |});
     filesEndpoint := λ _ _, Reply true (Some (Files []));
     aboutEndpoint := λ _ _, Reply true (Some {| storageQuota := None |});
     revokeEndpoint := λ _ _, Reply true (Some tt) |}.

(** A connected account whose token expired long ago. *)
Definition stale_storage : gmap string Val :=
  <["connected" := VBool true]> (<["token_expires_at" := VNum 1600000000000]> ∅).
(** A connected account whose token is good for an hour. *)
Definition live_storage : gmap string Val :=
  <["connected" := VBool true]> (<["token_expires_at" := VNum 1700003600000]> ∅).
Definition full_secrets : gmap string string :=
  <["access_token" := "old-token"]> (<["refresh_token" := "refresh"]>
    (<["GOOGLE_CLIENT_ID" := "client"]> (<["GOOGLE_CLIENT_SECRET" := "secret"]> ∅))).

(** A state record for the state [abc], created at the given time. *)
Definition pending_storage (created : Z) : gmap string Val :=
  <[state_key "abc" := VState created None]> ∅.

(** A callback request with a code and the state [abc]. *)
Definition sample_callback : Request :=
  {| q_code := Some "code"; q_state := Some "abc"; q_error := None;
     q_error_description := None; h_origin := Some "https://plm.example.org";
     h_host := None; user_id := None |}.

(** A handler run over given stores: the outcome and the final state of
    the run, whose [log] holds the events of the run, latest first. *)
Definition run {A} (h : M A) (st : gmap string Val) (sec : gmap string string)
  : Result A * State := h (start st sec).

End Handlers.

(** ** Further vocabulary for stating properties *)

Module Vocabulary.
Import Glob Runtime Handlers.

(** A glob without wildcards. *)
Fixpoint literal (glob : string) : bool :=
  match glob with
  | EmptyString => true
  | String c g => negb (Ascii.eqb c "*") && negb (Ascii.eqb c "?") && literal g
  end.

(** A glob without [*]. *)
Fixpoint starless (glob : string) : bool :=
  match glob with
  | EmptyString => true
  | String c g => negb (Ascii.eqb c "*") && starless g
  end.

(** A string with the letter case taken away. *)
Fixpoint caseless (s : string) : string :=
  match s with
  | EmptyString => EmptyString
  | String c s' => String (canonicalize c) (caseless s')
  end.

(** The digits [0]-[9] and [a]-[f]. *)
Definition is_hex (c : ascii) : bool :=
  let n := N_of_ascii c in
  (((48 <=? n) && (n <=? 57)) || ((97 <=? n) && (n <=? 102)))%N.

Fixpoint all_hex (s : string) : bool :=
  match s with
  | EmptyString => true
  | String c s' => is_hex c && all_hex s'
  end.

(** The request that exchanges the code [code] for tokens. *)
Definition exchange_request (req : Request) (code clientId clientSecret : string) : HttpRequest :=
  post_form GOOGLE_TOKEN_URL
    [("code", code); ("client_id", clientId); ("client_secret", clientSecret);
     ("redirect_uri", redirect_uri req); ("grant_type", "authorization_code")].

(** The request for the profile of the owner of [token]. *)
Definition userinfo_request (token : string) : HttpRequest :=
  get_request GOOGLE_USERINFO_URL (bearer (Some token)).

(** The redirects of the callback handler. *)
Definition success_redirect : Response := Redirect (SETTINGS_URL +:+ "?connected=true").
Definition error_redirect (env : Env) (message : string) : Response :=
  Redirect (SETTINGS_URL +:+ "?error=" +:+ encodeURIComponent env message).

(** The exchange of the code, written out by the answers of the two
    endpoints, for a run in state [s] with both client credentials. *)
Definition exchange_result (env : Env) (req : Request)
    (code clientId clientSecret : string) (s : State) : Result Response * State :=
  let s2 := stepped (logged (Fetched (exchange_request req code clientId clientSecret)) s) in
  match tokenEndpoint env (steps s) (exchange_request req code clientId clientSecret) with
  | NetworkError msg => (Thrown msg, s2)
  | Reply false _ => (Ok (error_redirect env "Failed to exchange authorization code"), s2)
  | Reply true None => (Thrown "Unexpected end of JSON input", s2)
  | Reply true (Some tokens) =>
      let s3 := with_secrets (insert "access_token" (access_token tokens)) s2 in
      let s4 := if truthy_str (refresh_token tokens)
                then with_secrets (insert "refresh_token" (interpolate (refresh_token tokens))) s3
                else s3 in
      let s5 := with_storage (insert "token_expires_at"
                  (VNum (clock env (S (steps s)) + expires_in tokens * 1000))) (stepped s4) in
      let s6 := stepped (logged (Fetched (userinfo_request (access_token tokens))) s5) in
      let finish s' :=
        (Ok success_redirect,
         with_storage (insert "connected_at"
                         (VStr (toISOString env (clock env (S (S (S (steps s))))))))
           (stepped (with_storage (insert "connected" (VBool true)) s'))) in
      match userinfoEndpoint env (S (S (steps s))) (userinfo_request (access_token tokens)) with
      | NetworkError msg => (Thrown msg, s6)
      | Reply false _ => finish s6
      | Reply true None => (Thrown "Unexpected end of JSON input", s6)
      | Reply true (Some info) =>
          let s7 := with_storage (insert "user_name" (VStr (name info)))
                      (with_storage (insert "user_email" (VStr (email info))) s6) in
          finish (if truthy_str (picture info)
                  then with_storage (insert "user_picture"
                         (VStr (interpolate (picture info)))) s7
                  else s7)
      end
  end.

(** The callback's preconditions for reaching the token exchange: the
    state is presented and fresh, and both client credentials are set. *)
Definition ready_to_exchange (env : Env) (req : Request)
    (st : gmap string Val) (sec : gmap string string)
    (state code clientId clientSecret : string) : Prop :=
  presents req state ∧ q_code req = Some code
  ∧ (∃ created uid, st !! state_key state = Some (VState created uid)
                    ∧ clock env 0 - created ≤ 10 * 60 * 1000)
  ∧ sec !! "GOOGLE_CLIENT_ID" = Some clientId ∧ clientId ≠ ""
  ∧ sec !! "GOOGLE_CLIENT_SECRET" = Some clientSecret ∧ clientSecret ≠ "".

(** The token endpoint answers, the profile endpoint is unreachable. *)
Definition profile_down : Env :=
  {| clock := clock online;
     toISOString := toISOString online;
     getRandomValues := getRandomValues online;
     encodeURIComponent := encodeURIComponent online;
     urlToString := urlToString online;
     stringToNumber := stringToNumber online;
     parseInt := parseInt online;
     tokenEndpoint := tokenEndpoint online;
     userinfoEndpoint := λ _ _, NetworkError "fetch failed";
     filesEndpoint := filesEndpoint online;
     aboutEndpoint := aboutEndpoint online;
     revokeEndpoint := revokeEndpoint online |}.

(** A pending state [abc] beside the client credentials. *)
Definition client_secrets : gmap string string :=
  <["GOOGLE_CLIENT_ID" := "client"]> (<["GOOGLE_CLIENT_SECRET" := "secret"]> ∅).

(** The request for the storage quota, sent with [token]. *)
Definition quota_request (token : option string) : HttpRequest :=
  get_request ABOUT_URL (bearer token).

(** The connected shape of the status response over the cached entries
    of [st], with the given quota figures. *)
Definition connected_status (st : gmap string Val) (used total : option Number)
  : ConnectionStatus :=
  {| connected := true;
     userEmail := st !! "user_email"; userName := st !! "user_name";
     userPicture := st !! "user_picture"; connectedAt := st !! "connected_at";
     lastSyncAt := st !! "last_sync_at";
     quotaUsed := used; quotaTotal := total |}.

(** The request that revokes [token]. *)
Definition revoke_request (env : Env) (token : string) : HttpRequest :=
  post_form (GOOGLE_REVOKE_URL +:+ encodeURIComponent env token) [].

(** The request that lists the remote files, sent with [token]. *)
Definition files_request (token : string) : HttpRequest :=
  get_request FILES_URL (bearer (Some token)).

(** What the download stage reports, by the answer to the listing. *)
Definition download_report (answer : Outcome Listing) : StageResult :=
  match answer with
  | NetworkError msg => {| count := 0; stage_errors := 1; stage_messages := [msg] |}
  | Reply false _ =>
      {| count := 0; stage_errors := 1;
         stage_messages := ["Failed to list files from Google Drive"] |}
  | Reply true None =>
      {| count := 0; stage_errors := 1; stage_messages := ["Unexpected end of JSON input"] |}
  | Reply true (Some (NoFiles msg)) =>
      {| count := 0; stage_errors := 1; stage_messages := [msg] |}
  | Reply true (Some (Files _)) => {| count := 0; stage_errors := 0; stage_messages := [] |}
  end.

(** Relations on the secret store, as [on_storage] on storage. *)
Definition on_secrets (Q : gmap string string → gmap string string → Prop)
  : State → State → Prop :=
  λ s s', Q (secrets s) (secrets s').

(** The direction that the stored configuration asks for: its
    [syncDirection] when it has a non-empty one, [bidirectional] when
    none is configured. *)
Inductive configured_direction (st : gmap string Val) : string → Prop :=
  | direction_set c d :
      st !! "config" = Some (VConfig c) → syncDirection c = Some d → d ≠ "" →
      configured_direction st d
  | direction_unset :
      (∀ c, st !! "config" = Some (VConfig c) → truthy_str (syncDirection c) = false) →
      configured_direction st "bidirectional".

(** A connected account with a valid token, configured to upload only. *)
Definition upload_only_storage : gmap string Val :=
  <["config" := VConfig {| syncDirection := Some "upload-only"; excludePatterns := None |}]>
    live_storage.

(** [Number.MAX_SAFE_INTEGER]: up to it, in absolute value, a
    JavaScript number holds every integer exactly. *)
Definition MAX_SAFE_INTEGER : Z := 9007199254740991.
Definition safe_integer (n : Z) : Prop := - MAX_SAFE_INTEGER ≤ n ≤ MAX_SAFE_INTEGER.

(** [now + expires_in * 1000] is computed without rounding: the clock
    reading, the product and the sum are safe integers. *)
Definition exact_expiry (now expires_in : Z) : Prop :=
  safe_integer now ∧ safe_integer (expires_in * 1000)
  ∧ safe_integer (now + expires_in * 1000).

End Vocabulary.

(** ** The settings form (client: [GoogleDriveSettings]) *)

Module Settings.

Record GoogleDriveConfig := {
  syncInterval : Z;
  syncOnFileChange : bool;
  excludePatterns : list string;
  syncDirection : string
}.

(** The state of the component that the pattern actions read and
    write: [config] and the text of the pattern input, [newPattern]. *)
Record Form := {
  config : GoogleDriveConfig;
  newPattern : string
}.

(** [useState] of [config] and of [newPattern] *)
Definition initial : Form :=
  {| config := {| syncInterval := 300; syncOnFileChange := true;
                  excludePatterns := []; syncDirection := "bidirectional" |};
     newPattern := "" |}.

(** WhiteSpace and LineTerminator among the Latin-1 code units: tab,
    line feed, vertical tab, form feed, carriage return, space and
    no-break space. *)
Definition is_white_space (c : ascii) : bool :=
  let n := N_of_ascii c in
  ((n =? 9) || (n =? 10) || (n =? 11) || (n =? 12) || (n =? 13) || (n =? 32) || (n =? 160))%N.

Fixpoint trimStart (s : string) : string :=
  match s with
  | EmptyString => EmptyString
  | String c rest => if is_white_space c then trimStart rest else s
  end.

Fixpoint trimEnd (s : string) : string :=
  match s with
  | EmptyString => EmptyString
  | String c rest =>
      match trimEnd rest with
      | EmptyString => if is_white_space c then EmptyString else String c EmptyString
      | kept => String c kept
      end
  end.

(** [s.trim()] *)
Definition trim (s : string) : string := trimEnd (trimStart s).

(** [updateConfig('excludePatterns', value)]: [{ ...prev, excludePatterns: value }] *)
Definition updateExcludePatterns (value : list string) (prev : GoogleDriveConfig)
  : GoogleDriveConfig :=
  {| syncInterval := syncInterval prev; syncOnFileChange := syncOnFileChange prev;
     excludePatterns := value; syncDirection := syncDirection prev |}.

Definition addExcludePattern (f : Form) : Form :=
  if bool_decide (trim (newPattern f) ≠ "")
     && negb (bool_decide (trim (newPattern f) ∈ excludePatterns (config f)))
  then
    {| config := updateExcludePatterns
                   (excludePatterns (config f) ++ [trim (newPattern f)]) (config f);
       newPattern := "" |}
  else f.

Definition removeExcludePattern (pattern : string) (f : Form) : Form :=
  {| config := updateExcludePatterns
                 (filter (λ p, p ≠ pattern) (excludePatterns (config f))) (config f);
     newPattern := newPattern f |}.

(** [setNewPattern(e.target.value)] *)
Definition setNewPattern (value : string) (f : Form) : Form :=
  {| config := config f; newPattern := value |}.

(** What the user does with the list of patterns. *)
Inductive Action :=
  | Input (value : string)
  | Add
  | Remove (pattern : string).

Definition act (f : Form) (a : Action) : Form :=
  match a with
  | Input value => setNewPattern value f
  | Add => addExcludePattern f
  | Remove pattern => removeExcludePattern pattern f
  end.

(** A list of patterns as the form builds it: no pattern twice, none
    empty, none with white space at either end. *)
Definition tidy (patterns : list string) : Prop :=
  NoDup patterns ∧ ∀ p, p ∈ patterns → p ≠ "" ∧ trim p = p.

End Settings.

(** ** The sync command (client: [syncWithDrive]) *)

Module Client.
Import Runtime.

(** The calls on [context.log], [progress] and [api.ui], in the order
    in which they are made. *)
Inductive UiEvent :=
  | LogDebug (message : string)
  | LogError (message : string)
  | Report (message : string) (increment : option Z)
  | ShowToast (message kind : string)
  | SetStatus (status : string).

Record ApiResponse (T : Type) := { ok : bool; data : T }.
Arguments ok {T} _.
Arguments data {T} _.

(** [api.callOrgApi]: the promise is rejected or resolves to a response. *)
Inductive ApiCall (T : Type) :=
  | Rejected
  | Resolved (response : ApiResponse T).
Arguments Rejected {T}.
Arguments Resolved {T} response.

Section WithHost.

(** [`${n}`] for a count *)
Variable numberToString : Z → string.
(** [token.isCancellationRequested], at its first and second reading *)
Variables cancelledBefore cancelledAfter : bool.
(** the outcome of [POST /extensions/blueplm.google-drive/sync] *)
Variable answer : ApiCall SyncResult.

(** [`Synced: ${parts.join(', ') || `${synced} files`}`] *)
Definition synced_message (d : SyncResult) : string :=
  let parts :=
    (if 0 <? uploaded d then [numberToString (uploaded d) +:+ " uploaded"] else [])
    ++ (if 0 <? downloaded d then [numberToString (downloaded d) +:+ " downloaded"] else []) in
  let joined := String.concat ", " parts in
  "Synced: " +:+ (if String.eqb joined "" then numberToString (synced d) +:+ " files"
                  else joined).

(** The task handed to [api.ui.showProgress], which runs it: the calls
    it makes, and whether it ends by throwing. *)
Definition task : list UiEvent * bool :=
  let checking := [Report "Checking connection..." None] in
  if cancelledBefore then (checking, false)
  else
    let syncing := checking ++ [Report "Syncing files..." (Some 20)] in
    match answer with
    | Rejected => (syncing, true)
    | Resolved response =>
        if cancelledAfter then (syncing, false)
        else
          let completing := syncing ++ [Report "Completing..." (Some 60)] in
          if ok response && success (data response) then
            (completing
             ++ [if synced (data response) =? 0 then ShowToast "Already up to date" "info"
                 else ShowToast (synced_message (data response)) "success";
                 SetStatus "online"], false)
          else
            (completing
             ++ [ShowToast "Sync failed. Check your connection." "error";
                 SetStatus "partial"], false)
    end.

(** One call run from start to end with no other call in between: the
    calls it makes and the value of [isSyncing] it leaves. *)
Definition syncWithDrive (isSyncing : bool) : list UiEvent * bool :=
  if isSyncing then ([LogDebug "Sync already in progress, skipping..."], isSyncing)
  else
    let (events, threw) := task in
    (if threw
     then events ++ [LogError "Sync failed";
                     ShowToast "Sync failed. Please try again." "error";
                     SetStatus "offline"]
     else events,
     false).

End WithHost.

(** *** Calls that overlap *)

(** Where a call of [syncWithDrive] stands: not yet run, suspended at
    an [await] inside the [try], or returned. *)
Inductive Stage := NotStarted | Suspended | Returned.

(** The module variable [isSyncing] and the calls made so far. *)
Record Calls := { isSyncing : bool; stages : list Stage }.

(** A call runs without interruption from its start, or from an
    [await], up to its next [await] or its return.  The guard and the
    assignment [isSyncing = true] are in one such stretch; the [finally]
    block is in the last one; a call that is skipped returns before the
    [try], so its [finally] block does not run. *)
Inductive step : Calls → Calls → Prop :=
  | step_skip i c :
      stages c !! i = Some NotStarted → isSyncing c = true →
      step c {| isSyncing := isSyncing c; stages := <[i := Returned]> (stages c) |}
  | step_enter i c :
      stages c !! i = Some NotStarted → isSyncing c = false →
      step c {| isSyncing := true; stages := <[i := Suspended]> (stages c) |}
  | step_resume i c :
      stages c !! i = Some Suspended →
      step c {| isSyncing := isSyncing c; stages := <[i := Suspended]> (stages c) |}
  | step_return i c :
      stages c !! i = Some Suspended →
      step c {| isSyncing := false; stages := <[i := Returned]> (stages c) |}.

(** [n] calls are made, none has run yet. *)
Definition idle (n : nat) : Calls := {| isSyncing := false; stages := replicate n NotStarted |}.

(** The states that the calls can reach from [c]. *)
Inductive reaches (c : Calls) : Calls → Prop :=
  | reaches_here : reaches c c
  | reaches_step c1 c2 : reaches c c1 → step c1 c2 → reaches c c2.

End Client.

(** ** The sync handler when calls on the stores may reject *)

Module Faulty.
Import Runtime Handlers.
Local Open Scope js_scope.

(** A call on one of the two stores, by operation and key.  The sync
    handler makes none of them twice in a run. *)
Inductive StoreCall :=
  | StorageGet (key : string)
  | StorageSet (key : string)
  | SecretsGet (name : string)
  | SecretsSet (name : string).

Section WithFaults.

Variable env : Env.
(** The calls that reject, each with the message of its error; a call
    that rejects leaves the store as it was. *)
Variable rejects : StoreCall → option string.

Definition attempt {A} (call : StoreCall) (m : M A) : M A :=
  match rejects call with
  | Some message => throw message
  | None => m
  end.

Definition storage_get (key : string) : M (option Val) :=
  attempt (StorageGet key) (Runtime.storage_get key).
Definition storage_set (key : string) (v : Val) : M unit :=
  attempt (StorageSet key) (Runtime.storage_set key v).
Definition secrets_get (name : string) : M (option string) :=
  attempt (SecretsGet name) (Runtime.secrets_get name).
Definition secrets_set (name value : string) : M unit :=
  attempt (SecretsSet name) (Runtime.secrets_set name value).

(** The refresh inside [getValidAccessToken] *)
Definition refreshed_token : M (option string) :=
  let! refreshToken := secrets_get "refresh_token" in
  if negb (truthy_str refreshToken) then ret None
  else
    let! clientId := secrets_get "GOOGLE_CLIENT_ID" in
    let! clientSecret := secrets_get "GOOGLE_CLIENT_SECRET" in
    if negb (truthy_str clientId) || negb (truthy_str clientSecret) then ret None
    else
      try_catch
        (let! response := fetch (tokenEndpoint env)
           (refresh_request clientId clientSecret refreshToken) in
         if negb (fst response) then ret None
         else
           let! data := json (snd response) in
           do! secrets_set "access_token" (access_token data) in
           let! now := date_now env in
           do! storage_set "token_expires_at" (VNum (now + expires_in data * 1000)) in
           ret (Some (access_token data)))
        (fun _ => ret None).

Definition getValidAccessToken : M (option string) :=
  let! accessToken := secrets_get "access_token" in
  let! expiresAt := storage_get "token_expires_at" in
  match expiresAt with
  | Some expires =>
      if truthy_str accessToken && truthy expires then
        let! now := date_now env in
        if num_lt (Int now) (num_sub (to_number env expires) (Int (5 * 60 * 1000)))
        then ret accessToken
        else refreshed_token
      else refreshed_token
  | None => refreshed_token
  end.

Definition sync_dispatch (accessToken : string) : M Response :=
  let! stored := storage_get "config" in
  let config := config_of stored in
  let syncDirection := direction_of config in
  let excludePatterns := patterns_of config in
  let result := initial_result in
  let! result :=
    (if wants_upload syncDirection then
       let! uploadResult := syncUpload accessToken excludePatterns in
       ret (add_upload result uploadResult)
     else ret result) in
  let! result :=
    (if wants_download syncDirection then
       let! downloadResult := syncDownload env accessToken excludePatterns in
       ret (add_download result downloadResult)
     else ret result) in
  let result := totalled result in
  let! iso := date_iso env in
  do! storage_set "last_sync_at" (VStr iso) in
  do! storage_set "last_sync_result" (VResult result) in
  ret (Json (SyncData result)).

Definition sync_handler : M Response :=
  try_catch
    (let! isConnected := storage_get "connected" in
     if negb (truthy_val isConnected) then
       ret (Error "Not connected to Google Drive" 401)
     else
       let! accessToken := getValidAccessToken in
       if negb (truthy_str accessToken) then
         ret (Error "Failed to get access token. Please reconnect." 401)
       else sync_dispatch (interpolate accessToken))
    (fun _ => ret (Error "Sync failed unexpectedly. Please try again." 500)).

End WithFaults.

(** No call rejects. *)
Definition reliable : StoreCall → option string := λ _, None.


End Faulty.

(** ** Callbacks that overlap *)

Module Overlap.
Import Runtime Handlers.

(** Where a callback stands in its check of the state token: not yet
    run; suspended between the lookup of the record
    ([await api.storage.get]) and its removal ([await api.storage.delete]),
    holding what the lookup returned; or past the check, rejected with a
    response or accepted with its code. *)
Inductive Stage :=
  | Arrived
  | Looked (storedState : option Val)
  | Checked (outcome : Response + string).

(** The handler from its start to the lookup of the state record. *)
Definition look (env : Env) (req : Request) (st : gmap string Val) : Stage :=
  if truthy_str (q_error req) then
    Checked (inl (Redirect (SETTINGS_URL +:+ "?error=" +:+
      encodeURIComponent env (interpolate (or_else (q_error_description req) (q_error req))))))
  else if negb (truthy_str (q_code req)) then
    Checked (inl (Error "Missing authorization code" 400))
  else if negb (truthy_str (q_state req)) then
    Checked (inl (Error "Missing state parameter" 400))
  else Looked (st !! state_key (interpolate (q_state req))).

(** The handler from the answer of the lookup to the removal of the
    record, [now] being what [Date.now()] returns. *)
Definition settle (now : Z) (req : Request) (storedState : option Val)
    (st : gmap string Val) : (Response + string) * gmap string Val :=
  let key := state_key (interpolate (q_state req)) in
  match storedState with
  | None => (inl (Error "Invalid or expired state token" 400), st)
  | Some stored =>
      if negb (truthy stored) then (inl (Error "Invalid or expired state token" 400), st)
      else
        let stateAge := num_sub (Int now) (createdAt_of stored) in
        if num_gt stateAge (Int (10 * 60 * 1000)) then
          (inl (Error "State token expired. Please try again." 400), delete key st)
        else (inr (interpolate (q_code req)), delete key st)
  end.

(** The storage and the callbacks under way. *)
Record Calls := {
  store : gmap string Val;
  callbacks : list (Request * Stage)
}.

(** One callback runs from its start to the lookup, or from the lookup
    to the removal; other callbacks may run in between. *)
Inductive step (env : Env) : Calls → Calls → Prop :=
  | step_look i req c :
      callbacks c !! i = Some (req, Arrived) →
      step env c {| store := store c;
                    callbacks := <[i := (req, look env req (store c))]> (callbacks c) |}
  | step_settle i req storedState now c :
      callbacks c !! i = Some (req, Looked storedState) →
      step env c {| store := (settle now req storedState (store c)).2;
                    callbacks := <[i := (req, Checked (settle now req storedState (store c)).1)]>
                                   (callbacks c) |}.

Inductive reaches (env : Env) (c : Calls) : Calls → Prop :=
  | reaches_here : reaches env c c
  | reaches_step c1 c2 : reaches env c c1 → step env c1 c2 → reaches env c c2.

End Overlap.

(** ** Facts about the exclusion patterns *)

Module GlobFacts.
Import Glob.

Ltac each_char c := destruct c as [[] [] [] [] [] [] [] []].

Lemma string_app_cons c s t : String c s +:+ t = String c (s +:+ t).
Proof. reflexivity. Qed.

Lemma string_app_assoc s t u : (s +:+ t) +:+ u = s +:+ (t +:+ u).
Proof. induction s as [|c s IH]; [reflexivity|]. rewrite !string_app_cons. now rewrite IH. Qed.

Lemma replace_each_app f s t :
  replace_each f (s +:+ t) = replace_each f s +:+ replace_each f t.
Proof.
  induction s as [|c s IH]; [reflexivity|].
  rewrite string_app_cons. cbn [replace_each]. now rewrite IH, string_app_assoc.
Qed.

Lemma steps_compose c :
  replace_each qmark_step (replace_each star_step (escape_step c)) = translated c.
Proof. each_char c; reflexivity. Qed.

Lemma escaped_translated glob : escaped glob = replace_each translated glob.
Proof.
  unfold escaped. induction glob as [|c g IH]; [reflexivity|].
  cbn [replace_each]. rewrite !replace_each_app, steps_compose. now rewrite IH.
Qed.

Lemma lex_translated c rest :
  lex (translated c +:+ rest) = app (tokens_of c) <$> lex rest.
Proof.
  each_char c;
    cbv [translated tokens_of is_escaped Ascii.eqb Bool.eqb char_str String.append];
    cbn [lex Ascii.eqb Bool.eqb is_syntax]; destruct (lex rest); reflexivity.
Qed.

Lemma lex_body glob : lex (replace_each translated glob +:+ "$") = Some (body_tokens glob).
Proof.
  induction glob as [|c g IH]; [reflexivity|].
  cbn [replace_each body_tokens]. now rewrite string_app_assoc, lex_translated, IH.
Qed.

Lemma lex_source glob :
  lex (source (globToRegex glob)) = Some (TStart :: body_tokens glob).
Proof.
  cbn [globToRegex source]. rewrite escaped_translated.
  change ("^" +:+ ?s) with (String "^" s).
  cbn [lex Ascii.eqb Bool.eqb]. now rewrite lex_body.
Qed.

(** No body starts with a quantifier. *)
Lemma body_tokens_head glob :
  ∃ t ts, body_tokens glob = t :: ts ∧ t ≠ TStar.
Proof.
  destruct glob as [|c g]; cbn [body_tokens]; [by eexists _, _|].
  unfold tokens_of. repeat case_match; by eexists _, _.
Qed.

Lemma parse_terms_one a t ts :
  t ≠ TStar → parse_terms (TAtom a :: t :: ts) = cons (One a) <$> parse_terms (t :: ts).
Proof. intros Ht. destruct t; [reflexivity | reflexivity | congruence | reflexivity]. Qed.

Lemma parse_body glob : parse_terms (body_tokens glob) = Some (terms_of glob).
Proof.
  induction glob as [|c g IH]; [reflexivity|].
  cbn [body_tokens terms_of]. unfold tokens_of, term_of.
  destruct (body_tokens_head g) as (t & ts & Hb & Ht).
  destruct (Ascii.eqb c "*"); [|destruct (Ascii.eqb c "?")]; cbn [app].
  - cbn [parse_terms]. now rewrite IH.
  - rewrite Hb, parse_terms_one, <- Hb, IH by exact Ht. reflexivity.
  - rewrite Hb, parse_terms_one, <- Hb, IH by exact Ht. reflexivity.
Qed.

Lemma parse_globToRegex glob : parse (source (globToRegex glob)) = Some (terms_of glob).
Proof. unfold parse. now rewrite lex_source, parse_body. Qed.

Lemma test_terms glob f :
  test (globToRegex glob) f = match_terms true (terms_of glob) f.
Proof. unfold test. now rewrite parse_globToRegex. Qed.

(** The unfolding of the matcher at a starred atom. *)
Lemma match_many ci a ts s :
  match_terms ci (Many a :: ts) s =
  match s with
  | String x s' => (atom_matches ci a x && match_terms ci (Many a :: ts) s') || match_terms ci ts s
  | EmptyString => match_terms ci ts s
  end.
Proof. destruct s; reflexivity. Qed.

Lemma spec_sound glob f :
  glob_spec no_line_terminator glob f → match_terms true (terms_of glob) f = true.
Proof.
  induction 1 as [|g f _ IH|g x f Hx _ IH|g x f Hx _ IH|c g x f Hs Hq Hc _ IH].
  - reflexivity.
  - cbn [terms_of]. change (term_of "*") with (Many Dot).
    rewrite match_many. destruct f; [done|]. rewrite IH. apply orb_true_r.
  - cbn [terms_of] in *. change (term_of "*") with (Many Dot) in *.
    rewrite match_many. cbn [atom_matches]. unfold no_line_terminator in Hx.
    now rewrite Hx, IH.
  - cbn [terms_of]. change (term_of "?") with (One Dot).
    cbn [match_terms atom_matches]. unfold no_line_terminator in Hx. now rewrite Hx, IH.
  - cbn [terms_of]. unfold term_of.
    destruct (Ascii.eqb_spec c "*"); [done|]. destruct (Ascii.eqb_spec c "?"); [done|].
    cbn [match_terms atom_matches char_matches]. rewrite Hc, Ascii.eqb_refl. now rewrite IH.
Qed.

Lemma spec_complete glob : ∀ f,
  match_terms true (terms_of glob) f = true → glob_spec no_line_terminator glob f.
Proof.
  induction glob as [|c g IH]; intros f.
  - destruct f; [constructor | discriminate].
  - cbn [terms_of]. unfold term_of.
    destruct (Ascii.eqb_spec c "*") as [->|Hs]; [|destruct (Ascii.eqb_spec c "?") as [->|Hq]].
    + induction f as [|x f IHf]; rewrite match_many.
      * intros H. apply glob_star_none, IH, H.
      * intros [[Hx H]%andb_true_iff | H]%orb_true_iff.
        -- apply glob_star_more; [exact Hx | exact (IHf H)].
        -- apply glob_star_none, IH, H.
    + destruct f as [|x f]; [discriminate|]. cbn [match_terms atom_matches].
      intros [Hx H]%andb_true_iff. apply glob_qmark; [exact Hx | exact (IH _ H)].
    + destruct f as [|x f]; [discriminate|]. cbn [match_terms atom_matches char_matches].
      intros [Hx H]%andb_true_iff. apply glob_literal; try done.
      * by apply Ascii.eqb_eq.
      * exact (IH _ H).
Qed.

Lemma spec_single_line glob f :
  single_line f = true →
  glob_spec any_character glob f → glob_spec no_line_terminator glob f.
Proof.
  intros Hf H. induction H as [|g f _ IH|g x f _ _ IH|g x f _ _ IH|c g x f Hs Hq Hc _ IH].
  - constructor.
  - apply glob_star_none, IH, Hf.
  - cbn [single_line] in Hf. apply andb_true_iff in Hf as [Hx Hf].
    apply glob_star_more; auto.
  - cbn [single_line] in Hf. apply andb_true_iff in Hf as [Hx Hf].
    apply glob_qmark; auto.
  - cbn [single_line] in Hf. apply andb_true_iff in Hf as [Hx Hf].
    apply glob_literal; auto.
Qed.

Lemma spec_wild_weaken glob f :
  glob_spec no_line_terminator glob f → glob_spec any_character glob f.
Proof.
  induction 1;
    [apply glob_end | apply glob_star_none | apply glob_star_more
    | apply glob_qmark | apply glob_literal]; auto.
Qed.

Lemma shouldExclude_exists f ps :
  shouldExclude f ps = true ↔ ∃ p, p ∈ ps ∧ test (globToRegex p) f = true.
Proof.
  induction ps as [|p ps IH]; cbn [shouldExclude].
  - split; [discriminate | intros (p & Hp & _); by apply elem_of_nil in Hp].
  - destruct (test (globToRegex p) f) eqn:Hp.
    + split; [|done]. intros _. exists p. split; [left | done].
    + rewrite IH. split.
      * intros (q & Hq & Ht). exists q. split; [by right | done].
      * intros (q & Hq & Ht). apply elem_of_cons in Hq as [->|Hq]; [congruence|]. eauto.
Qed.

(** C5 (as amended).  [globToRegex] turns every glob into a pattern of the
    modelled fragment with the [i] flag, anchored at both ends; the
    pattern matches a name exactly when the whole name matches the glob
    with [*] read as any sequence of characters other than line
    terminators, [?] as any one such character and every other character
    as itself up to letter case; on names without line terminators this
    is the reading with [*] and [?] standing for any characters.  The
    pattern [*.tmp] matches [a.tmp] and [A.TMP] and matches neither
    [a.tmpx] nor [tmp.txt]; a name is excluded iff some pattern of the
    list matches it. *)
Theorem glob_exclusion_semantics :
  (∀ glob, ignoreCase (globToRegex glob) = true
           ∧ parse (source (globToRegex glob)) = Some (terms_of glob))
  ∧ (∀ glob f, test (globToRegex glob) f = true ↔ glob_spec no_line_terminator glob f)
  ∧ (∀ glob f, single_line f = true →
       (test (globToRegex glob) f = true ↔ glob_spec any_character glob f))
  ∧ (test (globToRegex "*.tmp") "a.tmp" = true
     ∧ test (globToRegex "*.tmp") "A.TMP" = true
     ∧ test (globToRegex "*.tmp") "a.tmpx" = false
     ∧ test (globToRegex "*.tmp") "tmp.txt" = false)
  ∧ (∀ f patterns, shouldExclude f patterns = true
       ↔ ∃ p, p ∈ patterns ∧ test (globToRegex p) f = true).
Proof.
  split; [|split; [|split; [|split]]].
  - intros glob. split; [reflexivity | apply parse_globToRegex].
  - intros glob f. rewrite test_terms. split; [apply spec_complete | apply spec_sound].
  - intros glob f Hf. rewrite test_terms. split.
    + intros H. apply spec_wild_weaken, spec_complete, H.
    + intros H. apply spec_sound, spec_single_line; assumption.
  - repeat split; reflexivity.
  - apply shouldExclude_exists.
Qed.

Lemma glob_exclusion_semantics_witness :
  single_line "report.TMP" = true
  ∧ (test (globToRegex "*.tmp") "report.TMP" = true
     ↔ glob_spec any_character "*.tmp" "report.TMP").
Proof.
  split; [reflexivity|].
  exact (proj1 (proj2 (proj2 glob_exclusion_semantics)) "*.tmp" "report.TMP" eq_refl).
Defined.

(** C5 (as stated) fails: read literally, [*] matches every sequence of
    characters, so the glob [*] matches the name [a], line feed, [b];
    the pattern that [globToRegex] builds does not match it. *)
Lemma star_rejects_line_feed :
  glob_spec any_character "*" two_lines ∧ test (globToRegex "*") two_lines = false.
Proof.
  split; [|reflexivity].
  unfold two_lines. do 3 (apply glob_star_more; [reflexivity|]).
  apply glob_star_none, glob_end.
Qed.

End GlobFacts.

(** ** Facts about computations *)

Module MonadFacts.
Import Runtime Handlers.
Local Open Scope js_scope.

Global Instance on_storage_preorder Q `{!PreOrder Q} : PreOrder (on_storage Q).
Proof.
  split; [intros s; unfold on_storage; reflexivity|].
  intros s1 s2 s3; unfold on_storage; intros H1 H2; by etrans.
Qed.

Global Instance stays_absent_preorder {V} k : PreOrder (@stays_absent V k).
Proof.
  split; [intros a Ha; exact Ha | intros a b c; unfold stays_absent; auto].
Qed.

Global Instance same_at_preorder {V} k : PreOrder (@same_at V k).
Proof. split; [done | intros a b c; unfold same_at; congruence]. Qed.

Global Instance logs_only_preorder P : PreOrder (logs_only P).
Proof.
  split; [intros s e He; by left|].
  intros s1 s2 s3 H1 H2 e He. destruct (H2 e He) as [H|H]; [by apply H1 | by right].
Qed.

Lemma truthy_str_Some s : s ≠ "" → truthy_str (Some s) = true.
Proof. intros H. cbn. by destruct (String.eqb_spec s ""). Qed.

Lemma bind_run {A B} (m : M A) (k : A → M B) s :
  bind m k s = match m s with
               | (Ok a, s') => k a s'
               | (Thrown e, s') => (Thrown e, s')
               end.
Proof. reflexivity. Qed.

Lemma try_catch_run {A} (m : M A) (h : string → M A) s :
  try_catch m h s = match m s with
                    | (Ok a, s') => (Ok a, s')
                    | (Thrown e, s') => h e s'
                    end.
Proof. reflexivity. Qed.

(** A relation that is reflexive and transitive is respected by a
    computation as soon as its parts respect it. *)
Section Respects.
Context (R : State → State → Prop) `{!PreOrder R}.

Lemma respects_ret {A} (a : A) : respects R (ret a).
Proof. intros s. reflexivity. Qed.

Lemma respects_throw {A} msg : respects R (@throw A msg).
Proof. intros s. reflexivity. Qed.

Lemma respects_bind {A B} (m : M A) (k : A → M B) :
  respects R m → (∀ a, respects R (k a)) → respects R (bind m k).
Proof.
  intros Hm Hk s. unfold bind. specialize (Hm s).
  destruct (m s) as [[a|e] s']; cbn in *; [|done].
  etrans; [exact Hm | apply Hk].
Qed.

Lemma respects_try_catch {A} (m : M A) (h : string → M A) :
  respects R m → (∀ e, respects R (h e)) → respects R (try_catch m h).
Proof.
  intros Hm Hh s. unfold try_catch. specialize (Hm s).
  destruct (m s) as [[a|e] s']; cbn in *; [done|].
  etrans; [exact Hm | apply Hh].
Qed.

Lemma respects_json {A} (body : option A) : respects R (json body).
Proof. destruct body; [apply respects_ret | apply respects_throw]. Qed.

Lemma respects_for_each {A} (xs : list A) (body : A → M unit) :
  (∀ x, respects R (body x)) → respects R (for_each xs body).
Proof.
  intros Hb. induction xs as [|x xs IH]; cbn [for_each];
    [apply respects_ret | by apply respects_bind].
Qed.

End Respects.

(** The operations of the server API, store by store. *)
Section Primitives.
Context (Q : gmap string Val → gmap string Val → Prop) `{!PreOrder Q}.
Context (P : Event → Prop).

Lemma storage_get_any R `{!PreOrder R} k : respects R (storage_get k).
Proof. intros s. reflexivity. Qed.
Lemma storage_list_any R `{!PreOrder R} p : respects R (storage_list p).
Proof. intros s. reflexivity. Qed.
Lemma secrets_get_any R `{!PreOrder R} k : respects R (secrets_get k).
Proof. intros s. reflexivity. Qed.

Lemma storage_set_storage k v :
  (∀ st, Q st (<[k:=v]> st)) → respects (on_storage Q) (storage_set k v).
Proof. intros H s. apply H. Qed.
Lemma storage_delete_storage k :
  (∀ st, Q st (delete k st)) → respects (on_storage Q) (storage_delete k).
Proof. intros H s. apply H. Qed.
Lemma secrets_set_storage k v : respects (on_storage Q) (secrets_set k v).
Proof. intros s. unfold on_storage. reflexivity. Qed.
Lemma secrets_delete_storage k : respects (on_storage Q) (secrets_delete k).
Proof. intros s. unfold on_storage. reflexivity. Qed.
Lemma date_now_storage env : respects (on_storage Q) (date_now env).
Proof. intros s. unfold on_storage. reflexivity. Qed.
Lemma date_iso_storage env : respects (on_storage Q) (date_iso env).
Proof. intros s. unfold on_storage. reflexivity. Qed.
Lemma enter_storage fn : respects (on_storage Q) (enter fn).
Proof. intros s. unfold on_storage. reflexivity. Qed.
Lemma fetch_storage {A} (ep : nat → HttpRequest → Outcome A) req :
  respects (on_storage Q) (fetch ep req).
Proof. intros s. unfold on_storage, fetch. destruct (ep _ _); reflexivity. Qed.
Lemma generateStateToken_storage env : respects (on_storage Q) (generateStateToken env).
Proof. intros s. unfold on_storage. reflexivity. Qed.

Lemma storage_set_logs k v : respects (logs_only P) (storage_set k v).
Proof. intros s e He. by left. Qed.
Lemma storage_delete_logs k : respects (logs_only P) (storage_delete k).
Proof. intros s e He. by left. Qed.
Lemma secrets_set_logs k v : respects (logs_only P) (secrets_set k v).
Proof. intros s e He. by left. Qed.
Lemma secrets_delete_logs k : respects (logs_only P) (secrets_delete k).
Proof. intros s e He. by left. Qed.
Lemma date_now_logs env : respects (logs_only P) (date_now env).
Proof. intros s e He. by left. Qed.
Lemma date_iso_logs env : respects (logs_only P) (date_iso env).
Proof. intros s e He. by left. Qed.
Lemma enter_logs fn : P (Entered fn) → respects (logs_only P) (enter fn).
Proof. intros H s e He. cbn in He. apply elem_of_cons in He as [->|He]; [by right | by left]. Qed.
Lemma fetch_logs {A} (ep : nat → HttpRequest → Outcome A) req :
  P (Fetched req) → respects (logs_only P) (fetch ep req).
Proof.
  intros H s e He. unfold fetch in He.
  destruct (ep _ _); cbn in He; (apply elem_of_cons in He as [->|He]; [by right | by left]).
Qed.

End Primitives.

(** Runs the operations of the server API that are next in the goal. *)
Ltac run_prims :=
  cbn [bind ret throw try_catch storage_get storage_set storage_delete storage_list
       secrets_get secrets_set secrets_delete date_now date_iso enter json
       with_storage with_secrets logged stepped start storage secrets log steps
       fst snd negb andb orb].

(** One step of a proof that a computation respects a relation: the
    rule of the construct at the head, or the case analysis it needs. *)
Ltac respects_step :=
  lazymatch goal with
  | |- respects _ (bind _ _) => apply respects_bind; [apply _ | | intros ?]
  | |- respects _ (try_catch _ _) => apply respects_try_catch; [apply _ | | intros ?]
  | |- respects _ (ret _) => apply respects_ret; apply _
  | |- respects _ (throw _) => apply respects_throw; apply _
  | |- respects _ (json _) => apply respects_json; apply _
  | |- respects _ (for_each _ _) => apply respects_for_each; [apply _ | intros ?]
  | |- respects _ (storage_get _) => apply storage_get_any; apply _
  | |- respects _ (storage_list _) => apply storage_list_any; apply _
  | |- respects _ (secrets_get _) => apply secrets_get_any; apply _
  | |- respects (on_storage _) (storage_set _ _) => apply storage_set_storage
  | |- respects (on_storage _) (storage_delete _) => apply storage_delete_storage
  | |- respects (on_storage _) (secrets_set _ _) => apply secrets_set_storage; apply _
  | |- respects (on_storage _) (secrets_delete _) => apply secrets_delete_storage; apply _
  | |- respects (on_storage _) (date_now _) => apply date_now_storage; apply _
  | |- respects (on_storage _) (date_iso _) => apply date_iso_storage; apply _
  | |- respects (on_storage _) (enter _) => apply enter_storage; apply _
  | |- respects (on_storage _) (fetch _ _) => apply fetch_storage; apply _
  | |- respects (on_storage _) (generateStateToken _) => apply generateStateToken_storage; apply _
  | |- respects (logs_only _) (storage_set _ _) => apply storage_set_logs
  | |- respects (logs_only _) (storage_delete _) => apply storage_delete_logs
  | |- respects (logs_only _) (secrets_set _ _) => apply secrets_set_logs
  | |- respects (logs_only _) (secrets_delete _) => apply secrets_delete_logs
  | |- respects (logs_only _) (date_now _) => apply date_now_logs
  | |- respects (logs_only _) (date_iso _) => apply date_iso_logs
  | |- respects (logs_only _) (enter _) => apply enter_logs
  | |- respects (logs_only _) (fetch _ _) => apply fetch_logs
  | |- respects _ (if ?b then _ else _) => destruct b
  | |- respects _ (match ?x with _ => _ end) => destruct x
  end.

Ltac respects_auto := repeat (cbv zeta; respects_step).

End MonadFacts.

(** ** Facts about the OAuth callback *)

Module CallbackFacts.
Import Runtime Handlers MonadFacts.

(** The exchange of the code writes the keys of [callback_keys] only. *)
Lemma callback_exchange_frame env req code k :
  k ∉ callback_keys →
  respects (on_storage (same_at k)) (callback_exchange env req code).
Proof.
  intros Hk.
  assert (k ≠ "token_expires_at" ∧ k ≠ "user_email" ∧ k ≠ "user_name"
          ∧ k ≠ "user_picture" ∧ k ≠ "connected" ∧ k ≠ "connected_at") as (?&?&?&?&?&?).
  { repeat split; intros ->; apply Hk; unfold callback_keys; set_solver. }
  unfold callback_exchange. respects_auto;
    intros st; unfold same_at; by rewrite lookup_insert_ne.
Qed.

Lemma state_key_not_written state : state_key state ∉ callback_keys.
Proof.
  unfold callback_keys, state_key. intros Hk.
  repeat (apply elem_of_cons in Hk as [Hk|Hk]; [discriminate|]).
  by apply elem_of_nil in Hk.
Qed.

(** A request whose state has no record is rejected; nothing changes. *)
Lemma callback_verify_absent env req state s :
  presents req state → storage s !! state_key state = None →
  callback_verify env req s = (Ok (inl (Error "Invalid or expired state token" 400)), s).
Proof.
  intros (He & Hc & Hs & Hn) Hk. unfold callback_verify.
  rewrite He, Hc, Hs, (truthy_str_Some _ Hn). cbn [negb interpolate].
  unfold bind, storage_get. now rewrite Hk.
Qed.

(** A record within its ten minutes is deleted and the request goes on. *)
Lemma callback_verify_fresh env req state s created uid :
  presents req state →
  storage s !! state_key state = Some (VState created uid) →
  clock env (steps s) - created ≤ 600000 →
  callback_verify env req s =
    (Ok (inr (interpolate (q_code req))),
     with_storage (delete (state_key state)) (stepped s)).
Proof.
  intros (He & Hc & Hs & Hn) Hk Hage. unfold callback_verify.
  rewrite He, Hc, Hs, (truthy_str_Some _ Hn). cbn [negb interpolate].
  unfold bind, storage_get. rewrite Hk. cbn [truthy negb date_now createdAt_of num_sub num_gt].
  destruct (Z.ltb_spec (10 * 60 * 1000) (clock env (steps s) - created)); [lia|].
  reflexivity.
Qed.

(** A record older than ten minutes is deleted and the request rejected. *)
Lemma callback_verify_stale env req state s created uid :
  presents req state →
  storage s !! state_key state = Some (VState created uid) →
  clock env (steps s) - created > 600000 →
  callback_verify env req s =
    (Ok (inl (Error "State token expired. Please try again." 400)),
     with_storage (delete (state_key state)) (stepped s)).
Proof.
  intros (He & Hc & Hs & Hn) Hk Hage. unfold callback_verify.
  rewrite He, Hc, Hs, (truthy_str_Some _ Hn). cbn [negb interpolate].
  unfold bind, storage_get. rewrite Hk. cbn [truthy negb date_now createdAt_of num_sub num_gt].
  destruct (Z.ltb_spec (10 * 60 * 1000) (clock env (steps s) - created)); [|lia].
  reflexivity.
Qed.

(** The handler in terms of its two halves. *)
Lemma callback_handler_rejected env req s r s' :
  callback_verify env req s = (Ok (inl r), s') →
  callback_handler env req s = (Ok r, s').
Proof. intros H. unfold callback_handler, try_catch, bind. now rewrite H. Qed.

Lemma callback_handler_accepted env req s code s' :
  callback_verify env req s = (Ok (inr code), s') →
  ∃ r, (callback_handler env req s).1 = Ok r
       ∧ ∀ k, k ∉ callback_keys →
              storage (callback_handler env req s).2 !! k = storage s' !! k.
Proof.
  intros H. unfold callback_handler, try_catch, bind. rewrite H.
  pose proof (λ k Hk, callback_exchange_frame env req code k Hk s') as Hf.
  destruct (callback_exchange env req code s') as [[r|e] s'']; cbn [fst snd] in *;
    eexists; (split; [reflexivity | exact Hf]).
Qed.


(** The connect handler, when the client id is configured, stores a
    state record under the token it returns, stamped with the clock. *)
Lemma connect_stores_state env req st sec clientId :
  sec !! "GOOGLE_CLIENT_ID" = Some clientId → clientId ≠ "" →
  ∃ authUrl state,
    (run (connect_handler env req) st sec).1 = Ok (Json (ConnectData authUrl state))
    ∧ storage (run (connect_handler env req) st sec).2
      = <[state_key state := VState (clock env 1) (user_id req)]> st.
Proof.
  intros Hc Hn. unfold run, connect_handler, try_catch, bind, secrets_get, start.
  cbn [secrets]. rewrite Hc, (truthy_str_Some _ Hn). cbn.
  eexists _, _. split; reflexivity.
Qed.

(** An accepted callback has deleted the record of its state. *)
Lemma callback_verify_deletes env req s code s' :
  callback_verify env req s = (Ok (inr code), s') →
  storage s' !! state_key (interpolate (q_state req)) = None.
Proof.
  unfold callback_verify.
  destruct (truthy_str (q_error req)); [discriminate|].
  destruct (truthy_str (q_code req)); [|discriminate].
  destruct (truthy_str (q_state req)); [|discriminate].
  cbn [negb]. rewrite bind_run. run_prims.
  destruct (storage s !! _) as [stored|]; [|discriminate].
  destruct (truthy stored); [|discriminate].
  cbn [negb]. rewrite bind_run. run_prims.
  destruct (num_gt _ _); [discriminate|].
  intros [= _ <-]. apply lookup_delete_eq.
Qed.

(** A callback whose state has no record is not accepted. *)
Lemma callback_verify_needs_record env req state st sec :
  q_state req = Some state → st !! state_key state = None →
  accepts env req st sec = false.
Proof.
  intros Hs Hk. unfold accepts, callback_verify. rewrite Hs.
  destruct (truthy_str (q_error req)); [done|].
  destruct (truthy_str (q_code req)); [|done].
  destruct (truthy_str (Some state)); [|done].
  cbn [negb interpolate]. rewrite bind_run. run_prims. now rewrite Hk.
Qed.

(** No callback stores a state record. *)
Lemma callback_verify_stays_absent env req k :
  respects (on_storage (stays_absent k)) (callback_verify env req).
Proof.
  unfold callback_verify. respects_auto;
    intros st Hk; rewrite lookup_delete_None; by right.
Qed.

Lemma callback_handler_stays_absent env req k :
  k ∉ callback_keys → respects (on_storage (stays_absent k)) (callback_handler env req).
Proof.
  intros Hk. unfold callback_handler. respects_auto.
  - apply callback_verify_stays_absent.
  - intros s0 Habs.
    match goal with
    | |- context [callback_exchange _ _ ?code _] =>
        pose proof (callback_exchange_frame env req code k Hk s0) as Hf
    end.
    unfold on_storage, same_at in Hf. now rewrite Hf.
Qed.

(** Among callbacks handled one after the other, at most one is accepted
    for a given state; none is once the record is absent. *)
Lemma accepted_uses_at_most_once state runs : ∀ st sec,
  (st !! state_key state = None → accepted_uses state runs st sec = 0%nat)
  ∧ (accepted_uses state runs st sec ≤ 1)%nat.
Proof.
  induction runs as [|[env req] runs IH]; intros st sec; [split; [done | cbn; lia]|].
  cbn [accepted_uses].
  set (after := (callback_handler env req (start st sec)).2).
  destruct (IH (storage after) (secrets after)) as [IH0 IH1].
  pose proof (callback_handler_stays_absent env req (state_key state)
                (state_key_not_written state) (start st sec)) as Hstay.
  unfold on_storage, stays_absent in Hstay. cbn [start storage] in Hstay.
  fold after in Hstay.
  destruct (bool_decide (q_state req = Some state)) eqn:Hq; cbn [andb];
    [apply bool_decide_eq_true in Hq|].
  - destruct (accepts env req st sec) eqn:Hacc.
    + split.
      * intros Hk. by rewrite (callback_verify_needs_record env req state st sec Hq Hk) in Hacc.
      * rewrite IH0; [lia|]. unfold accepts in Hacc.
        destruct (callback_verify env req (start st sec)) as [[[r|code]|e] s'] eqn:Hv;
          try discriminate.
        pose proof (callback_verify_deletes _ _ _ _ _ Hv) as Hgone.
        rewrite Hq in Hgone. cbn [interpolate] in Hgone.
        destruct (callback_handler_accepted _ _ _ _ _ Hv) as (r & _ & Hframe).
        unfold after. now rewrite Hframe by apply state_key_not_written.
    + split; [|exact IH1]. intros Hk. apply IH0, Hstay, Hk.
  - split; [|exact IH1]. intros Hk. apply IH0, Hstay, Hk.
Qed.

(** C1 (as amended).  For callbacks handled one after the other: a
    state record stored at most ten minutes before the clock reading of
    the callback is consumed by the first callback that presents it: the state passes verification and the record is deleted
    during that run, whatever the rest of the run does; a second callback
    that presents the same state, the record not having been stored
    again in between, is answered with the error
    [Invalid or expired state token], status 400, and the record is still
    absent afterwards.  Among any callbacks handled one after the other,
    at most one that presents the state is accepted. *)
Theorem callback_state_single_use
    env1 env2 req1 req2 st sec st2 sec2 state created uid :
  presents req1 state → presents req2 state →
  st !! state_key state = Some (VState created uid) →
  clock env1 0 - created ≤ 10 * 60 * 1000 →
  let first := run (callback_handler env1 req1) st sec in
  st2 !! state_key state = storage first.2 !! state_key state →
  let second := run (callback_handler env2 req2) st2 sec2 in
  (run (callback_verify env1 req1) st sec).1 = Ok (inr (interpolate (q_code req1)))
  ∧ storage first.2 !! state_key state = None
  ∧ second.1 = Ok (Error "Invalid or expired state token" 400)
  ∧ storage second.2 !! state_key state = None
  ∧ ∀ runs, (accepted_uses state runs st sec ≤ 1)%nat.
Proof.
  intros Hp1 Hp2 Hst Hage first Hst2 second.
  pose proof (callback_verify_fresh env1 req1 state (start st sec) created uid Hp1 Hst) as Hv.
  cbn [start steps] in Hv. specialize (Hv ltac:(lia)).
  destruct (callback_handler_accepted _ _ _ _ _ Hv) as (r1 & _ & Hframe).
  assert (storage first.2 !! state_key state = None) as Hgone.
  { unfold first, run. rewrite Hframe by apply state_key_not_written.
    cbn. apply lookup_delete_eq. }
  rewrite Hgone in Hst2.
  assert (second = (Ok (Error "Invalid or expired state token" 400), start st2 sec2)) as ->.
  { unfold second, run. apply callback_handler_rejected.
    by apply (callback_verify_absent env2 req2 state). }
  split; [unfold run; now rewrite Hv|]. repeat split; try assumption.
  intros runs. apply accepted_uses_at_most_once.
Qed.

(** C2.  A state record whose [createdAt] lies more than ten minutes
    before the clock reading of the callback makes the handler answer
    with the expiry error, status 400, and the record is deleted from
    storage; nothing else is changed. *)
Theorem callback_rejects_stale_state env req st sec state created uid :
  presents req state →
  st !! state_key state = Some (VState created uid) →
  clock env 0 - created > 10 * 60 * 1000 →
  let result := run (callback_handler env req) st sec in
  result.1 = Ok (Error "State token expired. Please try again." 400)
  ∧ storage result.2 = delete (state_key state) st
  ∧ storage result.2 !! state_key state = None
  ∧ secrets result.2 = sec.
Proof.
  intros Hp Hst Hage result.
  pose proof (callback_verify_stale env req state (start st sec) created uid Hp Hst) as Hv.
  cbn [start steps] in Hv. specialize (Hv ltac:(lia)).
  unfold result, run. rewrite (callback_handler_rejected _ _ _ _ _ Hv). cbn.
  repeat split. apply lookup_delete_eq.
Qed.

Lemma sample_callback_presents : presents sample_callback "abc".
Proof. by repeat split. Qed.

Lemma callback_state_single_use_witness :
  let first := run (callback_handler offline sample_callback)
                 (pending_storage 1699999990000) ∅ in
  let second := run (callback_handler online sample_callback)
                  (storage first.2) (secrets first.2) in
  (run (callback_verify offline sample_callback) (pending_storage 1699999990000) ∅).1
    = Ok (inr "code")
  ∧ storage first.2 !! state_key "abc" = None
  ∧ second.1 = Ok (Error "Invalid or expired state token" 400)
  ∧ storage second.2 !! state_key "abc" = None
  ∧ ∀ runs, (accepted_uses "abc" runs (pending_storage 1699999990000) ∅ ≤ 1)%nat.
Proof.
  intros first second.
  apply (callback_state_single_use offline online sample_callback sample_callback
           (pending_storage 1699999990000) ∅ (storage first.2) (secrets first.2)
           "abc" 1699999990000 None).
  - apply sample_callback_presents.
  - apply sample_callback_presents.
  - reflexivity.
  - cbn. lia.
  - reflexivity.
Defined.

Lemma callback_rejects_stale_state_witness :
  let result := run (callback_handler offline sample_callback)
                  (pending_storage 1690000000000) ∅ in
  result.1 = Ok (Error "State token expired. Please try again." 400)
  ∧ storage result.2 = delete (state_key "abc") (pending_storage 1690000000000)
  ∧ storage result.2 !! state_key "abc" = None
  ∧ secrets result.2 = ∅.
Proof.
  apply (callback_rejects_stale_state offline sample_callback
           (pending_storage 1690000000000) ∅ "abc" 1690000000000 None).
  - apply sample_callback_presents.
  - reflexivity.
  - cbn. lia.
Defined.

End CallbackFacts.

(** ** Facts about the status handler *)

Module StatusFacts.
Import Runtime Handlers MonadFacts.

Lemma refresh_fails_or_yields env s :
  refresh_fails env s ∨ ∃ data, refresh_yields env s data.
Proof.
  unfold refresh_fails, refresh_yields.
  destruct (truthy_str (secrets s !! "refresh_token")); [|by left; left].
  destruct (truthy_str (secrets s !! "GOOGLE_CLIENT_ID")); [|by left; right; left].
  destruct (truthy_str (secrets s !! "GOOGLE_CLIENT_SECRET")); [|by left; right; right; left].
  destruct (refresh_attempt env s) as [msg|[] [data|]] eqn:H.
  - left. do 3 right. left. by exists msg.
  - right. by exists data.
  - left. by do 5 right.
  - left. do 4 right. left. by eexists.
  - left. do 4 right. left. by eexists.
Qed.

Lemma refreshAccessToken_fails env s :
  refresh_fails env s →
  ∃ s', refreshAccessToken env s = (Ok false, s')
        ∧ storage s' = storage s ∧ secrets s' = secrets s
        ∧ (log s' = log s
           ∨ log s' = Fetched (refresh_request (secrets s !! "GOOGLE_CLIENT_ID")
                        (secrets s !! "GOOGLE_CLIENT_SECRET") (secrets s !! "refresh_token"))
                      :: log s).
Proof.
  unfold refresh_fails, refresh_attempt, refreshAccessToken. intros H. run_prims.
  destruct (truthy_str (secrets s !! "refresh_token")); run_prims; [|by eauto 10].
  destruct (truthy_str (secrets s !! "GOOGLE_CLIENT_ID")); run_prims; [|by eauto 10].
  destruct (truthy_str (secrets s !! "GOOGLE_CLIENT_SECRET")); run_prims; [|by eauto 10].
  unfold try_catch, bind, fetch.
  destruct H as [H|[H|[H|[[msg H]|[[body H]|H]]]]]; try discriminate;
    rewrite H; run_prims; eauto 10.
Qed.

Lemma refreshAccessToken_yields env s data :
  refresh_yields env s data →
  ∃ s', refreshAccessToken env s = (Ok true, s')
        ∧ secrets s' = <["access_token" := access_token data]> (secrets s)
        ∧ (∀ k, k ≠ "token_expires_at" → storage s' !! k = storage s !! k)
        ∧ log s' = Fetched (refresh_request (secrets s !! "GOOGLE_CLIENT_ID")
                     (secrets s !! "GOOGLE_CLIENT_SECRET") (secrets s !! "refresh_token")) :: log s.
Proof.
  unfold refresh_yields, refresh_attempt, refreshAccessToken. intros (H1 & H2 & H3 & H).
  run_prims. rewrite H1. run_prims. rewrite H2, H3. run_prims.
  unfold try_catch, bind, fetch. rewrite H. run_prims.
  eexists. split; [reflexivity|]. split; [reflexivity|]. split; [|reflexivity].
  intros k Hk. cbn. by rewrite lookup_insert_ne.
Qed.

Lemma refreshAccessToken_total env s :
  ∃ b s', refreshAccessToken env s = (Ok b, s').
Proof.
  destruct (refresh_fails_or_yields env s) as [H|[data H]].
  - destruct (refreshAccessToken_fails env s H) as (s' & -> & _). eauto.
  - destruct (refreshAccessToken_yields env s data H) as (s' & -> & _). eauto.
Qed.

(** The tail of the status handler sends one request, the quota request
    with the token it was given, and answers with the connected shape. *)
Lemma status_report_run env ue un up ca ls token s :
  ∃ used total s',
    status_report env ue un up ca ls token s =
      (Ok (Json (StatusData
         {| connected := true; userEmail := ue; userName := un; userPicture := up;
            connectedAt := ca; lastSyncAt := ls; quotaUsed := used; quotaTotal := total |})), s')
    ∧ storage s' = storage s ∧ secrets s' = secrets s
    ∧ log s' = Fetched (get_request ABOUT_URL (bearer token)) :: log s.
Proof.
  unfold status_report, getQuotaInfo, try_catch, bind, fetch.
  destruct (aboutEndpoint env _ _) as [msg|[] [data|]]; run_prims;
    eexists _, _, _; (split; [reflexivity|]); repeat split.
Qed.

(** The status handler when the refresh it attempts fails. *)
Lemma status_handler_failed_refresh env st sec token expires :
  truthy_val (st !! "connected") = true →
  sec !! "access_token" = Some token → token ≠ "" →
  st !! "token_expires_at" = Some (VNum expires) → expires ≠ 0 →
  expires - 60000 ≤ clock env 0 →
  refresh_fails env (stepped (start st sec)) →
  ∃ s', run (status_handler env) st sec = (Ok (Json (StatusData disconnected_status)), s')
        ∧ storage s' = <["connected" := VBool false]> st ∧ secrets s' = sec.
Proof.
  intros Hc Htok Hne Hexp Hnz Hdue Hfail.
  destruct (refreshAccessToken_fails env _ Hfail) as (s' & Hrun & Hst & Hsec & _).
  unfold run, status_handler, try_catch, bind. run_prims.
  rewrite Hc. run_prims. rewrite Hexp, Htok, (truthy_str_Some _ Hne).
  cbn [negb andb truthy to_number num_sub num_ge].
  destruct (Z.eqb_spec expires 0); [done|]. cbn [negb].
  change (steps (start st sec)) with 0%nat.
  destruct (Z.leb_spec (expires - 60000) (clock env 0)); [|lia].
  rewrite Hrun. run_prims. eexists. split; [reflexivity|].
  cbn [storage secrets with_storage]. by rewrite Hst, Hsec.
Qed.

(** C4.  When the status handler finds [connected] set, an access token
    stored and the stored expiry within 60 seconds of the clock or past,
    and the refresh fails (a credential is missing, the token endpoint
    answers with a non-ok status such as 401, the request throws, or the
    body does not parse), the handler does not throw: it stores
    [connected = false] and answers with the disconnected shape. *)
Theorem status_refresh_failure env st sec token expires :
  truthy_val (st !! "connected") = true →
  sec !! "access_token" = Some token → token ≠ "" →
  st !! "token_expires_at" = Some (VNum expires) → expires ≠ 0 →
  expires - 60000 ≤ clock env 0 →
  refresh_fails env (stepped (start st sec)) →
  let result := run (status_handler env) st sec in
  result.1 = Ok (Json (StatusData disconnected_status))
  ∧ storage result.2 !! "connected" = Some (VBool false)
  ∧ storage result.2 = <["connected" := VBool false]> st
  ∧ secrets result.2 = sec.
Proof.
  intros Hc Htok Hne Hexp Hnz Hdue Hfail result.
  destruct (status_handler_failed_refresh env st sec token expires)
    as (s' & Hrun & Hst & Hsec); [done..|].
  unfold result. rewrite Hrun. cbn [fst snd]. rewrite Hst.
  repeat split; [apply lookup_insert_eq | done].
Qed.

(** The 401 of the sample environment is a failed refresh. *)
Lemma unauthorized_refresh_fails st sec :
  refresh_fails unauthorized (stepped (start st sec)).
Proof. do 4 right. left. by exists None. Qed.

Lemma status_refresh_failure_witness :
  let result := run (status_handler unauthorized) stale_storage full_secrets in
  result.1 = Ok (Json (StatusData disconnected_status))
  ∧ storage result.2 !! "connected" = Some (VBool false)
  ∧ storage result.2 = <["connected" := VBool false]> stale_storage
  ∧ secrets result.2 = full_secrets.
Proof.
  apply (status_refresh_failure unauthorized stale_storage full_secrets
           "old-token" 1600000000000).
  - reflexivity.
  - reflexivity.
  - discriminate.
  - reflexivity.
  - discriminate.
  - cbn. lia.
  - apply unauthorized_refresh_fails.
Defined.

(** The status handler never throws. *)
Lemma status_handler_total env s : ∃ r s', status_handler env s = (Ok r, s').
Proof.
  unfold status_handler, try_catch.
  match goal with |- context [match ?m s with _ => _ end] => destruct (m s) as [[r|e] s'] end;
    by eexists _, _.
Qed.

(** What a refresh adds to the log. *)
Lemma refreshAccessToken_log env s :
  ∃ b s', refreshAccessToken env s = (Ok b, s')
          ∧ ∀ req, Fetched req ∈ log s' → Fetched req ∈ log s ∨ url req = GOOGLE_TOKEN_URL.
Proof.
  destruct (refresh_fails_or_yields env s) as [H|[data H]].
  - destruct (refreshAccessToken_fails env s H) as (s' & -> & _ & _ & [Hl|Hl]);
      eexists _, _; (split; [reflexivity|]); intros req; rewrite Hl; [by left|].
    intros [[= ->]|Hin]%elem_of_cons; [by right | by left].
  - destruct (refreshAccessToken_yields env s data H) as (s' & -> & _ & _ & Hl).
    eexists _, _; (split; [reflexivity|]); intros req; rewrite Hl.
    intros [[= ->]|Hin]%elem_of_cons; [by right | by left].
Qed.

(** C10.  In every run of the status handler, a request for the quota
    carries the access token that was in the secret store when the run
    started.  In particular, when the token is refreshed during the run,
    the new token is stored and the quota request is still sent with the
    old one. *)
Theorem status_quota_uses_token_read_first env st sec :
  let result := run (status_handler env) st sec in
  (∀ req, Fetched req ∈ log result.2 → url req = ABOUT_URL →
          req = get_request ABOUT_URL (bearer (sec !! "access_token")))
  ∧ (∀ token expires data,
       truthy_val (st !! "connected") = true →
       sec !! "access_token" = Some token → token ≠ "" →
       st !! "token_expires_at" = Some (VNum expires) → expires ≠ 0 →
       expires - 60000 ≤ clock env 0 →
       refresh_yields env (stepped (start st sec)) data →
       secrets result.2 !! "access_token" = Some (access_token data)
       ∧ Fetched (get_request ABOUT_URL (bearer (Some token))) ∈ log result.2).
Proof.
  intros result. split.
  - intros req. unfold result, run, status_handler, try_catch, bind. run_prims.
    destruct (truthy_val (st !! "connected")); run_prims; [|by intros ?%elem_of_nil].
    set (report := status_report env _ _ _ _ _ _).
    assert (∀ s, (∀ r, Fetched r ∈ log s → url r ≠ ABOUT_URL) →
              Fetched req ∈ log (let (r, s') := report s in
                 match r with
                 | Ok a => (Ok a, s')
                 | Thrown _ => ret (Error "Failed to check connection status" 500) s'
                 end).2 →
              url req = ABOUT_URL →
              req = get_request ABOUT_URL (bearer (sec !! "access_token"))) as Hreport.
    { intros s Hs. unfold report.
      destruct (status_report_run env (st !! "user_email") (st !! "user_name")
                  (st !! "user_picture") (st !! "connected_at") (st !! "last_sync_at")
                  (sec !! "access_token") s) as (used & total & s' & -> & _ & _ & Hl).
      cbn [snd]. rewrite Hl. intros [[= ->]|Hin]%elem_of_cons Hu; [done|].
      by destruct (Hs _ Hin). }
    destruct (st !! "token_expires_at") as [expires|];
      [|apply Hreport; by intros r ?%elem_of_nil].
    destruct (truthy_str (sec !! "access_token") && truthy expires);
      [|apply Hreport; by intros r ?%elem_of_nil].
    destruct (num_ge _ _); [|apply Hreport; by intros r ?%elem_of_nil].
    destruct (refreshAccessToken_log env (stepped (start st sec))) as (b & s' & -> & Hl).
    assert (∀ r, Fetched r ∈ log s' → url r ≠ ABOUT_URL) as Hs'.
    { intros r [Hin|Hu]%Hl; [by apply elem_of_nil in Hin | by rewrite Hu]. }
    destruct b; cbn [negb]; [by apply Hreport|].
    run_prims. intros Hin Hu. by destruct (Hs' _ Hin).
  - intros token expires data Hc Htok Hne Hexp Hnz Hdue Hyes.
    destruct (refreshAccessToken_yields env _ data Hyes) as (s' & Hrun & Hsec & _ & _).
    unfold result, run, status_handler, try_catch, bind. run_prims.
    rewrite Hc. run_prims. rewrite Hexp, Htok, (truthy_str_Some _ Hne).
    cbn [negb andb truthy to_number num_sub num_ge].
    destruct (Z.eqb_spec expires 0); [done|]. cbn [negb].
    change (steps (start st sec)) with 0%nat.
    destruct (Z.leb_spec (expires - 60000) (clock env 0)); [|lia].
    rewrite Hrun. cbn [negb].
    destruct (status_report_run env (st !! "user_email") (st !! "user_name")
                (st !! "user_picture") (st !! "connected_at") (st !! "last_sync_at")
                (Some token) s') as (used & total & s'' & -> & _ & Hsec' & Hl).
    cbn [snd]. rewrite Hsec', Hsec, Hl. split; [apply lookup_insert_eq | left].
Qed.

Lemma status_quota_uses_token_read_first_witness :
  let result := run (status_handler online) stale_storage full_secrets in
  secrets result.2 !! "access_token" = Some "fresh-token"
  ∧ Fetched (get_request ABOUT_URL (bearer (Some "old-token"))) ∈ log result.2.
Proof.
  apply (proj2 (status_quota_uses_token_read_first online stale_storage full_secrets)
           "old-token" 1600000000000
           {| access_token := "fresh-token"; refresh_token := None; expires_in := 3600 |}).
  - reflexivity.
  - reflexivity.
  - discriminate.
  - reflexivity.
  - discriminate.
  - cbn. lia.
  - by repeat split.
Defined.

End StatusFacts.

(** ** Facts about the sync handler *)

Module SyncFacts.
Import Runtime Handlers Vocabulary MonadFacts.

Lemma refreshed_token_logs env : respects (logs_only token_fetch) (refreshed_token env).
Proof. unfold refreshed_token. respects_auto. by eexists. Qed.

Lemma getValidAccessToken_logs env : respects (logs_only token_fetch) (getValidAccessToken env).
Proof. unfold getValidAccessToken. respects_auto; apply refreshed_token_logs. Qed.

Lemma refreshed_token_frame env k :
  k ≠ "token_expires_at" → respects (on_storage (same_at k)) (refreshed_token env).
Proof.
  intros Hk. unfold refreshed_token. respects_auto.
  intros st. unfold same_at. by rewrite lookup_insert_ne.
Qed.

Lemma getValidAccessToken_frame env k :
  k ≠ "token_expires_at" → respects (on_storage (same_at k)) (getValidAccessToken env).
Proof.
  intros Hk. unfold getValidAccessToken. respects_auto; by apply refreshed_token_frame.
Qed.

Lemma refreshed_token_fails env s :
  refresh_fails env s →
  ∃ s', refreshed_token env s = (Ok None, s')
        ∧ storage s' = storage s ∧ secrets s' = secrets s.
Proof.
  unfold refresh_fails, refresh_attempt, refreshed_token. intros H. run_prims.
  destruct (truthy_str (secrets s !! "refresh_token")); run_prims; [|by eauto].
  destruct (truthy_str (secrets s !! "GOOGLE_CLIENT_ID")); run_prims; [|by eauto].
  destruct (truthy_str (secrets s !! "GOOGLE_CLIENT_SECRET")); run_prims; [|by eauto].
  unfold try_catch, bind, fetch.
  destruct H as [H|[H|[H|[[msg H]|[[body H]|H]]]]]; try discriminate;
    rewrite H; run_prims; eauto.
Qed.

Lemma refreshed_token_total env s : ∃ t s', refreshed_token env s = (Ok t, s').
Proof.
  unfold refreshed_token. run_prims.
  destruct (negb _); run_prims; [by eauto|].
  destruct (_ || _); run_prims; [by eauto|].
  unfold try_catch, bind, fetch.
  destruct (tokenEndpoint env _ _) as [msg|[] [data|]]; run_prims; eauto.
Qed.

Lemma getValidAccessToken_total env s : ∃ t s', getValidAccessToken env s = (Ok t, s').
Proof.
  unfold getValidAccessToken. run_prims.
  destruct (storage s !! "token_expires_at") as [expires|]; [|apply refreshed_token_total].
  destruct (_ && _); [|apply refreshed_token_total].
  unfold bind. run_prims.
  destruct (num_lt _ _); [by eauto | apply refreshed_token_total].
Qed.

(** The download stage never throws, counts no download, reports at
    most one error, and sends exactly the listing request. *)
Lemma syncDownload_run env token patterns s :
  ∃ r s', syncDownload env token patterns s = (Ok r, s')
    ∧ count r = 0
    ∧ (stage_errors r = 0 ∨ stage_errors r = 1)
    ∧ storage s' = storage s ∧ secrets s' = secrets s
    ∧ log s' = Fetched (get_request FILES_URL (bearer (Some token)))
               :: Entered "syncDownload" :: log s.
Proof.
  unfold syncDownload, try_catch, bind, fetch. run_prims.
  destruct (filesEndpoint env _ _) as [msg|[] [[files|message]|]]; run_prims;
    eexists _, _; (split; [reflexivity|]); cbn; auto 10.
Qed.

Lemma sync_dispatch_run env token s :
  let direction := direction_of (config_of (storage s !! "config")) in
  ∃ res iso s',
    sync_dispatch env token s = (Ok (Json (SyncData res)), s')
    ∧ uploaded res = 0 ∧ downloaded res = 0 ∧ synced res = 0
    ∧ (errors res = 0 ∨ errors res = 1)
    ∧ success res = (errors res =? 0)
    ∧ storage s' = <["last_sync_result" := VResult res]> (<["last_sync_at" := VStr iso]> (storage s))
    ∧ secrets s' = secrets s
    ∧ log s' = download_events direction token ++ upload_events direction ++ log s.
Proof.
  intros direction. unfold sync_dispatch, upload_events, download_events.
  unfold bind at 1. run_prims. fold direction.
  destruct (wants_upload direction), (wants_download direction).
  - unfold bind at 1. unfold bind at 1. unfold syncUpload at 1. run_prims.
    unfold bind at 1. unfold bind at 1.
    destruct (syncDownload_run env token (patterns_of (config_of (storage s !! "config")))
                (logged (Entered "syncUpload") s)) as (r & s' & -> & Hc & He & Hst & Hsec & Hl).
    unfold bind. run_prims. eexists _, _, _. split; [reflexivity|].
    cbn. rewrite Hc, Hst, Hsec, Hl. destruct He as [-> | ->]; cbn; auto 10.
  - unfold bind, syncUpload. run_prims. eexists _, _, _. split; [reflexivity|]. cbn. auto 10.
  - unfold bind at 1. unfold bind at 1. run_prims. unfold bind at 1.
    destruct (syncDownload_run env token (patterns_of (config_of (storage s !! "config")))
                s) as (r & s' & -> & Hc & He & Hst & Hsec & Hl).
    unfold bind. run_prims. eexists _, _, _. split; [reflexivity|].
    cbn. rewrite Hc, Hst, Hsec, Hl. destruct He as [-> | ->]; cbn; auto 10.
  - unfold bind. run_prims. eexists _, _, _. split; [reflexivity|]. cbn. auto 10.
Qed.

Lemma sync_handler_reaches env st sec token s1 :
  reaches_dispatch env st sec token s1 →
  run (sync_handler env) st sec = sync_dispatch env token s1.
Proof.
  intros (Hc & Hv & Hne). unfold run, sync_handler, try_catch, bind. run_prims.
  rewrite Hc. run_prims. rewrite Hv, (truthy_str_Some _ Hne). cbn [negb interpolate].
  destruct (sync_dispatch_run env token s1) as (res & iso & s' & -> & _). reflexivity.
Qed.

Lemma reaches_dispatch_log env st sec token s1 :
  reaches_dispatch env st sec token s1 → ∀ e, e ∈ log s1 → token_fetch e.
Proof.
  intros (_ & Hv & _) e He. pose proof (getValidAccessToken_logs env (start st sec)) as H.
  rewrite Hv in H. destruct (H e He) as [Hin|Ht]; [by apply elem_of_nil in Hin | done].
Qed.

Lemma reaches_dispatch_storage env st sec token s1 k :
  reaches_dispatch env st sec token s1 → k ≠ "token_expires_at" →
  storage s1 !! k = st !! k.
Proof.
  intros (_ & Hv & _) Hk. pose proof (getValidAccessToken_frame env k Hk (start st sec)) as H.
  rewrite Hv in H. exact H.
Qed.

Lemma wants_upload_iff d :
  wants_upload d = true ↔ d = "bidirectional" ∨ d = "upload-only".
Proof. unfold wants_upload. rewrite orb_true_iff, !String.eqb_eq. reflexivity. Qed.

Lemma wants_download_iff d :
  wants_download d = true ↔ d = "bidirectional" ∨ d = "download-only".
Proof. unfold wants_download. rewrite orb_true_iff, !String.eqb_eq. reflexivity. Qed.

(** The events of a run that reaches the dispatch, by the direction
    that the dispatch computes. *)
Lemma dispatch_events env st sec token s1 :
  reaches_dispatch env st sec token s1 →
  let direction := direction_of (config_of (st !! "config")) in
  let events := log (run (sync_handler env) st sec).2 in
  (Entered "syncUpload" ∈ events ↔ direction = "bidirectional" ∨ direction = "upload-only")
  ∧ (Entered "syncDownload" ∈ events
     ↔ direction = "bidirectional" ∨ direction = "download-only")
  ∧ ((∃ req, Fetched req ∈ events ∧ url req = FILES_URL)
     ↔ direction = "bidirectional" ∨ direction = "download-only")
  ∧ (syncDirection (config_of (st !! "config")) = None → direction = "bidirectional").
Proof.
  intros Hr direction events.
  pose proof (reaches_dispatch_log _ _ _ _ _ Hr) as Hlog.
  pose proof (reaches_dispatch_storage _ _ _ _ _ "config" Hr ltac:(done)) as Hcfg.
  assert (events = download_events direction token ++ upload_events direction ++ log s1) as ->.
  { unfold events. rewrite (sync_handler_reaches _ _ _ _ _ Hr).
    destruct (sync_dispatch_run env token s1) as (res & iso & s' & -> & H).
    cbn [snd]. rewrite Hcfg in H. apply H. }
  assert (∀ fn, Entered fn ∉ log s1) as Hno_enter.
  { intros fn [req [? _]]%Hlog. discriminate. }
  assert (∀ req, Fetched req ∈ log s1 → url req ≠ FILES_URL) as Hno_list.
  { intros req [r [[= <-] Hu]]%Hlog. by rewrite Hu. }
  rewrite <- wants_upload_iff, <- wants_download_iff.
  assert (∀ e, e ∈ upload_events direction → wants_upload direction = true ∧ e = Entered "syncUpload") as Hup.
  { intros e. unfold upload_events. destruct (wants_upload direction);
      [by intros ->%list_elem_of_singleton | by intros ?%elem_of_nil]. }
  assert (∀ e, e ∈ download_events direction token → wants_download direction = true
               ∧ (e = Fetched (get_request FILES_URL (bearer (Some token)))
                  ∨ e = Entered "syncDownload")) as Hdown.
  { intros e. unfold download_events. destruct (wants_download direction);
      [|by intros ?%elem_of_nil].
    intros [->| ->%list_elem_of_singleton]%elem_of_cons; auto. }
  split; [|split; [|split]].
  - rewrite !elem_of_app. split.
    + intros [Hin|[Hin|Hin]].
      * by destruct (Hdown _ Hin) as [_ [?|?]].
      * by destruct (Hup _ Hin).
      * by destruct (Hno_enter _ Hin).
    + intros H. right. left. unfold upload_events. rewrite H. by left.
  - rewrite !elem_of_app. split.
    + intros [Hin|[Hin|Hin]].
      * by destruct (Hdown _ Hin).
      * by destruct (Hup _ Hin) as [_ ?].
      * by destruct (Hno_enter _ Hin).
    + intros H. left. unfold download_events. rewrite H. right. by left.
  - split.
    + intros (req & Hin & Hu). rewrite !elem_of_app in Hin. destruct Hin as [Hin|[Hin|Hin]].
      * by destruct (Hdown _ Hin).
      * by destruct (Hup _ Hin) as [_ ?].
      * by destruct (Hno_list _ Hin).
    + intros H. exists (get_request FILES_URL (bearer (Some token))). split; [|reflexivity].
      rewrite !elem_of_app. left. unfold download_events. rewrite H. by left.
  - intros Hnone. unfold direction, direction_of. by rewrite Hnone.
Qed.

(** The dispatch computes the direction that the stored configuration
    asks for. *)
Lemma configured_direction_of st d :
  configured_direction st d ↔ d = direction_of (config_of (st !! "config")).
Proof.
  unfold direction_of, config_of, or_else. split.
  - intros [c d' Hst Hd Hne | Hnone].
    + rewrite Hst, Hd. cbn. by destruct (String.eqb_spec d' "").
    + destruct (st !! "config") as [[| | | |c|]|] eqn:Hst; try reflexivity.
      cbn [syncDirection]. by rewrite (Hnone c eq_refl).
  - intros ->. destruct (st !! "config") as [v|] eqn:Hst;
      [|apply direction_unset; intros c Hc; congruence].
    destruct v as [n|b|t|created uid|c|res];
      try (apply direction_unset; intros c Hc; congruence).
    destruct (syncDirection c) as [d|] eqn:Hd.
    + destruct (String.eqb_spec d "") as [->|Hne].
      * apply direction_unset. intros c' Hc. rewrite Hst in Hc. injection Hc as <-.
        by rewrite Hd.
      * cbn [truthy_str]. rewrite (proj2 (String.eqb_neq d "") Hne). cbn.
        by apply (direction_set st c d).
    + apply direction_unset. intros c' Hc. rewrite Hst in Hc. injection Hc as <-.
      by rewrite Hd.
Qed.

(** C6.  In a run of the sync handler that reaches the dispatch, the
    upload stage is entered iff the configured direction is
    [bidirectional] or [upload-only]; the download stage is entered, and
    the request that lists the remote files is sent, iff it is
    [bidirectional] or [download-only]; so with [upload-only] no listing
    request is made and with [download-only] the upload stage is not
    entered.  When no direction is configured both stages run. *)
Theorem sync_direction_dispatch env st sec token s1 d :
  reaches_dispatch env st sec token s1 →
  configured_direction st d →
  let events := log (run (sync_handler env) st sec).2 in
  (Entered "syncUpload" ∈ events ↔ d = "bidirectional" ∨ d = "upload-only")
  ∧ (Entered "syncDownload" ∈ events ↔ d = "bidirectional" ∨ d = "download-only")
  ∧ ((∃ req, Fetched req ∈ events ∧ url req = FILES_URL)
     ↔ d = "bidirectional" ∨ d = "download-only")
  ∧ ((∀ c, st !! "config" = Some (VConfig c) → truthy_str (syncDirection c) = false) →
     Entered "syncUpload" ∈ events ∧ Entered "syncDownload" ∈ events
     ∧ ∃ req, Fetched req ∈ events ∧ url req = FILES_URL).
Proof.
  intros Hr Hd events.
  destruct (dispatch_events env st sec token s1 Hr) as (Hup & Hdown & Hlist & _).
  fold events in Hup, Hdown, Hlist.
  pose proof (proj1 (configured_direction_of st d) Hd) as Heq. rewrite <- Heq in *.
  split; [exact Hup|]. split; [exact Hdown|]. split; [exact Hlist|].
  intros Hunset.
  pose proof (proj1 (configured_direction_of st "bidirectional") (direction_unset st Hunset))
    as Hb.
  rewrite <- Heq in Hb. subst d.
  split; [apply Hup; by left|]. split; [apply Hdown; by left | apply Hlist; by left].
Qed.

(** The sync handler never throws: it answers 401 or the sync result. *)
Lemma sync_handler_cases env st sec :
  (truthy_val (st !! "connected") = false
   ∧ run (sync_handler env) st sec = (Ok (Error "Not connected to Google Drive" 401), start st sec))
  ∨ (∃ t s1, truthy_val (st !! "connected") = true
      ∧ getValidAccessToken env (start st sec) = (Ok t, s1) ∧ truthy_str t = false
      ∧ run (sync_handler env) st sec
        = (Ok (Error "Failed to get access token. Please reconnect." 401), s1))
  ∨ (∃ token s1, reaches_dispatch env st sec token s1).
Proof.
  destruct (truthy_val (st !! "connected")) eqn:Hc.
  - right. destruct (getValidAccessToken_total env (start st sec)) as (t & s1 & Hv).
    destruct (truthy_str t) eqn:Ht.
    + right. destruct t as [token|]; [|discriminate]. exists token, s1.
      repeat split; [done..|]. intros ->. discriminate.
    + left. exists t, s1. repeat split; [done..|].
      unfold run, sync_handler, try_catch, bind. run_prims. rewrite Hc. run_prims.
      now rewrite Hv, Ht.
  - left. split; [done|].
    unfold run, sync_handler, try_catch, bind. run_prims. now rewrite Hc.
Qed.

Lemma sample_reaches_dispatch :
  reaches_dispatch online live_storage full_secrets "old-token"
    (stepped (start live_storage full_secrets)).
Proof. by repeat split. Qed.

Lemma sync_direction_dispatch_witness :
  let events := log (run (sync_handler online) upload_only_storage full_secrets).2 in
  let d := "upload-only" in
  (Entered "syncUpload" ∈ events ↔ d = "bidirectional" ∨ d = "upload-only")
  ∧ (Entered "syncDownload" ∈ events ↔ d = "bidirectional" ∨ d = "download-only")
  ∧ ((∃ req, Fetched req ∈ events ∧ url req = FILES_URL)
     ↔ d = "bidirectional" ∨ d = "download-only")
  ∧ ((∀ c, upload_only_storage !! "config" = Some (VConfig c)
           → truthy_str (syncDirection c) = false) →
     Entered "syncUpload" ∈ events ∧ Entered "syncDownload" ∈ events
     ∧ ∃ req, Fetched req ∈ events ∧ url req = FILES_URL).
Proof.
  apply (sync_direction_dispatch online upload_only_storage full_secrets "old-token"
           (stepped (start upload_only_storage full_secrets)) "upload-only").
  - by repeat split.
  - apply (direction_set upload_only_storage
             {| syncDirection := Some "upload-only"; excludePatterns := None |} "upload-only");
      [reflexivity | reflexivity | discriminate].
Defined.

End SyncFacts.

(** ** Facts about the disconnect handler *)

Module DisconnectFacts.
Import Runtime Handlers MonadFacts.

(** Deleting a list of keys one by one. *)
Lemma for_each_delete keys s :
  ∃ s', for_each keys storage_delete s = (Ok tt, s')
        ∧ secrets s' = secrets s ∧ log s' = log s
        ∧ ∀ k, storage s' !! k = if decide (k ∈ keys) then None else storage s !! k.
Proof.
  revert s. induction keys as [|key keys IH]; intros s.
  - exists s. repeat split; intros k; by rewrite decide_False by apply not_elem_of_nil.
  - cbn [for_each]. unfold bind at 1. run_prims.
    destruct (IH (with_storage (delete key) s)) as (s' & -> & Hsec & Hlog & Hst).
    exists s'. repeat split; [done..|]. intros k. rewrite Hst. cbn [with_storage storage].
    destruct (decide (k = key)) as [->|Hne].
    + rewrite (decide_True (P := key ∈ key :: keys)) by left.
      case_decide; [done | apply lookup_delete_eq].
    + rewrite lookup_delete_ne by done.
      destruct (decide (k ∈ keys)) as [Hin|Hnin].
      * by rewrite decide_True by by right.
      * rewrite decide_False; [done|]. by intros [?|?]%elem_of_cons.
Qed.

(** The keys that [api.storage.list(prefix)] returns. *)
Lemma elem_of_keys_with_prefix {V} prefix (m : gmap string V) k :
  k ∈ keys_with_prefix prefix m ↔ String.prefix prefix k = true ∧ is_Some (m !! k).
Proof.
  unfold keys_with_prefix. rewrite list_elem_of_In, filter_In, <- list_elem_of_In.
  rewrite list_elem_of_fmap. split.
  - intros [([k' v] & -> & Hin%elem_of_map_to_list) Hp]. split; [done | by exists v].
  - intros [Hp [v Hv]]. split; [|done]. exists (k, v). split; [done|].
    by apply elem_of_map_to_list.
Qed.

(** The revocation attempt changes neither store, whatever comes back. *)
Lemma revoke_attempt env (accessToken : option string) s :
  ∃ s',
    (if truthy_str accessToken then
       try_catch
         (bind (fetch (revokeEndpoint env)
                  (post_form (GOOGLE_REVOKE_URL +:+ encodeURIComponent env (interpolate accessToken)) []))
               (λ _, ret tt))
         (λ _, ret tt)
     else ret tt) s = (Ok tt, s')
    ∧ storage s' = storage s ∧ secrets s' = secrets s.
Proof.
  destruct (truthy_str accessToken); [|by exists s].
  unfold try_catch, bind, fetch.
  destruct (revokeEndpoint env _ _) as [msg|ok body]; run_prims; by eexists.
Qed.

(** What the disconnect handler does to the stores. *)
Lemma disconnect_run env s :
  ∃ s', disconnect_handler env s
        = (Ok (Json (DisconnectData true "Successfully disconnected from Google Drive")), s')
    ∧ secrets s' = delete "refresh_token" (delete "access_token" (secrets s))
    ∧ ∀ k, storage s' !! k =
           if decide (k ∈ keysToDelete) then None
           else if String.prefix "oauth_state_" k then None
           else storage s !! k.
Proof.
  unfold disconnect_handler.
  rewrite try_catch_run, bind_run. run_prims. rewrite bind_run.
  destruct (revoke_attempt env (secrets s !! "access_token") s) as (s1 & -> & Hst1 & Hsec1).
  run_prims. rewrite bind_run.
  destruct (for_each_delete keysToDelete
              (with_secrets (delete "refresh_token") (with_secrets (delete "access_token") s1)))
    as (s2 & -> & Hsec2 & _ & Hst2).
  run_prims. rewrite bind_run.
  destruct (for_each_delete (keys_with_prefix "oauth_state_" (storage s2)) s2)
    as (s3 & -> & Hsec3 & _ & Hst3).
  run_prims. exists s3. split; [done|]. cbn [with_secrets secrets storage] in *. split.
  - by rewrite Hsec3, Hsec2, Hsec1.
  - intros k. rewrite Hst3, Hst2, Hst1.
    destruct (decide (k ∈ keysToDelete)) as [Hk|Hk].
    + by case_decide.
    + destruct (String.prefix "oauth_state_" k) eqn:Hp.
      * case_decide as Hin; [done|]. destruct (storage s !! k) as [v|] eqn:Hv; [|done].
        destruct Hin. apply elem_of_keys_with_prefix. split; [done|].
        rewrite Hst2, decide_False, Hst1, Hv by done. by eexists.
      * case_decide as Hin; [|done].
        apply elem_of_keys_with_prefix in Hin as [Hp' _]. congruence.
Qed.

(** C7.  Every run of the disconnect handler, whether the revocation
    request is answered, refused or throws, answers with success and
    leaves the stores without [access_token] and [refresh_token], without
    [connected], [connected_at], [token_expires_at], [user_email],
    [user_name], [user_picture], [last_sync_at], [last_sync_result] and
    [sync_cursor], and without any key that starts with [oauth_state_];
    every other entry is left as it was. *)
Theorem disconnect_clears_local_state env st sec :
  let result := run (disconnect_handler env) st sec in
  let fixed := ["connected"; "connected_at"; "token_expires_at"; "user_email"; "user_name";
                "user_picture"; "last_sync_at"; "last_sync_result"; "sync_cursor"] in
  result.1 = Ok (Json (DisconnectData true "Successfully disconnected from Google Drive"))
  ∧ secrets result.2 !! "access_token" = None
  ∧ secrets result.2 !! "refresh_token" = None
  ∧ (∀ k, k ∈ fixed → storage result.2 !! k = None)
  ∧ (∀ k, String.prefix "oauth_state_" k = true → storage result.2 !! k = None)
  ∧ (∀ k, k ∉ fixed → String.prefix "oauth_state_" k = false →
          storage result.2 !! k = st !! k)
  ∧ (∀ k, k ≠ "access_token" → k ≠ "refresh_token" → secrets result.2 !! k = sec !! k).
Proof.
  intros result fixed. change fixed with keysToDelete. clear fixed. unfold result, run.
  destruct (disconnect_run env (start st sec)) as (s' & -> & Hsec & Hst).
  cbn [fst snd start secrets storage] in *. rewrite Hsec.
  split; [done|]. split; [by rewrite lookup_delete_ne, lookup_delete_eq|].
  split; [apply lookup_delete_eq|]. split; [|split; [|split]].
  - intros k Hk. by rewrite Hst, decide_True.
  - intros k Hp. rewrite Hst, Hp. by case_decide.
  - intros k Hk Hp. by rewrite Hst, decide_False, Hp.
  - intros k H1 H2. by rewrite !lookup_delete_ne.
Qed.

End DisconnectFacts.

(** ** The connection flag across handlers *)

Module ConnectionFacts.
Import Runtime Handlers MonadFacts StatusFacts SyncFacts.

(** The sync handler when the refresh it attempts fails. *)
Lemma sync_handler_failed_refresh env st sec token expires :
  truthy_val (st !! "connected") = true →
  sec !! "access_token" = Some token → token ≠ "" →
  st !! "token_expires_at" = Some (VNum expires) → expires ≠ 0 →
  expires - 60000 ≤ clock env 0 →
  refresh_fails env (stepped (start st sec)) →
  ∃ s', run (sync_handler env) st sec
        = (Ok (Error "Failed to get access token. Please reconnect." 401), s')
        ∧ storage s' = st ∧ secrets s' = sec.
Proof.
  intros Hc Htok Hne Hexp Hnz Hdue Hfail.
  destruct (refreshed_token_fails env _ Hfail) as (s' & Hrun & Hst & Hsec).
  unfold run, sync_handler, try_catch, bind. run_prims.
  rewrite Hc. run_prims. unfold getValidAccessToken, bind. run_prims.
  rewrite Hexp, Htok, (truthy_str_Some _ Hne).
  cbn [negb andb truthy to_number num_sub num_lt].
  destruct (Z.eqb_spec expires 0); [done|]. cbn [negb].
  change (steps (start st sec)) with 0%nat.
  destruct (Z.ltb_spec (clock env 0) (expires - 5 * 60 * 1000)); [lia|].
  rewrite Hrun. cbn [truthy_str negb]. by eexists.
Qed.

(** C3 (as amended).  When [connected] is set, an access token is
    stored, the stored expiry is within 60 seconds of the clock or past,
    and the refresh fails: the status handler stores [connected = false]
    before it answers with the disconnected shape; the sync handler
    answers with status 401 and leaves storage, [connected] included, as
    it was. *)
Theorem lost_token_handling env st sec token expires :
  truthy_val (st !! "connected") = true →
  sec !! "access_token" = Some token → token ≠ "" →
  st !! "token_expires_at" = Some (VNum expires) → expires ≠ 0 →
  expires - 60000 ≤ clock env 0 →
  refresh_fails env (stepped (start st sec)) →
  let status := run (status_handler env) st sec in
  let sync := run (sync_handler env) st sec in
  (status.1 = Ok (Json (StatusData disconnected_status))
   ∧ storage status.2 !! "connected" = Some (VBool false))
  ∧ (sync.1 = Ok (Error "Failed to get access token. Please reconnect." 401)
     ∧ storage sync.2 = st).
Proof.
  intros Hc Htok Hne Hexp Hnz Hdue Hfail status sync.
  destruct (status_handler_failed_refresh env st sec token expires)
    as (s1 & Hrun1 & Hst1 & _); [done..|].
  destruct (sync_handler_failed_refresh env st sec token expires)
    as (s2 & Hrun2 & Hst2 & _); [done..|].
  unfold status, sync. rewrite Hrun1, Hrun2. cbn [fst snd]. rewrite Hst1, Hst2.
  repeat split. apply lookup_insert_eq.
Qed.

Lemma lost_token_handling_witness :
  let status := run (status_handler unauthorized) stale_storage full_secrets in
  let sync := run (sync_handler unauthorized) stale_storage full_secrets in
  (status.1 = Ok (Json (StatusData disconnected_status))
   ∧ storage status.2 !! "connected" = Some (VBool false))
  ∧ (sync.1 = Ok (Error "Failed to get access token. Please reconnect." 401)
     ∧ storage sync.2 = stale_storage).
Proof.
  apply (lost_token_handling unauthorized stale_storage full_secrets
           "old-token" 1600000000000).
  - reflexivity.
  - reflexivity.
  - discriminate.
  - reflexivity.
  - discriminate.
  - cbn. lia.
  - apply unauthorized_refresh_fails.
Defined.

(** C3 (as stated) fails: on a connected account whose token has expired
    and whose refresh is refused with 401, the sync handler returns
    without resetting [connected]. *)
Lemma sync_keeps_connected_flag :
  let result := run (sync_handler unauthorized) stale_storage full_secrets in
  truthy_val (stale_storage !! "connected") = true
  ∧ refresh_fails unauthorized (stepped (start stale_storage full_secrets))
  ∧ result.1 = Ok (Error "Failed to get access token. Please reconnect." 401)
  ∧ storage result.2 !! "connected" = Some (VBool true).
Proof.
  split; [reflexivity|]. split; [apply unauthorized_refresh_fails|]. by vm_compute.
Qed.

End ConnectionFacts.

(** ** More on the exclusion patterns *)

Module PatternFacts.
Import Glob Vocabulary GlobFacts.

Lemma terms_of_literal_match glob : ∀ f,
  literal glob = true →
  (match_terms true (terms_of glob) f = true ↔ caseless glob = caseless f).
Proof.
  induction glob as [|c g IH]; intros f Hl.
  - destruct f; cbn; split; done.
  - cbn [literal] in Hl. apply andb_true_iff in Hl as [[Hs Hq]%andb_true_iff Hl].
    apply negb_true_iff in Hs, Hq.
    cbn [terms_of caseless]. unfold term_of. rewrite Hs, Hq.
    destruct f as [|x f]; [split; discriminate|].
    cbn [match_terms atom_matches char_matches caseless].
    rewrite andb_true_iff, Ascii.eqb_eq, (IH f Hl). split.
    + intros [-> ->]. reflexivity.
    + intros [= -> ->]. done.
Qed.

(** A glob without wildcards matches exactly the names that are equal to
    it up to letter case: every regular-expression metacharacter in it
    stands for itself. *)
Theorem literal_glob_matches_itself_only glob f :
  literal glob = true →
  (test (globToRegex glob) f = true ↔ caseless glob = caseless f).
Proof. intros Hl. rewrite test_terms. by apply terms_of_literal_match. Qed.

Lemma literal_glob_matches_itself_only_witness :
  test (globToRegex "a+b(1).[x]") "A+B(1).[X]" = true
  ↔ caseless "a+b(1).[x]" = caseless "A+B(1).[X]".
Proof. apply (literal_glob_matches_itself_only "a+b(1).[x]" "A+B(1).[X]"). reflexivity. Defined.

Lemma star_not_terminator : no_line_terminator "*" = true.
Proof. reflexivity. Qed.

(** Every glob matches the name that is spelled like it. *)
Theorem glob_matches_own_spelling glob : test (globToRegex glob) glob = true.
Proof.
  rewrite test_terms. apply spec_sound.
  induction glob as [|c g IH]; [apply glob_end|].
  destruct (Ascii.eqb_spec c "*") as [->|Hs]; [|destruct (Ascii.eqb_spec c "?") as [->|Hq]].
  - apply glob_star_more; [reflexivity|]. apply glob_star_none, IH.
  - apply glob_qmark; [reflexivity | exact IH].
  - apply glob_literal; [done..|exact IH].
Qed.

Lemma terminator_caseless c : is_line_terminator (canonicalize c) = is_line_terminator c.
Proof. each_char c; reflexivity. Qed.

Lemma atom_matches_caseless a x y :
  canonicalize x = canonicalize y → atom_matches true a x = atom_matches true a y.
Proof.
  intros H. destruct a as [c|]; cbn [atom_matches char_matches]; [by rewrite H|].
  by rewrite <- (terminator_caseless x), H, terminator_caseless.
Qed.

Lemma match_terms_caseless ts : ∀ f f',
  caseless f = caseless f' → match_terms true ts f = match_terms true ts f'.
Proof.
  induction ts as [|[a|a] ts IH]; intros f f' H.
  - destruct f, f'; done.
  - destruct f as [|x f], f' as [|y f']; try done. cbn [caseless] in H.
    injection H as Hc H. cbn [match_terms]. by rewrite (atom_matches_caseless a x y Hc), (IH f f' H).
  - revert f' H. induction f as [|x f IHf]; intros [|y f'] H; try done.
    cbn [caseless] in H. injection H as Hc H.
    rewrite (match_many _ _ _ (String x f)), (match_many _ _ _ (String y f')).
    rewrite (atom_matches_caseless a x y Hc), (IHf f' H).
    f_equal. apply IH. cbn [caseless]. by rewrite Hc, H.
Qed.

(** Matching ignores the letter case of the name: two names that are
    equal up to case are matched by the same patterns, and excluded by
    the same lists of patterns. *)
Theorem exclusion_ignores_case f f' :
  caseless f = caseless f' →
  (∀ glob, test (globToRegex glob) f = test (globToRegex glob) f')
  ∧ (∀ patterns, shouldExclude f patterns = shouldExclude f' patterns).
Proof.
  intros H.
  assert (∀ glob, test (globToRegex glob) f = test (globToRegex glob) f') as Ht.
  { intros glob. rewrite !test_terms. by apply match_terms_caseless. }
  split; [exact Ht|]. induction patterns as [|p ps IH]; [done|].
  cbn [shouldExclude]. by rewrite Ht, IH.
Qed.

Lemma exclusion_ignores_case_witness :
  (∀ glob, test (globToRegex glob) "Draft.TMP" = test (globToRegex glob) "draft.tmp")
  ∧ (∀ patterns, shouldExclude "Draft.TMP" patterns = shouldExclude "draft.tmp" patterns).
Proof. apply (exclusion_ignores_case "Draft.TMP" "draft.tmp"). reflexivity. Defined.

Lemma terms_of_star ext : terms_of (String "*" ext) = Many Dot :: terms_of ext.
Proof. reflexivity. Qed.

(** A pattern [*] followed by literal text matches exactly the names that
    end with that text, letter case ignored, after a beginning without
    line terminators: [*.tmp] excludes every [.tmp] file. *)
Theorem star_prefix_matches_endings ext f :
  literal ext = true →
  (test (globToRegex (String "*" ext)) f = true
   ↔ ∃ stem ending, f = stem +:+ ending ∧ single_line stem = true
                    ∧ caseless ending = caseless ext).
Proof.
  intros Hl. rewrite test_terms, terms_of_star.
  induction f as [|x f IH]; rewrite match_many.
  - rewrite (terms_of_literal_match ext "" Hl). split.
    + intros H. by exists "", "".
    + intros ([|y stem] & ending & Hf & _ & He); [|discriminate].
      change ("" +:+ ending) with ending in Hf. by subst ending.
  - rewrite orb_true_iff, andb_true_iff, IH, (terms_of_literal_match ext _ Hl). split.
    + intros [[Hx (stem & ending & -> & Hs & He)]|H].
      * exists (String x stem), ending. repeat split; [|done].
        cbn [single_line]. by rewrite Hs, andb_true_r.
      * by exists "", (String x f).
    + intros ([|y stem] & ending & Hf & Hs & He).
      * right. change ("" +:+ ending) with ending in Hf. by subst ending.
      * left. rewrite string_app_cons in Hf. injection Hf as -> ->.
        cbn [single_line] in Hs. apply andb_true_iff in Hs as [Hy Hs].
        split; [exact Hy|]. by exists stem, ending.
Qed.

Lemma star_prefix_matches_endings_witness :
  test (globToRegex "*.tmp") "Report.TMP" = true
  ↔ ∃ stem ending, "Report.TMP" = stem +:+ ending ∧ single_line stem = true
                   ∧ caseless ending = caseless ".tmp".
Proof. apply (star_prefix_matches_endings ".tmp" "Report.TMP"). reflexivity. Defined.

Lemma starless_terms_length glob : ∀ f,
  starless glob = true → match_terms true (terms_of glob) f = true →
  String.length f = String.length glob.
Proof.
  induction glob as [|c g IH]; intros f Hs Hm.
  - by destruct f.
  - cbn [starless] in Hs. apply andb_true_iff in Hs as [Hc Hs].
    apply negb_true_iff in Hc. cbn [terms_of] in Hm. unfold term_of in Hm.
    rewrite Hc in Hm.
    destruct f as [|x f]; [by destruct (Ascii.eqb c "?")|].
    cbn [String.length]. f_equal. apply IH; [exact Hs|].
    destruct (Ascii.eqb c "?"); cbn [match_terms] in Hm;
      by apply andb_true_iff in Hm as [_ Hm].
Qed.

(** A pattern without [*] only matches names of its own length: [?]
    stands for exactly one character. *)
Theorem starless_glob_fixes_length glob f :
  starless glob = true → test (globToRegex glob) f = true →
  String.length f = String.length glob.
Proof. rewrite test_terms. apply starless_terms_length. Qed.

Lemma starless_glob_fixes_length_witness :
  String.length "v1.log" = String.length "v?.log".
Proof. apply (starless_glob_fixes_length "v?.log" "v1.log"); reflexivity. Defined.

(** No name is excluded by an empty list of patterns, and a name that is
    excluded stays excluded when patterns are added, reordered or
    repeated. *)
Theorem exclusion_grows_with_patterns f patterns patterns' :
  (∀ p, p ∈ patterns → p ∈ patterns') →
  shouldExclude f [] = false
  ∧ (shouldExclude f patterns = true → shouldExclude f patterns' = true).
Proof.
  intros Hsub. split; [reflexivity|]. rewrite !shouldExclude_exists.
  intros (p & Hp & Ht). exists p. split; [by apply Hsub | exact Ht].
Qed.

Lemma exclusion_grows_with_patterns_witness :
  shouldExclude "a.tmp" [] = false
  ∧ (shouldExclude "a.tmp" ["*.tmp"] = true
     → shouldExclude "a.tmp" ["*.bak"; "*.tmp"; "*.bak"] = true).
Proof.
  apply (exclusion_grows_with_patterns "a.tmp" ["*.tmp"] ["*.bak"; "*.tmp"; "*.bak"]).
  intros p ->%list_elem_of_singleton. right. left.
Defined.

End PatternFacts.

(** ** The connect handler and its state token *)

Module StateTokenFacts.
Import Runtime Handlers Vocabulary MonadFacts CallbackFacts.

Lemma hex_digit_is_hex n : (n < 16)%N → is_hex (hex_digit n) = true.
Proof.
  intros Hn.
  assert (In n (map N.of_nat (seq 0 16))) as Hin.
  { apply in_map_iff. exists (N.to_nat n). split; [lia | apply in_seq; lia]. }
  cbn in Hin. repeat (destruct Hin as [<-|Hin]; [reflexivity|]). destruct Hin.
Qed.

Lemma byte_hex_is_hex b s :
  (b < 256)%N →
  String.length (byte_hex b +:+ s) = S (S (String.length s))
  ∧ all_hex (byte_hex b +:+ s) = all_hex s.
Proof.
  intros Hb. unfold byte_hex. split; [reflexivity|].
  change (all_hex (String (hex_digit (b / 16)) (String (hex_digit (b mod 16)) s)) = all_hex s).
  cbn [all_hex]. rewrite !hex_digit_is_hex; [done | |].
  - apply N.mod_lt. lia.
  - apply N.Div0.div_lt_upper_bound. lia.
Qed.

Lemma bytes_hex (bytes : list N) :
  Forall (λ b, (b < 256)%N) bytes →
  String.length (fold_right String.app EmptyString (byte_hex <$> bytes)) = (2 * length bytes)%nat
  ∧ all_hex (fold_right String.app EmptyString (byte_hex <$> bytes)) = true.
Proof.
  induction 1 as [|b bytes Hb _ [IHl IHh]]; [done|].
  cbn [fmap list_fmap fold_right length].
  destruct (byte_hex_is_hex b (fold_right String.app EmptyString (byte_hex <$> bytes)) Hb)
    as [Hl Hh].
  rewrite Hl, Hh, IHl. split; [lia | exact IHh].
Qed.


(** The state token is always 64 characters long, each of them one of
    the digits [0]-[9], [a]-[f]; in particular it is never empty. *)
Theorem state_token_is_64_hex_digits env s :
  ∃ token, generateStateToken env s = (Ok token, stepped s)
           ∧ String.length token = 64%nat ∧ all_hex token = true ∧ token ≠ "".
Proof.
  unfold generateStateToken. eexists. split; [reflexivity|].
  match goal with |- context [byte_hex <$> ?l] => destruct (bytes_hex l) as [Hl Hh] end.
  { apply Forall_fmap, Forall_forall. intros i _. cbn. apply N.mod_lt. lia. }
  rewrite length_fmap, length_seq in Hl. split; [exact Hl|]. split; [exact Hh|].
  intros Hempty. by rewrite Hempty in Hl.
Qed.

(** Without a client id the connect handler answers 400 and does
    nothing else: no state record is stored and no token is generated. *)
Theorem connect_needs_client_id env req st sec :
  truthy_str (sec !! "GOOGLE_CLIENT_ID") = false →
  run (connect_handler env req) st sec
  = (Ok (Error "Google Drive is not configured. Please set up OAuth credentials in the organization settings." 400),
     start st sec).
Proof.
  intros Hc. unfold run, connect_handler. rewrite try_catch_run, bind_run. run_prims.
  now rewrite Hc.
Qed.

Lemma connect_needs_client_id_witness :
  run (connect_handler offline sample_callback) ∅ ∅
  = (Ok (Error "Google Drive is not configured. Please set up OAuth credentials in the organization settings." 400),
     start ∅ ∅).
Proof. apply (connect_needs_client_id offline sample_callback ∅ ∅). reflexivity. Defined.



End StateTokenFacts.

(** ** The callback, outcome by outcome *)

Module ExchangeFacts.
Import Runtime Handlers Vocabulary MonadFacts CallbackFacts.

(** The state of a run after an accepted state check. *)
Lemma ready_verified env req st sec state code clientId clientSecret :
  ready_to_exchange env req st sec state code clientId clientSecret →
  callback_verify env req (start st sec)
  = (Ok (inr code), with_storage (delete (state_key state)) (stepped (start st sec))).
Proof.
  intros (Hp & Hcode & (created & uid & Hst & Hage) & _).
  rewrite (callback_verify_fresh env req state (start st sec) created uid Hp Hst Hage).
  by rewrite Hcode.
Qed.

(** The exchange of the code, answer by answer. *)
Lemma exchange_anatomy env req code clientId clientSecret s :
  secrets s !! "GOOGLE_CLIENT_ID" = Some clientId → clientId ≠ "" →
  secrets s !! "GOOGLE_CLIENT_SECRET" = Some clientSecret → clientSecret ≠ "" →
  callback_exchange env req code s = exchange_result env req code clientId clientSecret s.
Proof.
  intros Hid Hidn Hsec Hsecn. unfold callback_exchange, exchange_result. run_prims.
  rewrite Hid, Hsec, (truthy_str_Some _ Hidn), (truthy_str_Some _ Hsecn).
  cbn [negb orb interpolate]. rewrite bind_run. unfold fetch at 1. run_prims.
  fold (exchange_request req code clientId clientSecret).
  destruct (tokenEndpoint env (steps s) _) as [msg|[] [tokens|]]; run_prims; try reflexivity.
  rewrite bind_run.
  destruct (truthy_str (refresh_token tokens)); run_prims;
    rewrite bind_run; unfold fetch at 1; run_prims;
    fold (userinfo_request (access_token tokens));
    (destruct (userinfoEndpoint env (S (S (steps s))) _) as [msg|[] [info|]];
       run_prims; try reflexivity);
    rewrite bind_run; run_prims;
    (destruct (truthy_str (picture info)); run_prims; reflexivity).
Qed.

Lemma exchange_without_credentials env req code s :
  truthy_str (secrets s !! "GOOGLE_CLIENT_ID") = false
  ∨ truthy_str (secrets s !! "GOOGLE_CLIENT_SECRET") = false →
  callback_exchange env req code s = (Ok (Error "OAuth credentials not configured" 500), s).
Proof.
  intros H. unfold callback_exchange. run_prims.
  destruct H as [-> | ->]; cbn [negb orb]; [done|].
  by destruct (truthy_str _).
Qed.

(** The handler once the state check has passed. *)
Lemma ready_handler env req st sec state code clientId clientSecret :
  ready_to_exchange env req st sec state code clientId clientSecret →
  run (callback_handler env req) st sec
  = match exchange_result env req code clientId clientSecret
            (with_storage (delete (state_key state)) (stepped (start st sec))) with
    | (Ok r, s) => (Ok r, s)
    | (Thrown _, s) => (Ok (error_redirect env "An unexpected error occurred"), s)
    end.
Proof.
  intros Hr. pose proof (ready_verified _ _ _ _ _ _ _ _ Hr) as Hv.
  destruct Hr as (_ & _ & _ & Hid & Hidn & Hsec & Hsecn).
  unfold run, callback_handler. rewrite try_catch_run, bind_run, Hv.
  by rewrite (exchange_anatomy env req code clientId clientSecret).
Qed.

(** A provider error, a missing code or a missing state ends the
    callback before the state is looked up: the answer is the error
    redirect or a 400, no request is sent and both stores, the state
    record included, are left as they were. *)
Theorem callback_early_rejections env req st sec :
  let result := run (callback_handler env req) st sec in
  (truthy_str (q_error req) = true →
     result = (Ok (error_redirect env
                     (interpolate (or_else (q_error_description req) (q_error req)))),
               start st sec))
  ∧ (truthy_str (q_error req) = false → truthy_str (q_code req) = false →
     result = (Ok (Error "Missing authorization code" 400), start st sec))
  ∧ (truthy_str (q_error req) = false → truthy_str (q_code req) = true →
     truthy_str (q_state req) = false →
     result = (Ok (Error "Missing state parameter" 400), start st sec)).
Proof.
  intros result. unfold result, run, callback_handler.
  rewrite try_catch_run, bind_run. unfold callback_verify. split; [|split].
  - intros ->. reflexivity.
  - intros -> ->. reflexivity.
  - intros -> -> ->. reflexivity.
Qed.

Lemma callback_early_rejections_witness :
  run (callback_handler offline
         {| q_code := None; q_state := Some "abc"; q_error := Some "access_denied";
            q_error_description := None; h_origin := None; h_host := None;
            user_id := None |}) (pending_storage 1699999990000) ∅
  = (Ok (error_redirect offline "access_denied"), start (pending_storage 1699999990000) ∅).
Proof.
  apply (proj1 (callback_early_rejections offline
           {| q_code := None; q_state := Some "abc"; q_error := Some "access_denied";
              q_error_description := None; h_origin := None; h_host := None;
              user_id := None |} (pending_storage 1699999990000) ∅)).
  reflexivity.
Defined.

(** When the state check has passed and the token endpoint refuses the
    code, throws or answers with a body that does not parse, the callback
    answers with an error redirect; the state record is gone, nothing
    else in storage has changed and the secret store is untouched. *)
Theorem callback_failed_exchange env req st sec state code clientId clientSecret :
  ready_to_exchange env req st sec state code clientId clientSecret →
  (∀ tokens, tokenEndpoint env 1 (exchange_request req code clientId clientSecret)
             ≠ Reply true (Some tokens)) →
  let result := run (callback_handler env req) st sec in
  (result.1 = Ok (error_redirect env "Failed to exchange authorization code")
   ∨ result.1 = Ok (error_redirect env "An unexpected error occurred"))
  ∧ storage result.2 = delete (state_key state) st
  ∧ secrets result.2 = sec
  ∧ log result.2 = [Fetched (exchange_request req code clientId clientSecret)].
Proof.
  intros Hr Hno result. unfold result. rewrite (ready_handler _ _ _ _ _ _ _ _ Hr).
  unfold exchange_result. cbn [steps stepped with_storage start].
  destruct (tokenEndpoint env 1 _) as [msg|[] [tokens|]] eqn:Ht; cbn; auto.
  by destruct (Hno tokens).
Qed.

(** When the state check has passed, the token endpoint hands out tokens
    and the profile request is answered (with or without a profile), the
    callback redirects to the success page, having stored the access
    token, the refresh token if one was sent, the expiry computed from
    the clock, and [connected = true]. *)
Theorem callback_connects env req st sec state code clientId clientSecret tokens :
  ready_to_exchange env req st sec state code clientId clientSecret →
  tokenEndpoint env 1 (exchange_request req code clientId clientSecret)
    = Reply true (Some tokens) →
  (∀ msg, userinfoEndpoint env 3 (userinfo_request (access_token tokens)) ≠ NetworkError msg) →
  userinfoEndpoint env 3 (userinfo_request (access_token tokens)) ≠ Reply true None →
  exact_expiry (clock env 2) (expires_in tokens) →
  let result := run (callback_handler env req) st sec in
  result.1 = Ok success_redirect
  ∧ secrets result.2 !! "access_token" = Some (access_token tokens)
  ∧ secrets result.2 !! "refresh_token"
    = (if truthy_str (refresh_token tokens) then refresh_token tokens
       else sec !! "refresh_token")
  ∧ storage result.2 !! "token_expires_at"
    = Some (VNum (clock env 2 + expires_in tokens * 1000))
  ∧ storage result.2 !! "connected" = Some (VBool true)
  ∧ storage result.2 !! "connected_at" = Some (VStr (toISOString env (clock env 4)))
  ∧ storage result.2 !! state_key state = None.
Proof.
  intros Hr Htok Hthrow Hparse _ result. unfold result.
  rewrite (ready_handler _ _ _ _ _ _ _ _ Hr).
  unfold exchange_result. cbn [steps stepped with_storage start]. rewrite Htok.
  assert (state_key state ≠ "connected_at" ∧ state_key state ≠ "connected"
          ∧ state_key state ≠ "user_picture" ∧ state_key state ≠ "user_name"
          ∧ state_key state ≠ "user_email" ∧ state_key state ≠ "token_expires_at")
    as (?&?&?&?&?&?) by (unfold state_key; repeat split; discriminate).
  destruct (userinfoEndpoint env 3 _) as [msg|[] [info|]] eqn:Hu;
    [by destruct (Hthrow msg) | | by destruct Hparse | | ];
    destruct (truthy_str (refresh_token tokens)) eqn:Hrt; try destruct (truthy_str (picture info));
    cbn [fst snd storage secrets with_storage with_secrets stepped logged];
    (split; [reflexivity|]);
    (split; [by simplify_map_eq|]);
    (split; [destruct (refresh_token tokens); by simplify_map_eq|]);
    (split; [by simplify_map_eq|]); (split; [by simplify_map_eq|]);
    (split; [by simplify_map_eq|]); by simplify_map_eq.
Qed.

Lemma sample_ready env :
  clock env 0 = 1700000000000 →
  ready_to_exchange env sample_callback (pending_storage 1699999990000) client_secrets
    "abc" "code" "client" "secret".
Proof.
  intros Hclock. split; [apply sample_callback_presents|]. split; [reflexivity|]. split.
  - exists 1699999990000, None. split; [reflexivity | rewrite Hclock; lia].
  - by repeat split.
Qed.

Lemma callback_failed_exchange_witness :
  let result := run (callback_handler unauthorized sample_callback)
                  (pending_storage 1699999990000) client_secrets in
  (result.1 = Ok (error_redirect unauthorized "Failed to exchange authorization code")
   ∨ result.1 = Ok (error_redirect unauthorized "An unexpected error occurred"))
  ∧ storage result.2 = delete (state_key "abc") (pending_storage 1699999990000)
  ∧ secrets result.2 = client_secrets
  ∧ log result.2 = [Fetched (exchange_request sample_callback "code" "client" "secret")].
Proof.
  apply (callback_failed_exchange unauthorized sample_callback
           (pending_storage 1699999990000) client_secrets "abc" "code" "client" "secret").
  - by apply sample_ready.
  - intros tokens. discriminate.
Defined.

Lemma callback_connects_witness :
  let tokens := {| access_token := "fresh-token"; refresh_token := None; expires_in := 3600 |} in
  let result := run (callback_handler online sample_callback)
                  (pending_storage 1699999990000) client_secrets in
  result.1 = Ok success_redirect
  ∧ secrets result.2 !! "access_token" = Some (access_token tokens)
  ∧ secrets result.2 !! "refresh_token"
    = (if truthy_str (refresh_token tokens) then refresh_token tokens
       else client_secrets !! "refresh_token")
  ∧ storage result.2 !! "token_expires_at"
    = Some (VNum (clock online 2 + expires_in tokens * 1000))
  ∧ storage result.2 !! "connected" = Some (VBool true)
  ∧ storage result.2 !! "connected_at" = Some (VStr (toISOString online (clock online 4)))
  ∧ storage result.2 !! state_key "abc" = None.
Proof.
  intros tokens.
  apply (callback_connects online sample_callback (pending_storage 1699999990000)
           client_secrets "abc" "code" "client" "secret" tokens).
  - by apply sample_ready.
  - reflexivity.
  - intros msg. discriminate.
  - discriminate.
  - unfold exact_expiry, safe_integer, MAX_SAFE_INTEGER. cbn. lia.
Defined.

(** The tokens are stored before the profile is asked for: when the
    profile request throws, or its answer does not parse, the callback
    answers with the error redirect although the access token and its
    expiry are already stored, and [connected] is left as it was. *)
Theorem callback_profile_request_fails env req st sec state code clientId clientSecret tokens :
  ready_to_exchange env req st sec state code clientId clientSecret →
  tokenEndpoint env 1 (exchange_request req code clientId clientSecret)
    = Reply true (Some tokens) →
  (∃ msg, userinfoEndpoint env 3 (userinfo_request (access_token tokens)) = NetworkError msg)
  ∨ userinfoEndpoint env 3 (userinfo_request (access_token tokens)) = Reply true None →
  exact_expiry (clock env 2) (expires_in tokens) →
  let result := run (callback_handler env req) st sec in
  result.1 = Ok (error_redirect env "An unexpected error occurred")
  ∧ secrets result.2 !! "access_token" = Some (access_token tokens)
  ∧ storage result.2 !! "token_expires_at"
    = Some (VNum (clock env 2 + expires_in tokens * 1000))
  ∧ storage result.2 !! "connected" = st !! "connected".
Proof.
  intros Hr Htok Hfail _ result. unfold result. rewrite (ready_handler _ _ _ _ _ _ _ _ Hr).
  unfold exchange_result. cbn [steps stepped with_storage start]. rewrite Htok.
  assert (state_key state ≠ "connected") by (unfold state_key; discriminate).
  destruct Hfail as [[msg ->] | ->];
    destruct (truthy_str (refresh_token tokens));
    cbn [fst snd storage secrets with_storage with_secrets stepped logged].
  all: split; [reflexivity|].
  all: split; [by simplify_map_eq|].
  all: split; [by simplify_map_eq|]. all: by simplify_map_eq.
Qed.

Lemma callback_profile_request_fails_witness :
  let result := run (callback_handler profile_down sample_callback)
                  (pending_storage 1699999990000) client_secrets in
  result.1 = Ok (error_redirect profile_down "An unexpected error occurred")
  ∧ secrets result.2 !! "access_token" = Some "fresh-token"
  ∧ storage result.2 !! "token_expires_at" = Some (VNum (clock profile_down 2 + 3600 * 1000))
  ∧ storage result.2 !! "connected" = pending_storage 1699999990000 !! "connected".
Proof.
  apply (callback_profile_request_fails profile_down sample_callback
           (pending_storage 1699999990000) client_secrets "abc" "code" "client" "secret"
           {| access_token := "fresh-token"; refresh_token := None; expires_in := 3600 |}).
  - by apply sample_ready.
  - reflexivity.
  - left. by exists "fetch failed".
  - unfold exact_expiry, safe_integer, MAX_SAFE_INTEGER. cbn. lia.
Defined.

Lemma error_redirect_not_success env message : error_redirect env message ≠ success_redirect.
Proof. unfold error_redirect, success_redirect. by intros [= H]. Qed.

Lemma callback_verify_keeps k env req :
  (∀ state, state_key state ≠ k) →
  respects (on_storage (same_at k)) (callback_verify env req).
Proof.
  intros Hk. unfold callback_verify. respects_auto;
    intros st'; unfold same_at; by rewrite lookup_delete_ne.
Qed.

Lemma callback_verify_keeps_secrets env req s : secrets (callback_verify env req s).2 = secrets s.
Proof.
  unfold callback_verify.
  repeat (first [ rewrite bind_run | progress run_prims
                | match goal with |- context [if ?b then _ else _] => destruct b end
                | match goal with |- context [match ?x with Some _ => _ | None => _ end] => destruct x end ]);
    reflexivity.
Qed.

Lemma truthy_str_true o : truthy_str o = true → ∃ s, o = Some s ∧ s ≠ "".
Proof.
  destruct o as [s|]; [|discriminate]. cbn. intros H. exists s. split; [done|].
  intros ->. discriminate.
Qed.

(** A request that fails the state check is not answered with the
    success redirect. *)
Lemma callback_verify_rejection env req s r s1 :
  callback_verify env req s = (Ok (inl r), s1) → r ≠ success_redirect.
Proof.
  unfold callback_verify.
  destruct (truthy_str (q_error req)); [intros [= <- _]; apply error_redirect_not_success|].
  destruct (truthy_str (q_code req)); cbn [negb]; [|by intros [= <- _]].
  destruct (truthy_str (q_state req)); cbn [negb]; [|by intros [= <- _]].
  rewrite bind_run. run_prims.
  destruct (storage s !! _) as [stored|]; [|by intros [= <- _]].
  destruct (truthy stored); cbn [negb]; [|by intros [= <- _]].
  rewrite bind_run. run_prims.
  destruct (num_gt _ _); [by intros [= <- _] | discriminate].
Qed.

(** The callback sets [connected] in no run but one that ends in the
    success redirect, and such a run has stored an access token and its
    expiry before. *)
Theorem callback_sets_connected_only_on_success env req st sec :
  let result := run (callback_handler env req) st sec in
  (result.1 = Ok success_redirect →
     storage result.2 !! "connected" = Some (VBool true)
     ∧ is_Some (secrets result.2 !! "access_token")
     ∧ is_Some (storage result.2 !! "token_expires_at"))
  ∧ (result.1 ≠ Ok success_redirect →
     storage result.2 !! "connected" = st !! "connected").
Proof.
  intros result. unfold result, run, callback_handler. rewrite try_catch_run, bind_run.
  pose proof (callback_verify_keeps "connected" env req
                ltac:(intros state; unfold state_key; discriminate) (start st sec)) as Hkeep.
  pose proof (callback_verify_keeps_secrets env req (start st sec)) as Hsec.
  unfold on_storage, same_at in Hkeep. cbn [start storage secrets] in Hkeep, Hsec.
  destruct (callback_verify env req (start st sec)) as [[[r|code]|e] s1] eqn:Hv;
    cbn [fst snd] in *.
  - split; [|done]. intros [= ->]. by destruct (callback_verify_rejection _ _ _ _ _ Hv).
  - destruct (truthy_str (secrets s1 !! "GOOGLE_CLIENT_ID")) eqn:Hid;
      [destruct (truthy_str (secrets s1 !! "GOOGLE_CLIENT_SECRET")) eqn:Hcs|].
    + apply truthy_str_true in Hid as (clientId & Hid & Hidn).
      apply truthy_str_true in Hcs as (clientSecret & Hcs & Hcsn).
      rewrite (exchange_anatomy env req code clientId clientSecret s1 Hid Hidn Hcs Hcsn).
      unfold exchange_result.
      destruct (tokenEndpoint env _ _) as [msg|[] [tokens|]];
        [split; [by intros [=] | done] | | split; [by intros [=] | done] ..].
      destruct (userinfoEndpoint env _ _) as [msg|[] [info|]];
        destruct (truthy_str (refresh_token tokens)); try destruct (truthy_str (picture info));
        cbn [fst snd storage secrets with_storage with_secrets stepped logged];
        (split;
           [intros Hr;
            first [discriminate
                  | split; [by simplify_map_eq | split; eexists; by simplify_map_eq]]
           | intros Hr; first [done | by simplify_map_eq]]).
    + rewrite exchange_without_credentials by (right; exact Hcs). by split.
    + rewrite exchange_without_credentials by (left; exact Hid). by split.
  - split; [|done]. by intros [=].
Qed.

End ExchangeFacts.

(** ** The status handler, outcome by outcome *)

Module ReportFacts.
Import Runtime Handlers Vocabulary MonadFacts StatusFacts.

(** The tail of the status handler, by the answer to the quota request. *)
Lemma status_report_anatomy env st token s :
  ∃ used total,
    status_report env (st !! "user_email") (st !! "user_name") (st !! "user_picture")
      (st !! "connected_at") (st !! "last_sync_at") token s
    = (Ok (Json (StatusData (connected_status st used total))),
       stepped (logged (Fetched (quota_request token)) s))
    ∧ ((∀ data, aboutEndpoint env (steps s) (quota_request token) ≠ Reply true (Some data)) →
       used = None ∧ total = None)
    ∧ (∀ quota, aboutEndpoint env (steps s) (quota_request token)
                = Reply true (Some {| storageQuota := Some quota |}) →
       used = parse_quota env (usage quota) ∧ total = parse_quota env (limit quota)).
Proof.
  unfold status_report, getQuotaInfo. rewrite bind_run, try_catch_run, bind_run.
  unfold fetch at 1. fold (quota_request token).
  destruct (aboutEndpoint env (steps s) _) as [msg|[] [data|]] eqn:Ha; run_prims;
    eexists _, _; (split; [reflexivity|]); (split; [try done|intros quota [=]; by subst]).
  intros Hno. by destruct (Hno data).
Qed.

(** The handler up to the decision about a refresh, for a connected
    account with a stored token and a numeric expiry. *)
Lemma status_handler_decision env st sec token expires :
  truthy_val (st !! "connected") = true →
  sec !! "access_token" = Some token → token ≠ "" →
  st !! "token_expires_at" = Some (VNum expires) → expires ≠ 0 →
  run (status_handler env) st sec
  = match
      (if expires - 60000 <=? clock env 0
       then
         match refreshAccessToken env (stepped (start st sec)) with
         | (Ok true, s) =>
             status_report env (st !! "user_email") (st !! "user_name") (st !! "user_picture")
               (st !! "connected_at") (st !! "last_sync_at") (Some token) s
         | (Ok false, s) =>
             (Ok (Json (StatusData disconnected_status)),
              with_storage (insert "connected" (VBool false)) s)
         | (Thrown e, s) => (Thrown e, s)
         end
       else
         status_report env (st !! "user_email") (st !! "user_name") (st !! "user_picture")
           (st !! "connected_at") (st !! "last_sync_at") (Some token) (stepped (start st sec)))
    with
    | (Ok r, s) => (Ok r, s)
    | (Thrown _, s) => (Ok (Error "Failed to check connection status" 500), s)
    end.
Proof.
  intros Hc Htok Hne Hexp Hnz.
  unfold run, status_handler. rewrite try_catch_run, bind_run. run_prims.
  rewrite Hc. run_prims. rewrite Hexp, Htok, (truthy_str_Some _ Hne).
  cbn [negb andb truthy to_number num_sub num_ge].
  destruct (Z.eqb_spec expires 0); [done|]. cbn [negb]. rewrite bind_run. run_prims.
  destruct (expires - 60000 <=? clock env 0); [|reflexivity].
  rewrite bind_run.
  destruct (refreshAccessToken env _) as [[[]|e] s]; run_prims; reflexivity.
Qed.

(** While the stored token is more than 60 seconds from its expiry, the
    status handler answers with the connected shape over the cached
    profile, whatever becomes of the quota request: it sends that one
    request, with the stored token, and changes neither store; the quota
    figures are absent unless the request is answered with a quota. *)
Theorem status_with_valid_token env st sec token expires :
  truthy_val (st !! "connected") = true →
  sec !! "access_token" = Some token → token ≠ "" →
  st !! "token_expires_at" = Some (VNum expires) → expires ≠ 0 →
  clock env 0 < expires - 60000 →
  let result := run (status_handler env) st sec in
  ∃ used total,
    result.1 = Ok (Json (StatusData (connected_status st used total)))
    ∧ storage result.2 = st ∧ secrets result.2 = sec
    ∧ log result.2 = [Fetched (quota_request (Some token))]
    ∧ ((∀ data, aboutEndpoint env 1 (quota_request (Some token)) ≠ Reply true (Some data)) →
       used = None ∧ total = None).
Proof.
  intros Hc Htok Hne Hexp Hnz Hvalid result.
  unfold result. rewrite (status_handler_decision env st sec token expires) by done.
  destruct (Z.leb_spec (expires - 60000) (clock env 0)); [lia|].
  destruct (status_report_anatomy env st (Some token) (stepped (start st sec)))
    as (used & total & -> & Hnone & _).
  exists used, total. cbn. repeat split; apply Hnone; done.
Qed.

Lemma status_with_valid_token_witness :
  let result := run (status_handler offline) live_storage full_secrets in
  ∃ used total,
    result.1 = Ok (Json (StatusData (connected_status live_storage used total)))
    ∧ storage result.2 = live_storage ∧ secrets result.2 = full_secrets
    ∧ log result.2 = [Fetched (quota_request (Some "old-token"))]
    ∧ ((∀ data, aboutEndpoint offline 1 (quota_request (Some "old-token"))
                ≠ Reply true (Some data)) →
       used = None ∧ total = None).
Proof.
  apply (status_with_valid_token offline live_storage full_secrets "old-token" 1700003600000).
  - reflexivity.
  - reflexivity.
  - discriminate.
  - reflexivity.
  - discriminate.
  - cbn. lia.
Defined.

(** The state that a successful refresh leaves. *)
Lemma refreshAccessToken_exact env s data :
  refresh_yields env s data →
  refreshAccessToken env s
  = (Ok true,
     with_storage (insert "token_expires_at"
                     (VNum (clock env (S (steps s)) + expires_in data * 1000)))
       (stepped (with_secrets (insert "access_token" (access_token data))
          (stepped (logged (Fetched (refresh_request (secrets s !! "GOOGLE_CLIENT_ID")
                      (secrets s !! "GOOGLE_CLIENT_SECRET") (secrets s !! "refresh_token")))
                      s))))).
Proof.
  unfold refresh_yields, refresh_attempt, refreshAccessToken. intros (H1 & H2 & H3 & H).
  run_prims. rewrite H1. run_prims. rewrite H2, H3. run_prims.
  rewrite try_catch_run, bind_run. unfold fetch at 1. rewrite H. run_prims. reflexivity.
Qed.

(** When the stored token is within 60 seconds of its expiry and the
    refresh goes through, the status handler stores the new access token
    and an expiry computed from the clock and the lifetime it was given,
    leaves [connected] set, and answers with the connected shape. *)
Theorem status_refreshes_token env st sec token expires data :
  truthy_val (st !! "connected") = true →
  sec !! "access_token" = Some token → token ≠ "" →
  st !! "token_expires_at" = Some (VNum expires) → expires ≠ 0 →
  expires - 60000 ≤ clock env 0 →
  refresh_yields env (stepped (start st sec)) data →
  exact_expiry (clock env 2) (expires_in data) →
  let result := run (status_handler env) st sec in
  ∃ used total,
    result.1 = Ok (Json (StatusData (connected_status st used total)))
    ∧ secrets result.2 = <["access_token" := access_token data]> sec
    ∧ storage result.2
      = <["token_expires_at" := VNum (clock env 2 + expires_in data * 1000)]> st
    ∧ storage result.2 !! "connected" = st !! "connected".
Proof.
  intros Hc Htok Hne Hexp Hnz Hdue Hyes _ result.
  unfold result. rewrite (status_handler_decision env st sec token expires) by done.
  destruct (Z.leb_spec (expires - 60000) (clock env 0)); [|lia].
  rewrite (refreshAccessToken_exact env _ data Hyes).
  match goal with |- context [status_report _ _ _ _ _ _ _ ?s] =>
    destruct (status_report_anatomy env st (Some token) s) as (used & total & -> & _)
  end.
  exists used, total. cbn. repeat split. by rewrite lookup_insert_ne.
Qed.

Lemma status_refreshes_token_witness :
  let result := run (status_handler online) stale_storage full_secrets in
  ∃ used total,
    result.1 = Ok (Json (StatusData (connected_status stale_storage used total)))
    ∧ secrets result.2 = <["access_token" := "fresh-token"]> full_secrets
    ∧ storage result.2
      = <["token_expires_at" := VNum (clock online 2 + 3600 * 1000)]> stale_storage
    ∧ storage result.2 !! "connected" = stale_storage !! "connected".
Proof.
  apply (status_refreshes_token online stale_storage full_secrets "old-token" 1600000000000
           {| access_token := "fresh-token"; refresh_token := None; expires_in := 3600 |}).
  - reflexivity.
  - reflexivity.
  - discriminate.
  - reflexivity.
  - discriminate.
  - cbn. lia.
  - by repeat split.
  - unfold exact_expiry, safe_integer, MAX_SAFE_INTEGER. cbn. lia.
Defined.

(** A connected account without a stored access token is never
    refreshed, however old the stored expiry: the status handler reports
    it as connected, changes neither store, and sends the quota request
    with the text [Bearer undefined]. *)
Theorem status_without_access_token env st sec :
  truthy_val (st !! "connected") = true →
  sec !! "access_token" = None →
  let result := run (status_handler env) st sec in
  ∃ used total,
    result.1 = Ok (Json (StatusData (connected_status st used total)))
    ∧ storage result.2 = st ∧ secrets result.2 = sec
    ∧ log result.2 = [Fetched (get_request ABOUT_URL "Bearer undefined")].
Proof.
  intros Hc Htok result. unfold result, run, status_handler.
  rewrite try_catch_run, bind_run. run_prims. rewrite Hc. run_prims. rewrite Htok.
  cbn [truthy_str andb].
  destruct (status_report_anatomy env st None (start st sec)) as (used & total & Hrun & _).
  exists used, total.
  destruct (st !! "token_expires_at"); rewrite Hrun; by repeat split.
Qed.

Lemma status_without_access_token_witness :
  let result := run (status_handler online) stale_storage client_secrets in
  ∃ used total,
    result.1 = Ok (Json (StatusData (connected_status stale_storage used total)))
    ∧ storage result.2 = stale_storage ∧ secrets result.2 = client_secrets
    ∧ log result.2 = [Fetched (get_request ABOUT_URL "Bearer undefined")].
Proof.
  apply (status_without_access_token online stale_storage client_secrets); reflexivity.
Defined.

End ReportFacts.

(** ** The sync handler: token and download *)

Module DownloadFacts.
Import Runtime Handlers Vocabulary MonadFacts StatusFacts SyncFacts.

Lemma syncDownload_anatomy env token patterns s :
  syncDownload env token patterns s
  = (Ok (download_report (filesEndpoint env (steps s) (files_request token))),
     stepped (logged (Fetched (files_request token)) (logged (Entered "syncDownload") s))).
Proof.
  unfold syncDownload. rewrite bind_run. run_prims. rewrite try_catch_run, bind_run.
  unfold fetch at 1. fold (files_request token). run_prims.
  destruct (filesEndpoint env (steps s) _) as [msg|[] [[files|message]|]];
    run_prims; reflexivity.
Qed.

(** The dispatch when the download stage runs. *)
Lemma sync_dispatch_download env token s :
  wants_download (direction_of (config_of (storage s !! "config"))) = true →
  ∃ res s',
    sync_dispatch env token s = (Ok (Json (SyncData res)), s')
    ∧ storage s' !! "last_sync_result" = Some (VResult res)
    ∧ success res = (stage_errors (download_report
                       (filesEndpoint env (steps s) (files_request token))) =? 0)
    ∧ errors res = stage_errors (download_report
                     (filesEndpoint env (steps s) (files_request token)))
    ∧ errorMessages res = stage_messages (download_report
                            (filesEndpoint env (steps s) (files_request token))).
Proof.
  intros Hd. unfold sync_dispatch. rewrite bind_run. run_prims. rewrite Hd.
  destruct (wants_upload _).
  - rewrite bind_run, bind_run. unfold syncUpload. run_prims.
    rewrite bind_run, bind_run, syncDownload_anatomy. run_prims.
    eexists _, _. split; [reflexivity|]. cbn. split; [apply lookup_insert_eq|done].
  - run_prims. rewrite bind_run, bind_run, syncDownload_anatomy. run_prims.
    eexists _, _. split; [reflexivity|]. cbn. split; [apply lookup_insert_eq|done].
Qed.

(** When the listing of the remote files is answered with an array of
    files, the sync reports success without errors whatever files are
    listed; when the answer parses but holds no such array, or does not
    parse, the sync reports one error (with the message of the exception
    that the stage catches); when the listing is refused, the sync
    reports one error with a fixed message; when the request throws, the
    one error carries the message of the exception.  In each case the
    result is the one stored as [last_sync_result]. *)
Theorem sync_download_outcomes env st sec token s1 :
  reaches_dispatch env st sec token s1 →
  wants_download (direction_of (config_of (st !! "config"))) = true →
  let result := run (sync_handler env) st sec in
  let listing := filesEndpoint env (steps s1) (files_request token) in
  ∃ res,
    result.1 = Ok (Json (SyncData res))
    ∧ storage result.2 !! "last_sync_result" = Some (VResult res)
    ∧ (∀ files, listing = Reply true (Some (Files files)) →
         success res = true ∧ errors res = 0 ∧ errorMessages res = [])
    ∧ (∀ msg, listing = Reply true (Some (NoFiles msg)) →
         success res = false ∧ errors res = 1 ∧ errorMessages res = [msg])
    ∧ (listing = Reply true None → success res = false ∧ errors res = 1)
    ∧ (∀ body, listing = Reply false body →
         success res = false ∧ errors res = 1
         ∧ errorMessages res = ["Failed to list files from Google Drive"])
    ∧ (∀ msg, listing = NetworkError msg →
         success res = false ∧ errors res = 1 ∧ errorMessages res = [msg]).
Proof.
  intros Hr Hd result listing. unfold result.
  rewrite (sync_handler_reaches _ _ _ _ _ Hr).
  rewrite <- (reaches_dispatch_storage _ _ _ _ _ "config" Hr ltac:(done)) in Hd.
  destruct (sync_dispatch_download env token s1 Hd) as (res & s' & -> & Hst & Hs & He & Hm).
  exists res. cbn [fst snd]. split; [done|]. split; [done|].
  fold listing in Hs, He, Hm. rewrite Hs, He, Hm.
  split; [by intros ? ->|]. split; [by intros ? ->|]. split; [by intros ->|].
  split; by intros ? ->.
Qed.

Lemma sync_download_outcomes_witness :
  let result := run (sync_handler offline) live_storage full_secrets in
  let listing := filesEndpoint offline 1 (files_request "old-token") in
  ∃ res,
    result.1 = Ok (Json (SyncData res))
    ∧ storage result.2 !! "last_sync_result" = Some (VResult res)
    ∧ (∀ files, listing = Reply true (Some (Files files)) →
         success res = true ∧ errors res = 0 ∧ errorMessages res = [])
    ∧ (∀ msg, listing = Reply true (Some (NoFiles msg)) →
         success res = false ∧ errors res = 1 ∧ errorMessages res = [msg])
    ∧ (listing = Reply true None → success res = false ∧ errors res = 1)
    ∧ (∀ body, listing = Reply false body →
         success res = false ∧ errors res = 1
         ∧ errorMessages res = ["Failed to list files from Google Drive"])
    ∧ (∀ msg, listing = NetworkError msg →
         success res = false ∧ errors res = 1 ∧ errorMessages res = [msg]).
Proof.
  apply (sync_download_outcomes offline live_storage full_secrets "old-token"
           (stepped (start live_storage full_secrets))).
  - by repeat split.
  - reflexivity.
Defined.

(** The dispatch when the download stage does not run. *)
Lemma sync_dispatch_no_download env token s :
  wants_download (direction_of (config_of (storage s !! "config"))) = false →
  ∃ s', sync_dispatch env token s
        = (Ok (Json (SyncData (totalled initial_result))), s')
        ∧ (∀ req, Fetched req ∈ log s' → Fetched req ∈ log s).
Proof.
  intros Hd. unfold sync_dispatch. rewrite bind_run. run_prims. rewrite Hd.
  destruct (wants_upload _).
  - rewrite bind_run, bind_run. unfold syncUpload. run_prims.
    eexists. split; [reflexivity|]. cbn. intros req [[=]|Hin]%elem_of_cons. exact Hin.
  - run_prims. eexists. split; [reflexivity|]. done.
Qed.



(** While the stored token is more than five minutes from its expiry,
    the sync handler uses it as it is: it reaches the dispatch without a
    request to the token endpoint and without a change to either store. *)
Theorem sync_uses_valid_token env st sec token expires :
  truthy_val (st !! "connected") = true →
  sec !! "access_token" = Some token → token ≠ "" →
  st !! "token_expires_at" = Some (VNum expires) → expires ≠ 0 →
  clock env 0 < expires - 5 * 60 * 1000 →
  reaches_dispatch env st sec token (stepped (start st sec))
  ∧ (∀ req, Fetched req ∈ log (run (sync_handler env) st sec).2 →
            url req ≠ GOOGLE_TOKEN_URL)
  ∧ secrets (run (sync_handler env) st sec).2 = sec.
Proof.
  intros Hc Htok Hne Hexp Hnz Hvalid.
  assert (reaches_dispatch env st sec token (stepped (start st sec))) as Hr.
  { split; [done|]. split; [|done]. unfold getValidAccessToken. run_prims.
    rewrite Hexp, Htok, (truthy_str_Some _ Hne). cbn [andb truthy].
    destruct (Z.eqb_spec expires 0); [done|]. cbn [negb]. rewrite bind_run. run_prims.
    cbn [to_number num_sub num_lt].
    by destruct (Z.ltb_spec (clock env 0) (expires - 5 * 60 * 1000)); [|lia]. }
  split; [exact Hr|]. rewrite (sync_handler_reaches _ _ _ _ _ Hr).
  destruct (sync_dispatch_run env token (stepped (start st sec)))
    as (res & iso & s' & -> & _ & _ & _ & _ & _ & _ & Hsec & Hlog).
  cbn [snd]. split; [|by rewrite Hsec].
  intros req. rewrite Hlog, !elem_of_app. unfold download_events, upload_events.
  intros [Hin|[Hin|Hin]].
  - destruct (wants_download _); [|by apply elem_of_nil in Hin].
    apply elem_of_cons in Hin as [[= ->]|Hin]; [done|].
    by apply list_elem_of_singleton in Hin.
  - destruct (wants_upload _); [|by apply elem_of_nil in Hin].
    by apply list_elem_of_singleton in Hin.
  - by apply elem_of_nil in Hin.
Qed.

Lemma sync_uses_valid_token_witness :
  reaches_dispatch online live_storage full_secrets "old-token"
    (stepped (start live_storage full_secrets))
  ∧ (∀ req, Fetched req ∈ log (run (sync_handler online) live_storage full_secrets).2 →
            url req ≠ GOOGLE_TOKEN_URL)
  ∧ secrets (run (sync_handler online) live_storage full_secrets).2 = full_secrets.
Proof.
  apply (sync_uses_valid_token online live_storage full_secrets "old-token" 1700003600000).
  - reflexivity.
  - reflexivity.
  - discriminate.
  - reflexivity.
  - discriminate.
  - cbn. lia.
Defined.

(** The state that a successful refresh leaves in the sync handler. *)
Lemma refreshed_token_exact env s data :
  refresh_yields env s data →
  refreshed_token env s
  = (Ok (Some (access_token data)),
     with_storage (insert "token_expires_at"
                     (VNum (clock env (S (steps s)) + expires_in data * 1000)))
       (stepped (with_secrets (insert "access_token" (access_token data))
          (stepped (logged (Fetched (refresh_request (secrets s !! "GOOGLE_CLIENT_ID")
                      (secrets s !! "GOOGLE_CLIENT_SECRET") (secrets s !! "refresh_token")))
                      s))))).
Proof.
  unfold refresh_yields, refresh_attempt, refreshed_token. intros (H1 & H2 & H3 & H).
  run_prims. rewrite H1. run_prims. rewrite H2, H3. run_prims.
  rewrite try_catch_run, bind_run. unfold fetch at 1. rewrite H. run_prims. reflexivity.
Qed.

(** When the stored token is within five minutes of its expiry and the
    refresh goes through, the sync handler stores the new token and
    works with it: the request that lists the remote files carries the
    new token, not the stored one. *)
Theorem sync_uses_refreshed_token env st sec token expires data :
  truthy_val (st !! "connected") = true →
  sec !! "access_token" = Some token → token ≠ "" →
  st !! "token_expires_at" = Some (VNum expires) → expires ≠ 0 →
  expires - 5 * 60 * 1000 ≤ clock env 0 →
  refresh_yields env (stepped (start st sec)) data → access_token data ≠ "" →
  exact_expiry (clock env 2) (expires_in data) →
  wants_download (direction_of (config_of (st !! "config"))) = true →
  let result := run (sync_handler env) st sec in
  (∃ res, result.1 = Ok (Json (SyncData res)))
  ∧ secrets result.2 !! "access_token" = Some (access_token data)
  ∧ storage result.2 !! "token_expires_at"
    = Some (VNum (clock env 2 + expires_in data * 1000))
  ∧ Fetched (files_request (access_token data)) ∈ log result.2
  ∧ (token ≠ access_token data → Fetched (files_request token) ∉ log result.2).
Proof.
  intros Hc Htok Hne Hexp Hnz Hdue Hyes Hnew _ Hd result.
  pose proof (refreshed_token_exact env _ data Hyes) as Hrefresh.
  cbn [steps stepped start secrets] in Hrefresh.
  match type of Hrefresh with _ = (_, ?s) => set (s1 := s) in * end.
  assert (reaches_dispatch env st sec (access_token data) s1) as Hr.
  { split; [done|]. split; [|done]. unfold getValidAccessToken. run_prims.
    rewrite Hexp, Htok, (truthy_str_Some _ Hne). cbn [andb truthy].
    destruct (Z.eqb_spec expires 0); [done|]. cbn [negb]. rewrite bind_run. run_prims.
    cbn [to_number num_sub num_lt].
    destruct (Z.ltb_spec (clock env 0) (expires - 5 * 60 * 1000)); [lia|].
    exact Hrefresh. }
  unfold result. rewrite (sync_handler_reaches _ _ _ _ _ Hr).
  destruct (sync_dispatch_run env (access_token data) s1)
    as (res & iso & s' & -> & _ & _ & _ & _ & _ & Hst & Hsec & Hlog).
  cbn [fst snd]. split; [by eexists|].
  assert (storage s1 !! "config" = st !! "config") as Hcfg
    by (unfold s1; cbn; by rewrite lookup_insert_ne).
  rewrite Hcfg in Hlog. unfold download_events in Hlog. rewrite Hd in Hlog.
  split; [rewrite Hsec; unfold s1; cbn; apply lookup_insert_eq|].
  split; [rewrite Hst, !lookup_insert_ne by done; unfold s1; cbn; apply lookup_insert_eq|].
  rewrite Hlog. split; [by left|].
  intros Hdiff. rewrite !elem_of_app. intros [Hin|[Hin|Hin]].
  - apply elem_of_cons in Hin as [[= Heq]|Hin].
    + apply Hdiff. unfold bearer in Heq. cbn [interpolate] in Heq.
      exact Heq.
    + by apply list_elem_of_singleton in Hin.
  - unfold upload_events in Hin. destruct (wants_upload _); [|by apply elem_of_nil in Hin].
    by apply list_elem_of_singleton in Hin.
  - unfold s1 in Hin. cbn in Hin. by apply list_elem_of_singleton in Hin.
Qed.

Lemma sync_uses_refreshed_token_witness :
  let result := run (sync_handler online) stale_storage full_secrets in
  (∃ res, result.1 = Ok (Json (SyncData res)))
  ∧ secrets result.2 !! "access_token" = Some "fresh-token"
  ∧ storage result.2 !! "token_expires_at" = Some (VNum (clock online 2 + 3600 * 1000))
  ∧ Fetched (files_request "fresh-token") ∈ log result.2
  ∧ ("old-token" ≠ "fresh-token" → Fetched (files_request "old-token") ∉ log result.2).
Proof.
  apply (sync_uses_refreshed_token online stale_storage full_secrets "old-token" 1600000000000
           {| access_token := "fresh-token"; refresh_token := None; expires_in := 3600 |}).
  - reflexivity.
  - reflexivity.
  - discriminate.
  - reflexivity.
  - discriminate.
  - cbn. lia.
  - by repeat split.
  - discriminate.
  - unfold exact_expiry, safe_integer, MAX_SAFE_INTEGER. cbn. lia.
  - reflexivity.
Defined.

End DownloadFacts.

(** ** What the handlers write *)

Module FrameFacts.
Import Runtime Handlers Vocabulary MonadFacts CallbackFacts SyncFacts DisconnectFacts.

Global Instance on_secrets_preorder Q `{!PreOrder Q} : PreOrder (on_secrets Q).
Proof.
  split; [intros s; unfold on_secrets; reflexivity|].
  intros s1 s2 s3; unfold on_secrets; intros H1 H2; by etrans.
Qed.

(** The operations of the server API, seen from the secret store. *)
Section SecretPrimitives.
Context (Q : gmap string string → gmap string string → Prop) `{!PreOrder Q}.

Lemma secrets_set_secrets k v :
  (∀ sec, Q sec (<[k:=v]> sec)) → respects (on_secrets Q) (secrets_set k v).
Proof. intros H s. apply H. Qed.
Lemma secrets_delete_secrets k :
  (∀ sec, Q sec (delete k sec)) → respects (on_secrets Q) (secrets_delete k).
Proof. intros H s. apply H. Qed.
Lemma storage_set_secrets k v : respects (on_secrets Q) (storage_set k v).
Proof. intros s. unfold on_secrets. reflexivity. Qed.
Lemma storage_delete_secrets k : respects (on_secrets Q) (storage_delete k).
Proof. intros s. unfold on_secrets. reflexivity. Qed.
Lemma date_now_secrets env : respects (on_secrets Q) (date_now env).
Proof. intros s. unfold on_secrets. reflexivity. Qed.
Lemma date_iso_secrets env : respects (on_secrets Q) (date_iso env).
Proof. intros s. unfold on_secrets. reflexivity. Qed.
Lemma enter_secrets fn : respects (on_secrets Q) (enter fn).
Proof. intros s. unfold on_secrets. reflexivity. Qed.
Lemma fetch_secrets {A} (ep : nat → HttpRequest → Outcome A) req :
  respects (on_secrets Q) (fetch ep req).
Proof. intros s. unfold on_secrets, fetch. destruct (ep _ _); reflexivity. Qed.
Lemma generateStateToken_secrets env : respects (on_secrets Q) (generateStateToken env).
Proof. intros s. unfold on_secrets. reflexivity. Qed.

End SecretPrimitives.

Ltac secrets_step :=
  lazymatch goal with
  | |- respects (on_secrets _) (secrets_set _ _) => apply secrets_set_secrets
  | |- respects (on_secrets _) (secrets_delete _) => apply secrets_delete_secrets
  | |- respects (on_secrets _) (storage_set _ _) => apply storage_set_secrets; apply _
  | |- respects (on_secrets _) (storage_delete _) => apply storage_delete_secrets; apply _
  | |- respects (on_secrets _) (date_now _) => apply date_now_secrets; apply _
  | |- respects (on_secrets _) (date_iso _) => apply date_iso_secrets; apply _
  | |- respects (on_secrets _) (enter _) => apply enter_secrets; apply _
  | |- respects (on_secrets _) (fetch _ _) => apply fetch_secrets; apply _
  | |- respects (on_secrets _) (generateStateToken _) => apply generateStateToken_secrets; apply _
  end.

Ltac frame_auto := repeat (cbv zeta; first [secrets_step | respects_step]).

Lemma state_key_prefix state : String.prefix "oauth_state_" (state_key state) = true.
Proof. by destruct state. Qed.

Lemma status_handler_storage env k :
  k ≠ "token_expires_at" → k ≠ "connected" →
  respects (on_storage (same_at k)) (status_handler env).
Proof.
  intros H1 H2. unfold status_handler, status_report, getQuotaInfo, refreshAccessToken.
  frame_auto; intros st; unfold same_at; by rewrite lookup_insert_ne.
Qed.

Lemma sync_handler_storage env k :
  k ≠ "token_expires_at" → k ≠ "last_sync_at" → k ≠ "last_sync_result" →
  respects (on_storage (same_at k)) (sync_handler env).
Proof.
  intros H1 H2 H3.
  unfold sync_handler, getValidAccessToken, refreshed_token, sync_dispatch, syncUpload,
    syncDownload.
  frame_auto; intros st; unfold same_at; by rewrite lookup_insert_ne.
Qed.

Lemma connect_handler_storage env req k :
  String.prefix "oauth_state_" k = false →
  respects (on_storage (same_at k)) (connect_handler env req).
Proof.
  intros Hk. unfold connect_handler. frame_auto.
  intros st. unfold same_at. rewrite lookup_insert_ne; [done|].
  intros <-. by rewrite state_key_prefix in Hk.
Qed.

Lemma callback_handler_storage env req k :
  k ∉ callback_keys → String.prefix "oauth_state_" k = false →
  respects (on_storage (same_at k)) (callback_handler env req).
Proof.
  intros Hk Hp.
  assert (k ≠ "token_expires_at" ∧ k ≠ "user_email" ∧ k ≠ "user_name"
          ∧ k ≠ "user_picture" ∧ k ≠ "connected" ∧ k ≠ "connected_at") as (?&?&?&?&?&?).
  { repeat split; intros ->; apply Hk; unfold callback_keys; set_solver. }
  unfold callback_handler, callback_verify, callback_exchange.
  frame_auto; intros st; unfold same_at;
    first [by rewrite lookup_insert_ne
          | rewrite lookup_delete_ne; [done|]; intros <-; by rewrite state_key_prefix in Hp].
Qed.

(** What each handler may write to storage: the status handler only
    the expiry and the connection flag; the sync handler only the expiry
    and the two records of the last sync, so never the connection flag;
    the connect handler only state records; the callback only the six
    keys of a connection and state records.  In particular none of them
    writes the configuration. *)
Theorem storage_write_sets env req s k :
  (k ≠ "token_expires_at" → k ≠ "connected" →
   storage (status_handler env s).2 !! k = storage s !! k)
  ∧ (k ≠ "token_expires_at" → k ≠ "last_sync_at" → k ≠ "last_sync_result" →
     storage (sync_handler env s).2 !! k = storage s !! k)
  ∧ (String.prefix "oauth_state_" k = false →
     storage (connect_handler env req s).2 !! k = storage s !! k)
  ∧ (k ∉ callback_keys → String.prefix "oauth_state_" k = false →
     storage (callback_handler env req s).2 !! k = storage s !! k).
Proof.
  split; [intros; by apply status_handler_storage|].
  split; [intros; by apply sync_handler_storage|].
  split; [intros; by apply connect_handler_storage|].
  intros; by apply callback_handler_storage.
Qed.

Lemma status_handler_secrets env k :
  k ≠ "access_token" → respects (on_secrets (same_at k)) (status_handler env).
Proof.
  intros H1. unfold status_handler, status_report, getQuotaInfo, refreshAccessToken.
  frame_auto; intros sec; unfold same_at; by rewrite lookup_insert_ne.
Qed.

Lemma sync_handler_secrets env k :
  k ≠ "access_token" → respects (on_secrets (same_at k)) (sync_handler env).
Proof.
  intros H1.
  unfold sync_handler, getValidAccessToken, refreshed_token, sync_dispatch, syncUpload,
    syncDownload.
  frame_auto; intros sec; unfold same_at; by rewrite lookup_insert_ne.
Qed.

Lemma connect_handler_secrets env req k :
  respects (on_secrets (same_at k)) (connect_handler env req).
Proof. unfold connect_handler. frame_auto. Qed.

Lemma callback_handler_secrets env req k :
  k ≠ "access_token" → k ≠ "refresh_token" →
  respects (on_secrets (same_at k)) (callback_handler env req).
Proof.
  intros H1 H2. unfold callback_handler, callback_verify, callback_exchange.
  frame_auto; intros sec; unfold same_at; by rewrite lookup_insert_ne.
Qed.

(** What each handler may write to the secret store: the status and
    sync handlers only the access token, so a refresh never replaces the
    refresh token; the connect handler nothing; the callback and the
    disconnect handler only the two tokens.  In particular no handler
    writes the client credentials. *)
Theorem secrets_write_sets env req s k :
  (k ≠ "access_token" →
   secrets (status_handler env s).2 !! k = secrets s !! k
   ∧ secrets (sync_handler env s).2 !! k = secrets s !! k)
  ∧ secrets (connect_handler env req s).2 !! k = secrets s !! k
  ∧ (k ≠ "access_token" → k ≠ "refresh_token" →
     secrets (callback_handler env req s).2 !! k = secrets s !! k
     ∧ secrets (disconnect_handler env s).2 !! k = secrets s !! k).
Proof.
  split; [intros; split; [by apply status_handler_secrets | by apply sync_handler_secrets]|].
  split; [apply connect_handler_secrets|].
  intros H1 H2. split; [by apply callback_handler_secrets|].
  destruct (disconnect_run env s) as (s' & -> & Hsec & _). cbn [snd].
  by rewrite Hsec, !lookup_delete_ne.
Qed.

End FrameFacts.

(** ** Handlers one after the other *)

Module SessionFacts.
Import Runtime Handlers Vocabulary MonadFacts CallbackFacts StatusFacts SyncFacts
  DisconnectFacts ExchangeFacts ReportFacts.

(** The requests of a disconnect. *)
Lemma disconnect_log env s :
  log (disconnect_handler env s).2
  = (if truthy_str (secrets s !! "access_token")
     then [Fetched (revoke_request env (interpolate (secrets s !! "access_token")))]
     else []) ++ log s.
Proof.
  unfold disconnect_handler. rewrite try_catch_run, bind_run. run_prims. rewrite bind_run.
  assert (∃ s1,
    (if truthy_str (secrets s !! "access_token") then
       try_catch
         (bind (fetch (revokeEndpoint env)
                  (post_form (GOOGLE_REVOKE_URL
                              +:+ encodeURIComponent env (interpolate (secrets s !! "access_token"))) []))
               (λ _, ret tt))
         (λ _, ret tt)
     else ret tt) s = (Ok tt, s1)
    ∧ log s1 = (if truthy_str (secrets s !! "access_token")
                then [Fetched (revoke_request env (interpolate (secrets s !! "access_token")))]
                else []) ++ log s) as (s1 & -> & Hl1).
  { destruct (truthy_str _); [|by exists s].
    unfold try_catch, bind, fetch, revoke_request.
    destruct (revokeEndpoint env _ _) as [msg|ok body]; run_prims; by eexists. }
  run_prims. rewrite bind_run.
  destruct (for_each_delete keysToDelete
              (with_secrets (delete "refresh_token") (with_secrets (delete "access_token") s1)))
    as (s2 & -> & _ & Hl2 & _).
  rewrite bind_run. run_prims.
  destruct (for_each_delete (keys_with_prefix "oauth_state_" (storage s2)) s2)
    as (s3 & Hrun & _ & Hl3 & _).
  rewrite bind_run, Hrun. run_prims. by rewrite Hl3, Hl2.
Qed.

(** The disconnect handler sends one request, the revocation of the
    stored access token, when there is a non-empty one, and no request
    at all otherwise. *)
Theorem disconnect_revokes_stored_token env st sec :
  log (run (disconnect_handler env) st sec).2
  = match sec !! "access_token" with
    | Some token => if String.eqb token "" then [] else [Fetched (revoke_request env token)]
    | None => []
    end.
Proof.
  unfold run. rewrite disconnect_log. cbn [start secrets log].
  destruct (sec !! "access_token") as [token|]; cbn; [|done].
  destruct (String.eqb token ""); cbn; done.
Qed.

(** After a disconnect the account is not connected for the other
    handlers, and a second disconnect changes nothing more and sends no
    request. *)
Theorem disconnect_is_final env env' st sec :
  let after := (run (disconnect_handler env) st sec).2 in
  let again := (run (disconnect_handler env') (storage after) (secrets after)).2 in
  run (status_handler env') (storage after) (secrets after)
  = (Ok (Json (StatusData disconnected_status)), start (storage after) (secrets after))
  ∧ run (sync_handler env') (storage after) (secrets after)
    = (Ok (Error "Not connected to Google Drive" 401), start (storage after) (secrets after))
  ∧ storage again = storage after ∧ secrets again = secrets after ∧ log again = [].
Proof.
  intros after again.
  destruct (disconnect_run env (start st sec)) as (s1 & Hrun1 & Hsec1 & Hst1).
  assert (after = s1) as Hafter by (unfold after, run; by rewrite Hrun1).
  assert (storage after !! "connected" = None) as Hc.
  { rewrite Hafter, Hst1. rewrite decide_True; [done|]. unfold keysToDelete. set_solver. }
  assert (truthy_val (storage after !! "connected") = false) as Hinert by (by rewrite Hc).
  split.
  { unfold run, status_handler. rewrite try_catch_run, bind_run. run_prims. by rewrite Hinert. }
  split.
  { unfold run, sync_handler. rewrite try_catch_run, bind_run. run_prims. by rewrite Hinert. }
  destruct (disconnect_run env' (start (storage after) (secrets after)))
    as (s2 & Hrun2 & Hsec2 & Hst2).
  assert (secrets after !! "access_token" = None) as Htok.
  { rewrite Hafter, Hsec1. cbn. by rewrite lookup_delete_ne, lookup_delete_eq. }
  split; [|split].
  - unfold again, run. rewrite Hrun2. cbn [snd]. apply map_eq. intros k.
    rewrite Hst2. cbn [start storage]. rewrite Hafter, Hst1.
    destruct (decide (k ∈ keysToDelete)); [done|]. by destruct (String.prefix _ k).
  - unfold again, run. rewrite Hrun2. cbn [snd]. rewrite Hsec2. cbn [start secrets].
    rewrite delete_id; [apply delete_id; exact Htok|].
    rewrite lookup_delete_ne by done. rewrite Hafter, Hsec1. cbn. apply lookup_delete_eq.
  - unfold again, run. rewrite disconnect_log. cbn [start secrets log]. by rewrite Htok.
Qed.

(** A status check that follows a callback which connected the account,
    before the new token is within 60 seconds of its expiry, finds what
    the callback stored: it reports the account as connected under the
    profile and the time the callback recorded, asks for the quota with
    the new access token, and changes nothing. *)
Theorem callback_then_status env env' req st sec state code clientId clientSecret tokens info :
  ready_to_exchange env req st sec state code clientId clientSecret →
  tokenEndpoint env 1 (exchange_request req code clientId clientSecret)
    = Reply true (Some tokens) →
  userinfoEndpoint env 3 (userinfo_request (access_token tokens)) = Reply true (Some info) →
  access_token tokens ≠ "" →
  0 ≤ clock env' 0 < clock env 2 + expires_in tokens * 1000 - 60000 →
  let after := (run (callback_handler env req) st sec).2 in
  let result := run (status_handler env') (storage after) (secrets after) in
  ∃ status,
    result.1 = Ok (Json (StatusData status))
    ∧ connected status = true
    ∧ userEmail status = Some (VStr (email info))
    ∧ userName status = Some (VStr (name info))
    ∧ connectedAt status = Some (VStr (toISOString env (clock env 4)))
    ∧ log result.2 = [Fetched (quota_request (Some (access_token tokens)))]
    ∧ storage result.2 = storage after ∧ secrets result.2 = secrets after.
Proof.
  intros Hr Htok Hinfo Hne Hvalid after result.
  assert (storage after !! "connected" = Some (VBool true)
          ∧ storage after !! "token_expires_at"
            = Some (VNum (clock env 2 + expires_in tokens * 1000))
          ∧ storage after !! "user_email" = Some (VStr (email info))
          ∧ storage after !! "user_name" = Some (VStr (name info))
          ∧ storage after !! "connected_at" = Some (VStr (toISOString env (clock env 4)))
          ∧ secrets after !! "access_token" = Some (access_token tokens))
    as (Hc & Hexp & Hemail & Hname & Hat & Hsec).
  { unfold after. rewrite (ready_handler _ _ _ _ _ _ _ _ Hr).
    unfold exchange_result. cbn [steps stepped with_storage start]. rewrite Htok, Hinfo.
    destruct (truthy_str (refresh_token tokens)), (truthy_str (picture info));
      cbn [fst snd storage secrets with_storage with_secrets stepped logged];
      repeat split; by simplify_map_eq. }
  unfold result.
  rewrite (status_handler_decision env' _ _ (access_token tokens)
             (clock env 2 + expires_in tokens * 1000)); [|by rewrite ?Hc|done|done|done|lia].
  destruct (Z.leb_spec (clock env 2 + expires_in tokens * 1000 - 60000) (clock env' 0)); [lia|].
  destruct (status_report_anatomy env' (storage after) (Some (access_token tokens))
              (stepped (start (storage after) (secrets after))))
    as (used & total & -> & _).
  eexists. split; [reflexivity|]. cbn. by rewrite Hemail, Hname, Hat.
Qed.

Lemma callback_then_status_witness :
  let tokens := {| access_token := "fresh-token"; refresh_token := None; expires_in := 3600 |} in
  let info := {| email := "ada@example.org"; name := "Ada"; picture := None |} in
  let after := (run (callback_handler online sample_callback)
                  (pending_storage 1699999990000) client_secrets).2 in
  let result := run (status_handler online) (storage after) (secrets after) in
  ∃ status,
    result.1 = Ok (Json (StatusData status))
    ∧ connected status = true
    ∧ userEmail status = Some (VStr (email info))
    ∧ userName status = Some (VStr (name info))
    ∧ connectedAt status = Some (VStr (toISOString online (clock online 4)))
    ∧ log result.2 = [Fetched (quota_request (Some (access_token tokens)))]
    ∧ storage result.2 = storage after ∧ secrets result.2 = secrets after.
Proof.
  intros tokens info.
  apply (callback_then_status online online sample_callback (pending_storage 1699999990000)
           client_secrets "abc" "code" "client" "secret" tokens info).
  - by apply sample_ready.
  - reflexivity.
  - reflexivity.
  - discriminate.
  - cbn. lia.
Defined.

End SessionFacts.

(** ** The client: settings form and sync command *)

Module SettingsFacts.
Import Settings.

Lemma trimStart_head s :
  match trimStart s with
  | EmptyString => True
  | String c _ => is_white_space c = false
  end.
Proof.
  induction s as [|c s IH]; cbn [trimStart]; [done|].
  destruct (is_white_space c) eqn:Hc; [exact IH | exact Hc].
Qed.

Lemma trimEnd_cons c s :
  is_white_space c = false → trimEnd (String c s) = String c (trimEnd s).
Proof. intros Hc. cbn [trimEnd]. rewrite Hc. by destruct (trimEnd s). Qed.

Lemma trimEnd_step c s :
  trimEnd (String c s)
  = match trimEnd s with
    | EmptyString => if is_white_space c then EmptyString else String c EmptyString
    | kept => String c kept
    end.
Proof. reflexivity. Qed.

Lemma trimEnd_idem s : trimEnd (trimEnd s) = trimEnd s.
Proof.
  induction s as [|c s IH]; [done|]. rewrite (trimEnd_step c s).
  destruct (trimEnd s) as [|d kept] eqn:Hs.
  - destruct (is_white_space c) eqn:Hc; [done|]. rewrite trimEnd_step. cbn [trimEnd].
    by rewrite Hc.
  - by rewrite trimEnd_step, IH.
Qed.

Lemma trim_idem s : trim (trim s) = trim s.
Proof.
  unfold trim. pose proof (trimStart_head s) as Hh.
  destruct (trimStart s) as [|c rest]; [done|].
  rewrite (trimEnd_cons c rest Hh). cbn [trimStart]. rewrite Hh.
  rewrite <- (trimEnd_cons c rest Hh). apply trimEnd_idem.
Qed.

Lemma addExcludePattern_tidy f :
  tidy (excludePatterns (config f)) → tidy (excludePatterns (config (addExcludePattern f))).
Proof.
  intros [Hnd Hall]. unfold addExcludePattern.
  destruct (bool_decide _ && _) eqn:Hguard; [|by split].
  apply andb_true_iff in Hguard as [Hne%bool_decide_eq_true Hnew%negb_true_iff].
  apply bool_decide_eq_false in Hnew. cbn. split.
  - apply NoDup_app. split; [done|]. split; [|apply NoDup_singleton].
    intros p Hp ->%list_elem_of_singleton. done.
  - intros p [Hp| ->%list_elem_of_singleton]%elem_of_app; [by apply Hall|].
    split; [done | apply trim_idem].
Qed.

Lemma removeExcludePattern_tidy pattern f :
  tidy (excludePatterns (config f)) →
  tidy (excludePatterns (config (removeExcludePattern pattern f))).
Proof.
  intros [Hnd Hall]. cbn. split; [by apply NoDup_filter|].
  intros p [_ Hp]%list_elem_of_filter. by apply Hall.
Qed.

(** Whatever the user types, adds and removes, a list of patterns that
    has no pattern twice, no empty pattern and no pattern with white
    space at either end stays such a list. *)
Theorem pattern_list_stays_tidy f actions :
  tidy (excludePatterns (config f)) →
  tidy (excludePatterns (config (foldl act f actions))).
Proof.
  revert f. induction actions as [|a actions IH]; intros f Hf; [done|].
  cbn [foldl]. apply IH. destruct a as [value| |pattern]; cbn [act].
  - exact Hf.
  - by apply addExcludePattern_tidy.
  - by apply removeExcludePattern_tidy.
Qed.

Lemma pattern_list_stays_tidy_witness :
  tidy (excludePatterns (config
    (foldl act initial [Input " *.tmp "; Add; Input "*.tmp"; Add; Remove "*.log"]))).
Proof.
  apply (pattern_list_stays_tidy initial).
  split; [apply NoDup_nil_2 | intros p Hp; by apply elem_of_nil in Hp].
Defined.

(** Removing a pattern takes out every occurrence of it and nothing
    else, and leaves the other settings alone; removing the pattern that
    was just added, when it was new, gives back the configuration from
    before. *)
Theorem remove_undoes_add pattern f :
  (∀ p, p ∈ excludePatterns (config (removeExcludePattern pattern f))
        ↔ p ∈ excludePatterns (config f) ∧ p ≠ pattern)
  ∧ updateExcludePatterns (excludePatterns (config f))
      (config (removeExcludePattern pattern f)) = config f
  ∧ (trim (newPattern f) ∉ excludePatterns (config f) →
     config (removeExcludePattern (trim (newPattern f)) (addExcludePattern f)) = config f).
Proof.
  split; [intros p; cbn; rewrite list_elem_of_filter; tauto|].
  split; [by destruct f as [[] ?]|].
  intros Hnew. unfold addExcludePattern.
  assert (filter (λ p, p ≠ trim (newPattern f)) (excludePatterns (config f))
          = excludePatterns (config f)) as Hsame.
  { induction (excludePatterns (config f)) as [|q l IH]; [done|].
    apply not_elem_of_cons in Hnew as [Hq Hl].
    rewrite filter_cons_True by done. by rewrite IH. }
  destruct (bool_decide _ && _) eqn:Hguard.
  - unfold removeExcludePattern, updateExcludePatterns. cbn.
    rewrite filter_app, Hsame, filter_cons_False, filter_nil, app_nil_r by (intros H; by apply H).
    by destruct f as [[] ?].
  - unfold removeExcludePattern, updateExcludePatterns. cbn. rewrite Hsame.
    by destruct f as [[] ?].
Qed.

End SettingsFacts.

Module ClientFacts.
Import Runtime Handlers Client MonadFacts SyncFacts.

(** The client never reports files as synced: handed a result of the
    sync handler, a call that is not cancelled makes its three progress
    reports and then shows [Already up to date] when the response is ok
    and the result a success, and the failure toast otherwise. *)
Theorem client_reports_server_sync numberToString env st sec res ok :
  (run (sync_handler env) st sec).1 = Ok (Json (SyncData res)) →
  syncWithDrive numberToString false false (Resolved {| ok := ok; data := res |}) false
  = ([Report "Checking connection..." None; Report "Syncing files..." (Some 20);
      Report "Completing..." (Some 60)]
     ++ (if ok && success res
         then [ShowToast "Already up to date" "info"; SetStatus "online"]
         else [ShowToast "Sync failed. Check your connection." "error"; SetStatus "partial"]),
     false).
Proof.
  intros H.
  assert (synced res = 0) as Hsynced.
  { destruct (sync_handler_cases env st sec)
      as [[_ Hrun]|[(t & s1 & _ & _ & _ & Hrun)|(token & s1 & Hr)]];
      [rewrite Hrun in H; discriminate..|].
    rewrite (sync_handler_reaches _ _ _ _ _ Hr) in H.
    destruct (sync_dispatch_run env token s1) as (res' & iso & s' & Hrun & _ & _ & Hs & _).
    rewrite Hrun in H. by injection H as <-. }
  unfold syncWithDrive, task. cbn [Client.ok data]. rewrite Hsynced.
  by destruct (ok && success res).
Qed.

Lemma client_reports_server_sync_witness :
  syncWithDrive (λ _, "0") false false
    (Resolved {| ok := true; data := totalled initial_result |}) false
  = ([Report "Checking connection..." None; Report "Syncing files..." (Some 20);
      Report "Completing..." (Some 60)]
     ++ (if true && success (totalled initial_result)
         then [ShowToast "Already up to date" "info"; SetStatus "online"]
         else [ShowToast "Sync failed. Check your connection." "error"; SetStatus "partial"]),
     false).
Proof.
  apply (client_reports_server_sync (λ _, "0") online live_storage full_secrets
           (totalled initial_result) true).
  reflexivity.
Defined.

Lemma step_keeps_guard c1 c2 :
  step c1 c2 →
  (∀ i j, stages c1 !! i = Some Suspended → stages c1 !! j = Some Suspended → i = j)
  ∧ (isSyncing c1 = true ↔ ∃ i, stages c1 !! i = Some Suspended) →
  (∀ i j, stages c2 !! i = Some Suspended → stages c2 !! j = Some Suspended → i = j)
  ∧ (isSyncing c2 = true ↔ ∃ i, stages c2 !! i = Some Suspended).
Proof.
  intros Hstep [Huniq Hflag].
  assert (∀ (l : list Stage) i j x y, l !! i = Some y →
            <[i:=x]> l !! j = if decide (i = j) then Some x else l !! j) as Hlook.
  { intros l i j x y Hi. destruct (decide (i = j)) as [->|Hne].
    - apply list_lookup_insert_eq. by eapply lookup_lt_Some.
    - by apply list_lookup_insert_ne. }
  destruct Hstep as [i c Hi Hs|i c Hi Hs|i c Hi|i c Hi]; cbn [stages isSyncing].
  - split.
    + intros a b. rewrite !(Hlook _ _ _ _ _ Hi). repeat case_decide; try done. apply Huniq.
    + rewrite Hflag. split; intros [a Ha]; exists a; rewrite ?(Hlook _ _ _ _ _ Hi) in *;
        case_decide; subst; congruence.
  - assert (∀ a, stages c !! a ≠ Some Suspended) as Hnone.
    { intros a Ha. assert (isSyncing c = true) by (apply Hflag; eauto). congruence. }
    split.
    + intros a b. rewrite !(Hlook _ _ _ _ _ Hi). repeat case_decide; subst; try done;
        intros; exfalso; eapply Hnone; eauto.
    + split; [intros _|done]. exists i. rewrite (Hlook _ _ _ _ _ Hi). by rewrite decide_True.
  - rewrite list_insert_id by done. by split.
  - assert (∀ a, <[i:=Returned]> (stages c) !! a ≠ Some Suspended) as Hnone.
    { intros a. rewrite (Hlook _ _ _ _ _ Hi). case_decide; [done|].
      intros Ha. by pose proof (Huniq _ _ Hi Ha). }
    split.
    + intros a b Ha. by destruct (Hnone a).
    + split; [done|]. intros [a Ha]. by destruct (Hnone a).
Qed.

(** However the calls of [syncWithDrive] interleave, at most one of
    them is past the guard and not yet returned, and [isSyncing] is set
    exactly while there is one. *)
Theorem sync_calls_never_overlap n c :
  reaches (idle n) c →
  (∀ i j, stages c !! i = Some Suspended → stages c !! j = Some Suspended → i = j)
  ∧ (isSyncing c = true ↔ ∃ i, stages c !! i = Some Suspended).
Proof.
  induction 1 as [|c1 c2 _ IH Hstep]; [|by apply (step_keeps_guard c1 c2)].
  assert (∀ a, stages (idle n) !! a ≠ Some Suspended) as Hnone.
  { intros a Ha. cbn in Ha. by apply lookup_replicate in Ha as [[=] _]. }
  split; [intros a b Ha; by destruct (Hnone a)|].
  split; [done|]. intros [a Ha]. by destruct (Hnone a).
Qed.

Lemma sync_calls_never_overlap_witness :
  let c := {| isSyncing := true; stages := [Returned; Suspended; NotStarted] |} in
  (∀ i j, stages c !! i = Some Suspended → stages c !! j = Some Suspended → i = j)
  ∧ (isSyncing c = true ↔ ∃ i, stages c !! i = Some Suspended).
Proof.
  apply (sync_calls_never_overlap 3).
  apply (reaches_step _ {| isSyncing := true; stages := [NotStarted; Suspended; NotStarted] |}).
  - apply (reaches_step _ (idle 3)); [apply reaches_here|].
    by apply (step_enter 1 (idle 3)).
  - by apply (step_skip 0 {| isSyncing := true; stages := [NotStarted; Suspended; NotStarted] |}).
Defined.

End ClientFacts.

(** ** The outcome of a sync *)

Module OutcomeFacts.
Import Runtime Handlers Vocabulary MonadFacts SyncFacts DownloadFacts.

(** C8.  Whenever the sync handler answers with a result, the result
    counts no upload and no download, so [synced], their sum, is zero;
    its [success] flag is set iff its error count is zero; and its error
    count is the number of stages that failed: the upload stage never
    does, and the download stage, when the configured direction makes it
    run, fails exactly when the listing is not answered with an array of
    files. *)
Theorem sync_counts_are_zero env st sec res :
  (run (sync_handler env) st sec).1 = Ok (Json (SyncData res)) →
  uploaded res = 0 ∧ downloaded res = 0
  ∧ synced res = uploaded res + downloaded res ∧ synced res = 0
  ∧ (success res = true ↔ errors res = 0)
  ∧ ∃ token s1,
      reaches_dispatch env st sec token s1
      ∧ ∀ d, configured_direction st d →
          let listing := filesEndpoint env (steps s1) (files_request token) in
          let download_runs := d = "bidirectional" ∨ d = "download-only" in
          (errors res = 0
           ↔ (download_runs → ∃ files, listing = Reply true (Some (Files files))))
          ∧ (errors res = 1
             ↔ download_runs ∧ ∀ files, listing ≠ Reply true (Some (Files files))).
Proof.
  intros H.
  destruct (sync_handler_cases env st sec)
    as [[_ Hrun]|[(t & s1 & _ & _ & _ & Hrun)|(token & s1 & Hr)]];
    [rewrite Hrun in H; discriminate..|].
  rewrite (sync_handler_reaches _ _ _ _ _ Hr) in H.
  destruct (sync_dispatch_run env token s1)
    as (res' & iso & s' & Hrun & Hu & Hd & Hs & _ & Hok & _).
  rewrite Hrun in H. injection H as ->.
  rewrite Hu, Hd, Hs, Hok.
  split; [done|]. split; [done|]. split; [done|]. split; [done|].
  split; [split; [by intros ?%Z.eqb_eq | by intros ->]|].
  exists token, s1. split; [exact Hr|]. intros d Hdir listing download_runs.
  apply configured_direction_of in Hdir.
  rewrite <- (reaches_dispatch_storage _ _ _ _ _ "config" Hr ltac:(done)) in Hdir.
  unfold download_runs. rewrite <- wants_download_iff. subst d.
  destruct (wants_download _) eqn:Hw.
  - destruct (sync_dispatch_download env token s1 Hw) as (res2 & s2 & Hrun2 & _ & _ & He & _).
    rewrite Hrun in Hrun2. injection Hrun2 as -> _. rewrite He. fold listing.
    destruct listing as [msg|[] [[files|message]|]]; cbn; (split; split);
      first [ done | by eauto | by intros [_ [=]] | by intros [files' [=]]%(λ f, f eq_refl)
            | by intros [_ Hno]; destruct (Hno _ eq_refl) | idtac ].
  - destruct (sync_dispatch_no_download env token s1 Hw) as (s2 & Hrun2 & _).
    rewrite Hrun in Hrun2. injection Hrun2 as -> _. cbn. split; split;
      first [done | by intros [[=] _] | idtac].
Qed.

Lemma sync_counts_are_zero_witness :
  let res := {| success := false; synced := 0; uploaded := 0; downloaded := 0;
                errors := 1; errorMessages := ["fetch failed"] |} in
  uploaded res = 0 ∧ downloaded res = 0
  ∧ synced res = uploaded res + downloaded res ∧ synced res = 0
  ∧ (success res = true ↔ errors res = 0)
  ∧ ∃ token s1,
      reaches_dispatch offline live_storage full_secrets token s1
      ∧ ∀ d, configured_direction live_storage d →
          let listing := filesEndpoint offline (steps s1) (files_request token) in
          let download_runs := d = "bidirectional" ∨ d = "download-only" in
          (errors res = 0
           ↔ (download_runs → ∃ files, listing = Reply true (Some (Files files))))
          ∧ (errors res = 1
             ↔ download_runs ∧ ∀ files, listing ≠ Reply true (Some (Files files))).
Proof.
  intros res.
  apply (sync_counts_are_zero offline live_storage full_secrets res).
  reflexivity.
Defined.













End OutcomeFacts.

(** ** Callbacks that overlap *)

Module OverlapFacts.
Import Runtime Handlers Vocabulary MonadFacts CallbackFacts Overlap.

(** The two stretches, run one right after the other, are the check of
    the state token as the handler makes it. *)
Lemma look_settle_is_verify env req s :
  match look env req (storage s) with
  | Checked outcome => callback_verify env req s = (Ok outcome, s)
  | Looked storedState =>
      (callback_verify env req s).1
      = Ok (settle (clock env (steps s)) req storedState (storage s)).1
      ∧ storage (callback_verify env req s).2
        = (settle (clock env (steps s)) req storedState (storage s)).2
  | Arrived => False
  end.
Proof.
  unfold look, callback_verify, settle.
  destruct (truthy_str (q_error req)); [reflexivity|].
  destruct (truthy_str (q_code req)); [|reflexivity].
  destruct (truthy_str (q_state req)); [|reflexivity].
  cbn [negb]. rewrite bind_run. run_prims.
  destruct (storage s !! state_key (interpolate (q_state req))) as [stored|]; [|by split].
  destruct (truthy stored); cbn [negb]; [|by split].
  rewrite bind_run. run_prims.
  destruct (num_gt _ _); rewrite bind_run; run_prims; by split.
Qed.

(** C1 (as stated) fails when callbacks overlap.  Two callbacks present
    the state [abc], stored ten seconds before; both look the record up
    before either removes it, and both are accepted. *)
Lemma overlapping_callbacks_both_accepted :
  let arrived :=
    {| store := pending_storage 1699999990000;
       callbacks := [(sample_callback, Arrived); (sample_callback, Arrived)] |} in
  presents sample_callback "abc"
  ∧ ∃ c, reaches online arrived c
         ∧ callbacks c = [(sample_callback, Checked (inr "code"));
                          (sample_callback, Checked (inr "code"))]
         ∧ store c !! state_key "abc" = None.
Proof.
  intros arrived. split; [apply sample_callback_presents|].
  eexists. split.
  - eapply reaches_step; [eapply reaches_step; [eapply reaches_step;
      [eapply reaches_step; [apply reaches_here|]|]|]|].
    + by apply (step_look online 0 sample_callback arrived).
    + by apply (step_look online 1 sample_callback).
    + by apply (step_settle online 0 sample_callback
                  (Some (VState 1699999990000 None)) 1700000000000).
    + by apply (step_settle online 1 sample_callback
                  (Some (VState 1699999990000 None)) 1700000000000).
  - by vm_compute.
Qed.

End OverlapFacts.
